(** * mtg-localbase: the catalog synchronisation engine of [cards.py]

    A shallow embedding of [MTGCardDatabase] (src/cards.py): the raw
    records that the remote catalog returns, the three SQLite tables, the
    per-page upsert loop [process_card_page], the two sync drivers
    [fetch_all_cards] and [update_database], and the read side
    ([search_cards], [get_card_details], [get_stats]).

    Python values are a small universe [pyval]; a statement that can raise
    returns a [result]; code that mutates the connection threads a [world]
    and hands the world back even when it raises, because SQLite keeps the
    rows written before the exception. *)

Set Warnings "-register-all".
From Stdlib Require Import List String Ascii ZArith Bool Lia PrimFloat DecimalString.
From Stdlib Require Import Permutation OrderedTypeEx.
Import ListNotations.
Open Scope string_scope.
Open Scope Z_scope.

(** ** Python values *)

Module Py.

(** What [response.json()] can hand to the program.  A [dict] keeps its
    insertion order, which [items()] and iteration expose, so it is an
    association list; [get] and [in] look at the first binding of a key. *)
Inductive pyval : Type :=
| PNone
| PBool (b : bool)
| PInt (z : Z)
| PFloat (f : float)
| PStr (s : string)
| PList (l : list pyval)
| PDict (d : list (string * pyval)).

(** The exception classes the engine can meet. *)
Inductive exn : Type :=
| KeyError
| TypeError
| AttributeError
| IndexError
| OverflowError
| InterfaceError      (* sqlite3: a parameter of an unsupported type *)
| IntegrityError      (* sqlite3: PRIMARY KEY or NOT NULL violated *)
| OperationalError    (* sqlite3: the engine gives up on a statement it runs *)
| RequestException    (* requests: the transport failed *)
| JSONDecodeError.

Inductive result (A : Type) : Type :=
| Ok (a : A)
| Raise (e : exn).
Arguments Ok {A} a.
Arguments Raise {A} e.

Definition rbind {A B} (r : result A) (k : A -> result B) : result B :=
  match r with
  | Ok a => k a
  | Raise e => Raise e
  end.

Notation "x <- c ;; k" := (rbind c (fun x => k))
  (at level 61, c at next level, right associativity).

(** [bool(v)] *)
Definition truthy (v : pyval) : bool :=
  match v with
  | PNone => false
  | PBool b => b
  | PInt z => negb (z =? 0)
  | PFloat f => negb (PrimFloat.eqb f 0%float)
  | PStr s => negb (s =? "")%string
  | PList l => match l with [] => false | _ => true end
  | PDict d => match d with [] => false | _ => true end
  end.

Fixpoint assoc (k : string) (d : list (string * pyval)) : option pyval :=
  match d with
  | [] => None
  | (k', v) :: d' => if (k =? k')%string then Some v else assoc k d'
  end.

(** [k in d] for a dict [d] *)
Definition has_key (k : string) (d : list (string * pyval)) : bool :=
  match assoc k d with Some _ => true | None => false end.

(** [d.get(k, default)] for a dict [d] *)
Definition dict_get (k : string) (default : pyval) (d : list (string * pyval)) : pyval :=
  match assoc k d with Some v => v | None => default end.

(** [v.get(k, default)]: only a dict has the method. *)
Definition get (v : pyval) (k : string) (default : pyval) : result pyval :=
  match v with
  | PDict d => Ok (dict_get k default d)
  | _ => Raise AttributeError
  end.

(** [v[k]] with a string subscript *)
Definition getitem (v : pyval) (k : string) : result pyval :=
  match v with
  | PDict d => match assoc k d with Some x => Ok x | None => Raise KeyError end
  | _ => Raise TypeError
  end.

(** A [str] is kept as its UTF-8 bytes, and Python walks, indexes and
    measures it by code points: the bytes 0x80-0xBF continue the code
    point that the byte before them began. *)
Definition continues (c : ascii) : bool :=
  let n := nat_of_ascii c in (Nat.leb 128 n && Nat.leb n 191)%bool.

Fixpoint code_points (s : string) : list string :=
  match s with
  | EmptyString => []
  | String c s' =>
      match s' with
      | EmptyString => [String c EmptyString]
      | String d _ =>
          if continues d then
            match code_points s' with
            | p :: ps => String c p :: ps
            | [] => [String c EmptyString]
            end
          else String c EmptyString :: code_points s'
      end
  end.

Definition chars (s : string) : list pyval := map PStr (code_points s).

(** [v[0]] *)
Definition getitem0 (v : pyval) : result pyval :=
  match v with
  | PList l => match l with x :: _ => Ok x | [] => Raise IndexError end
  | PStr s => match chars s with x :: _ => Ok x | [] => Raise IndexError end
  | PDict _ => Raise KeyError
  | _ => Raise TypeError
  end.

Fixpoint is_substring (k s : string) : bool :=
  prefix k s ||
  match s with
  | EmptyString => false
  | String _ s' => is_substring k s'
  end.

Definition is_str (k : string) (v : pyval) : bool :=
  match v with PStr s => (s =? k)%string | _ => false end.

(** [k in v] for a string [k]: key test on a dict, substring test on a
    string, element test on a list; the scalars are not containers. *)
Definition contains (k : string) (v : pyval) : result bool :=
  match v with
  | PDict d => Ok (has_key k d)
  | PStr s => Ok (is_substring k s)
  | PList l => Ok (existsb (is_str k) l)
  | _ => Raise TypeError
  end.

(** [for x in v]: the sequence a [for] loop walks. *)
Definition iter (v : pyval) : result (list pyval) :=
  match v with
  | PList l => Ok l
  | PDict d => Ok (map (fun kv => PStr (fst kv)) d)
  | PStr s => Ok (chars s)
  | _ => Raise TypeError
  end.

(** [v.items()] *)
Definition items (v : pyval) : result (list (string * pyval)) :=
  match v with
  | PDict d => Ok d
  | _ => Raise AttributeError
  end.

(** [len(v)] *)
Definition len (v : pyval) : result Z :=
  match v with
  | PList l => Ok (Z.of_nat (List.length l))
  | PDict d => Ok (Z.of_nat (List.length d))
  | PStr s => Ok (Z.of_nat (List.length (code_points s)))
  | _ => Raise TypeError
  end.

(** [sep.join(xs)]: every element has to be a [str]. *)
Fixpoint strs (xs : list pyval) : result (list string) :=
  match xs with
  | [] => Ok []
  | PStr s :: xs' => ss <- strs xs' ;; Ok (s :: ss)
  | _ :: _ => Raise TypeError
  end.

Definition join (sep : string) (xs : list pyval) : result string :=
  ss <- strs xs ;; Ok (String.concat sep ss).

End Py.
Import Py.

(** ** The SQLite side *)

(** A value as SQLite stores it.  (No BLOB: nothing the engine binds is
    [bytes].) *)
Inductive sqlval : Type :=
| SNull
| SInt (z : Z)
| SReal (f : float)
| SText (s : string).

(** How the [sqlite3] module turns a Python argument into a bound
    parameter: [None], [int] (and [bool], its subclass), [float] and [str]
    are supported, an [int] has to fit 64 bits, anything else is refused
    before the statement runs.  SQLite has no NaN: it stores one as NULL. *)
Definition bind_param (v : pyval) : result sqlval :=
  match v with
  | PNone => Ok SNull
  | PBool b => Ok (SInt (if b then 1 else 0))
  | PInt z => if (- 2 ^ 63 <=? z) && (z <? 2 ^ 63) then Ok (SInt z) else Raise OverflowError
  | PFloat f => Ok (if PrimFloat.eqb f f then SReal f else SNull)
  | PStr s => Ok (SText s)
  | PList _ | PDict _ => Raise InterfaceError
  end.

Fixpoint bind_params (vs : list pyval) : result (list sqlval) :=
  match vs with
  | [] => Ok []
  | v :: vs' => x <- bind_param v ;; xs <- bind_params vs' ;; Ok (x :: xs)
  end.

(** The world outside the program, and the library functions whose text
    is not part of the repository. *)
Inductive http_result : Type :=
| Unreachable                                   (* [requests.get] raises *)
| Response (status_code : Z) (json : result pyval).

Record env : Type := {
  now : nat -> string;              (* [datetime.now().isoformat()], n-th reading *)
  http_get : string -> http_result; (* [requests.get(url)] *)
  json_dumps : pyval -> string;     (* [json.dumps] *)
  real_to_text : float -> string;   (* SQLite's rendering of a REAL as TEXT *)
  real_affinity : sqlval -> sqlval  (* SQLite's coercion into a REAL column *)
}.

Definition text_of_Z (z : Z) : string := NilZero.string_of_int (Z.to_int z).

(** TEXT affinity: what a TEXT column holds after a value is stored in it,
    and what [column = ?] compares a parameter as.  [None] is NULL. *)
Definition text_affinity (E : env) (v : sqlval) : option string :=
  match v with
  | SNull => None
  | SInt z => Some (text_of_Z z)
  | SReal f => Some (real_to_text E f)
  | SText s => Some s
  end.

(** [a = b] in SQL on two TEXT cells: NULL equals nothing. *)
Definition sql_eq (a b : option string) : bool :=
  match a, b with
  | Some x, Some y => (x =? y)%string
  | _, _ => false
  end.

(** One row of [cards], column by column as [create_tables] declares it. *)
Record card_row : Type := {
  id : option string;
  name : option string;
  oracle_text : option string;
  mana_cost : option string;
  cmc : sqlval;
  type_line : option string;
  power : option string;
  toughness : option string;
  loyalty : option string;
  colors : option string;
  color_identity : option string;
  set_code : option string;
  set_name : option string;
  rarity : option string;
  artist : option string;
  released_at : option string;
  image_uri : option string;
  scryfall_uri : option string;
  price_usd : sqlval;
  price_eur : sqlval;
  price_tix : sqlval;
  last_updated : option string
}.

(** [legalities (card_id, format, status)] and [keywords (card_id, keyword)] *)
Definition legality : Type := option string * option string * option string.
Definition keyword_row : Type := option string * option string.

Record tables : Type := {
  cards : list card_row;
  legalities : list legality;
  keywords : list keyword_row
}.

Definition no_tables : tables := {| cards := []; legalities := []; keywords := [] |}.

(** The 22 values of [card_data], in the column order of the INSERT. *)
Definition row_of (E : env) (vals : list sqlval) : option card_row :=
  match vals with
  | [v0; v1; v2; v3; v4; v5; v6; v7; v8; v9; v10; v11; v12; v13; v14; v15;
     v16; v17; v18; v19; v20; v21] =>
      Some {| id := text_affinity E v0;
              name := text_affinity E v1;
              oracle_text := text_affinity E v2;
              mana_cost := text_affinity E v3;
              cmc := real_affinity E v4;
              type_line := text_affinity E v5;
              power := text_affinity E v6;
              toughness := text_affinity E v7;
              loyalty := text_affinity E v8;
              colors := text_affinity E v9;
              color_identity := text_affinity E v10;
              set_code := text_affinity E v11;
              set_name := text_affinity E v12;
              rarity := text_affinity E v13;
              artist := text_affinity E v14;
              released_at := text_affinity E v15;
              image_uri := text_affinity E v16;
              scryfall_uri := text_affinity E v17;
              price_usd := real_affinity E v18;
              price_eur := real_affinity E v19;
              price_tix := real_affinity E v20;
              last_updated := text_affinity E v21 |}
  | _ => None
  end.

Definition is_some {A} (o : option A) : bool :=
  match o with Some _ => true | None => false end.

(** [SELECT id FROM cards WHERE id = ?] then [fetchone()]: is there a row? *)
Definition select_id (E : env) (t : tables) (card_id : pyval) : result bool :=
  k <- bind_param card_id ;;
  Ok (existsb (fun r => sql_eq (id r) (text_affinity E k)) (cards t)).

(** [INSERT INTO cards (...) VALUES (?, ..., ?)] with [card_data].
    [name] is NOT NULL; [id] is the primary key (SQLite lets a NULL in). *)
Definition insert_card (E : env) (t : tables) (card_data : list pyval) : result tables :=
  vals <- bind_params card_data ;;
  match row_of E vals with
  | None => Raise InterfaceError       (* wrong number of bindings *)
  | Some r =>
      if negb (is_some (name r)) then Raise IntegrityError
      else if existsb (fun r' => sql_eq (id r') (id r)) (cards t) then Raise IntegrityError
      else Ok {| cards := cards t ++ [r];
                 legalities := legalities t;
                 keywords := keywords t |}
  end.

(** The SET list of the UPDATE: every column but [id]. *)
Definition set_columns (new old : card_row) : card_row :=
  {| id := id old;
     name := name new; oracle_text := oracle_text new; mana_cost := mana_cost new;
     cmc := cmc new; type_line := type_line new; power := power new;
     toughness := toughness new; loyalty := loyalty new; colors := colors new;
     color_identity := color_identity new; set_code := set_code new;
     set_name := set_name new; rarity := rarity new; artist := artist new;
     released_at := released_at new; image_uri := image_uri new;
     scryfall_uri := scryfall_uri new; price_usd := price_usd new;
     price_eur := price_eur new; price_tix := price_tix new;
     last_updated := last_updated new |}.

(** [UPDATE cards SET name = ?, ..., last_updated = ? WHERE id = ?] with
    [card_data[1:] + (card_id,)]: the key travels last. *)
Definition update_card (E : env) (t : tables) (params : list pyval) : result tables :=
  vals <- bind_params params ;;
  match row_of E (last vals SNull :: removelast vals) with
  | None => Raise InterfaceError
  | Some r =>
      if existsb (fun r' => sql_eq (id r') (id r)) (cards t) && negb (is_some (name r))
      then Raise IntegrityError
      else Ok {| cards := map (fun r' => if sql_eq (id r') (id r) then set_columns r r' else r')
                              (cards t);
                 legalities := legalities t;
                 keywords := keywords t |}
  end.

(** [DELETE FROM legalities WHERE card_id = ?] *)
Definition delete_legalities (E : env) (t : tables) (card_id : pyval) : result tables :=
  k <- bind_param card_id ;;
  Ok {| cards := cards t;
        legalities := filter (fun l => negb (sql_eq (fst (fst l)) (text_affinity E k)))
                             (legalities t);
        keywords := keywords t |}.

(** [DELETE FROM keywords WHERE card_id = ?] *)
Definition delete_keywords (E : env) (t : tables) (card_id : pyval) : result tables :=
  k <- bind_param card_id ;;
  Ok {| cards := cards t;
        legalities := legalities t;
        keywords := filter (fun w => negb (sql_eq (fst w) (text_affinity E k))) (keywords t) |}.

(** [INSERT INTO legalities (card_id, format, status) VALUES (?, ?, ?)];
    PRIMARY KEY (card_id, format). *)
Definition insert_legality (E : env) (t : tables) (card_id format status : pyval)
  : result tables :=
  vals <- bind_params [card_id; format; status] ;;
  match map (text_affinity E) vals with
  | [c; f; s] =>
      if existsb (fun l => sql_eq (fst (fst l)) c && sql_eq (snd (fst l)) f) (legalities t)
      then Raise IntegrityError
      else Ok {| cards := cards t;
                 legalities := legalities t ++ [(c, f, s)];
                 keywords := keywords t |}
  | _ => Raise InterfaceError
  end.

(** [INSERT INTO keywords (card_id, keyword) VALUES (?, ?)];
    PRIMARY KEY (card_id, keyword). *)
Definition insert_keyword (E : env) (t : tables) (card_id keyword : pyval) : result tables :=
  vals <- bind_params [card_id; keyword] ;;
  match map (text_affinity E) vals with
  | [c; k] =>
      if existsb (fun w => sql_eq (fst w) c && sql_eq (snd w) k) (keywords t)
      then Raise IntegrityError
      else Ok {| cards := cards t;
                 legalities := legalities t;
                 keywords := keywords t ++ [(c, k)] |}
  | _ => Raise InterfaceError
  end.

(** ** The connection and the program's output *)

(** What the program prints, one constructor per [print] of the source. *)
Inductive msg : Type :=
| StartingFetch
| ErrorFetchingCards (status_code : Z)
| FoundTotal (total_cards : pyval)
| Processed (cards_processed : Z) (total_cards : pyval)
| ErrorFetchingPage (status_code : Z)
| FinishedFetching
| UpdatingSince (last_update_date : string)
| NoNewCards
| ErrorFetchingUpdates (status_code : Z)
| FoundNew (total_new_cards : pyval)
| ProcessedNew (cards_processed : Z) (total_new_cards : pyval)
| UpdateComplete
| ErrorDuringUpdate (e : exn).

(** [self.conn] as one connection sees it: [db] is the connection's view,
    uncommitted writes included; [committed] is what [conn.commit()] last
    made durable; [ticks] counts the readings of the clock; [requested]
    lists the URLs sent to the remote, oldest first. *)
Record world : Type := {
  db : tables;
  committed : tables;
  ticks : nat;
  requested : list string;
  stdout : list msg
}.

Definition M (A : Type) : Type := world -> result A * world.

Definition ret {A} (a : A) : M A := fun w => (Ok a, w).

Definition raise {A} (e : exn) : M A := fun w => (Raise e, w).

Definition bind {A B} (m : M A) (k : A -> M B) : M B :=
  fun w => match m w with
           | (Ok a, w') => k a w'
           | (Raise e, w') => (Raise e, w')
           end.

Declare Scope M_scope.
Delimit Scope M_scope with M.
Notation "x <~ c ;; k" := (bind c (fun x => k))
  (at level 61, c at next level, right associativity) : M_scope.
Notation "c ;;; k" := (bind c (fun _ => k))
  (at level 61, right associativity) : M_scope.

(** a pure step that may raise *)
Definition lift {A} (r : result A) : M A := fun w => (r, w).

(** [self.cursor.execute] of a statement that reads *)
Definition query {A} (q : tables -> result A) : M A := fun w => (q (db w), w).

(** [self.cursor.execute] of a statement that writes: a statement that
    raises leaves the tables as they were. *)
Definition execute (q : tables -> result tables) : M unit :=
  fun w => match q (db w) with
           | Ok t => (Ok tt, {| db := t; committed := committed w;
                                ticks := ticks w; requested := requested w;
                                stdout := stdout w |})
           | Raise e => (Raise e, w)
           end.

(** [self.conn.commit()] *)
Definition commit : M unit :=
  fun w => (Ok tt, {| db := db w; committed := db w;
                      ticks := ticks w; requested := requested w;
                                stdout := stdout w |}).

(** [datetime.now().isoformat()] *)
Definition datetime_now (E : env) : M pyval :=
  fun w => (Ok (PStr (now E (ticks w))),
            {| db := db w; committed := committed w;
               ticks := S (ticks w); requested := requested w;
               stdout := stdout w |}).

Definition print (m : msg) : M unit :=
  fun w => (Ok tt, {| db := db w; committed := committed w;
                      ticks := ticks w; requested := requested w;
                      stdout := stdout w ++ [m] |}).

(** ** [process_card_page] *)

(** lines 213-216: the texts of the faces that carry one, in face order *)
Fixpoint faces_text (faces : list pyval) : result (list pyval) :=
  match faces with
  | [] => Ok []
  | face :: faces' =>
      has <- contains "oracle_text" face ;;
      if has then
        t <- getitem face "oracle_text" ;;
        ts <- faces_text faces' ;;
        Ok (t :: ts)
      else faces_text faces'
  end.

(** lines 210-217 *)
Definition oracle_text_of (card : pyval) : result pyval :=
  oracle_text <- get card "oracle_text" (PStr "") ;;
  has_faces <- contains "card_faces" card ;;
  if has_faces && negb (truthy oracle_text) then
    card_faces <- getitem card "card_faces" ;;
    faces <- iter card_faces ;;
    texts <- faces_text faces ;;
    joined <- join " // " texts ;;
    Ok (PStr joined)
  else Ok oracle_text.

(** lines 223-228 *)
Definition image_uri_of (card : pyval) : result pyval :=
  has_uris <- contains "image_uris" card ;;
  direct <- (if has_uris
             then (image_uris <- getitem card "image_uris" ;; contains "normal" image_uris)
             else Ok false) ;;
  if direct then
    image_uris <- getitem card "image_uris" ;;
    getitem image_uris "normal"
  else
    has_faces <- contains "card_faces" card ;;
    on_face <- (if has_faces
                then (card_faces <- getitem card "card_faces" ;;
                      face <- getitem0 card_faces ;;
                      contains "image_uris" face)
                else Ok false) ;;
    if on_face then
      card_faces <- getitem card "card_faces" ;;
      face <- getitem0 card_faces ;;
      image_uris <- getitem face "image_uris" ;;
      get image_uris "normal" PNone
    else Ok PNone.

(** [card.get('prices', {}).get(k, None)] *)
Definition price_of (card : pyval) (k : string) : result pyval :=
  prices <- get card "prices" (PDict []) ;;
  get prices k PNone.

(** lines 210-252: the first 21 components of [card_data], everything but
    the time stamp, in the order Python evaluates them. *)
Definition normalize (E : env) (card card_id : pyval) : result (list pyval) :=
  oracle_text <- oracle_text_of card ;;
  colors_v <- get card "colors" (PList []) ;;
  identity_v <- get card "color_identity" (PList []) ;;
  image_uri <- image_uri_of card ;;
  name_v <- get card "name" (PStr "") ;;
  mana_cost_v <- get card "mana_cost" (PStr "") ;;
  cmc_v <- get card "cmc" (PFloat 0%float) ;;
  type_line_v <- get card "type_line" (PStr "") ;;
  power_v <- get card "power" (PStr "") ;;
  toughness_v <- get card "toughness" (PStr "") ;;
  loyalty_v <- get card "loyalty" (PStr "") ;;
  set_v <- get card "set" (PStr "") ;;
  set_name_v <- get card "set_name" (PStr "") ;;
  rarity_v <- get card "rarity" (PStr "") ;;
  artist_v <- get card "artist" (PStr "") ;;
  released_at_v <- get card "released_at" (PStr "") ;;
  scryfall_uri_v <- get card "scryfall_uri" (PStr "") ;;
  usd <- price_of card "usd" ;;
  eur <- price_of card "eur" ;;
  tix <- price_of card "tix" ;;
  Ok [card_id; name_v; oracle_text; mana_cost_v; cmc_v; type_line_v; power_v;
      toughness_v; loyalty_v; PStr (json_dumps E colors_v);
      PStr (json_dumps E identity_v); set_v; set_name_v; rarity_v; artist_v;
      released_at_v; image_uri; scryfall_uri_v; usd; eur; tix].

Open Scope M_scope.

(** lines 285-289 *)
Fixpoint insert_legalities (E : env) (card_id : pyval) (its : list (string * pyval))
  : M unit :=
  match its with
  | [] => ret tt
  | (format_name, status) :: its' =>
      execute (fun t => insert_legality E t card_id (PStr format_name) status) ;;;
      insert_legalities E card_id its'
  end.

(** lines 293-297 *)
Fixpoint insert_keywords (E : env) (card_id : pyval) (kws : list pyval) : M unit :=
  match kws with
  | [] => ret tt
  | keyword :: kws' =>
      execute (fun t => insert_keyword E t card_id keyword) ;;;
      insert_keywords E card_id kws'
  end.

(** lines 256-281: the row of [cards], and in the UPDATE branch the two
    DELETEs that clear the dependent rows *)
Definition write_card (E : env) (existing_card : bool) (card_id : pyval)
  (card_data : list pyval) : M unit :=
  if existing_card then
    execute (fun t => update_card E t (tl card_data ++ [card_id])%list) ;;;
    execute (fun t => delete_legalities E t card_id) ;;;
    execute (fun t => delete_keywords E t card_id)
  else
    execute (fun t => insert_card E t card_data).

(** lines 283-289 *)
Definition add_legalities (E : env) (card card_id : pyval) : M unit :=
  has_legalities <~ lift (contains "legalities" card) ;;
  if has_legalities then
    legs <~ lift (getitem card "legalities") ;;
    its <~ lift (items legs) ;;
    insert_legalities E card_id its
  else ret tt.

(** lines 291-297 *)
Definition add_keywords (E : env) (card card_id : pyval) : M unit :=
  has_keywords <~ lift (contains "keywords" card) ;;
  kw <~ (if has_keywords then lift (getitem card "keywords") else ret PNone) ;;
  if has_keywords && truthy kw then
    kws <~ lift (iter kw) ;;
    insert_keywords E card_id kws
  else ret tt.

(** One turn of the [for card in cards] loop, lines 200-297. *)
Definition process_card (E : env) (update_existing : bool) (card : pyval) : M unit :=
  card_id <~ lift (getitem card "id") ;;
  existing_card <~ query (fun t => select_id E t card_id) ;;
  if existing_card && negb update_existing then ret tt
  else
    fields <~ lift (normalize E card card_id) ;;
    stamp <~ datetime_now E ;;
    write_card E existing_card card_id (fields ++ [stamp])%list ;;;
    add_legalities E card card_id ;;;
    add_keywords E card card_id.

Fixpoint process_cards (E : env) (update_existing : bool) (cs : list pyval) : M unit :=
  match cs with
  | [] => ret tt
  | card :: cs' =>
      process_card E update_existing card ;;;
      process_cards E update_existing cs'
  end.

(** [process_card_page(cards, update_existing)]: the loop, then one commit
    for the page.  Nothing in the loop catches an exception. *)
Definition process_card_page (E : env) (cards : pyval) (update_existing : bool) : M unit :=
  cs <~ lift (iter cards) ;;
  process_cards E update_existing cs ;;;
  commit.

(** ** The two sync drivers *)

Definition api_base_url : string := "https://api.scryfall.com".

(** [requests.get(url)]: [requests] renders an argument that is not a
    [str] with [str()], which never yields a URL with a scheme, and
    refuses it. *)
Definition requests_get (E : env) (url : pyval) : M (Z * result pyval) :=
  match url with
  | PStr u =>
      fun w =>
        let w' := {| db := db w; committed := committed w; ticks := ticks w;
                     requested := requested w ++ [u]; stdout := stdout w |} in
        match http_get E u with
        | Unreachable => (Raise RequestException, w')
        | Response status_code json => (Ok (status_code, json), w')
        end
  | _ => raise RequestException
  end.

(** [process_card_page(data['data'], ...)], [cards_processed += len(...)]
    and the progress line: the three statements both drivers run on every
    page they receive. *)
Definition ingest_page (E : env) (update_existing : bool) (report : Z -> pyval -> msg)
  (data total : pyval) (cards_processed : Z) : M Z :=
  page <~ lift (getitem data "data") ;;
  process_card_page E page update_existing ;;;
  n <~ lift (len page) ;;
  print (report (cards_processed + n) total) ;;;
  ret (cards_processed + n).

(** The [while data.get('has_more', False)] loop of both drivers.  The
    remote decides how long it runs, so the model counts the pages it may
    still fetch: [false] says the count ran out with the loop still going,
    [true] that the loop ended (by the flag or by [break]). *)
Fixpoint more_pages (fuel : nat) (E : env) (update_existing : bool)
  (report : Z -> pyval -> msg) (data total : pyval) (cards_processed : Z) : M bool :=
  has_more <~ lift (get data "has_more" (PBool false)) ;;
  if truthy has_more then
    match fuel with
    | O => ret false
    | S fuel' =>
        next_page_url <~ lift (getitem data "next_page") ;;
        response <~ requests_get E next_page_url ;;
        if negb (fst response =? 200) then
          print (ErrorFetchingPage (fst response)) ;;; ret true
        else
          data' <~ lift (snd response) ;;
          n <~ ingest_page E update_existing report data' total cards_processed ;;
          more_pages fuel' E update_existing report data' total n
    end
  else ret true.

(** [fetch_all_cards(update_existing)]; the result says whether the call
    returned within [fuel] further pages. *)
Definition fetch_all_cards (fuel : nat) (E : env) (update_existing : bool) : M bool :=
  print StartingFetch ;;;
  response <~ requests_get E (PStr (api_base_url ++ "/cards")) ;;
  if negb (fst response =? 200) then
    print (ErrorFetchingCards (fst response)) ;;; ret true
  else
    data <~ lift (snd response) ;;
    total_cards <~ lift (get data "total_cards" (PInt 0)) ;;
    print (FoundTotal total_cards) ;;;
    n <~ ingest_page E update_existing Processed data total_cards 0 ;;
    finished <~ more_pages fuel E update_existing Processed data total_cards n ;;
    if finished then print FinishedFetching ;;; ret true else ret false.

(** [MAX] keeps the greater of two TEXT cells under the BINARY collation
    and skips NULL. *)
Definition sql_max (a b : option string) : option string :=
  match a, b with
  | None, _ => b
  | _, None => a
  | Some x, Some y => if String.ltb x y then Some y else Some x
  end.

(** [SELECT MAX(released_at) FROM cards], then [result[0]] *)
Definition max_released_at (t : tables) : option string :=
  fold_left sql_max (map released_at (cards t)) None.

(** line 132: [result[0] if result[0] else "2000-01-01"] *)
Definition last_update_date (t : tables) : string :=
  match max_released_at t with
  | Some d => if negb (d =? "")%string then d else "2000-01-01"
  | None => "2000-01-01"
  end.

(** [try: body except Exception as e: handler(e)] *)
Definition try_except {A} (body : M A) (handler : exn -> M A) : M A :=
  fun w => match body w with
           | (Ok a, w') => (Ok a, w')
           | (Raise e, w') => handler e w'
           end.

(** lines 137-138: the URL of the date-bounded query *)
Definition search_url (date : string) : string :=
  let search_query := "date>" ++ date in
  api_base_url ++ "/cards/search?q=" ++ search_query.

(** [update_database()] *)
Definition update_database (fuel : nat) (E : env) : M bool :=
  date <~ query (fun t => Ok (last_update_date t)) ;;
  print (UpdatingSince date) ;;;
  let url := search_url date in
  try_except
    (response <~ requests_get E (PStr url) ;;
     if fst response =? 404 then print NoNewCards ;;; ret true
     else if negb (fst response =? 200) then
       print (ErrorFetchingUpdates (fst response)) ;;; ret true
     else
       data <~ lift (snd response) ;;
       total_new_cards <~ lift (get data "total_cards" (PInt 0)) ;;
       print (FoundNew total_new_cards) ;;;
       n <~ ingest_page E true ProcessedNew data total_new_cards 0 ;;
       finished <~ more_pages fuel E true ProcessedNew data total_new_cards n ;;
       if finished then print UpdateComplete ;;; ret true else ret false)
    (fun e => print (ErrorDuringUpdate e) ;;; ret true).

(** ** The read side *)

Close Scope M_scope.

(** SQLite's [LIKE] folds the 26 ASCII letters and nothing else. *)
Definition upper (c : ascii) : ascii :=
  let n := nat_of_ascii c in
  if (Nat.leb 97 n && Nat.leb n 122)%bool then ascii_of_nat (n - 32) else c.

Definition like_char (c d : ascii) : bool := Ascii.eqb (upper c) (upper d).

(** The bytes 0x80-0xBF continue a UTF-8 character; [_] takes a whole
    character. *)
Fixpoint skip_continuation (t : string) : string :=
  match t with
  | String d t' =>
      let n := nat_of_ascii d in
      if (Nat.leb 128 n && Nat.leb n 191)%bool then skip_continuation t' else t
  | EmptyString => t
  end.

(** SQLite's pattern matcher on two C strings: [%] stands for any run of
    characters, [_] for one. *)
Fixpoint pattern_compare (p : string) : string -> bool :=
  match p with
  | EmptyString => fun t => match t with EmptyString => true | _ => false end
  | String c p' =>
      if Ascii.eqb c "%" then
        fix any (t : string) : bool :=
          pattern_compare p' t || match t with
                                  | EmptyString => false
                                  | String _ t' => any t'
                                  end
      else if Ascii.eqb c "_" then
        fun t => match t with
                 | EmptyString => false
                 | String _ t' => pattern_compare p' (skip_continuation t')
                 end
      else
        fun t => match t with
                 | EmptyString => false
                 | String d t' => like_char c d && pattern_compare p' t'
                 end
  end.

(** The matcher reads its operands as C strings: a TEXT value that holds
    a NUL byte ends there for it. *)
Fixpoint before_nul (s : string) : string :=
  match s with
  | EmptyString => EmptyString
  | String c s' => if Ascii.eqb c Ascii.zero then EmptyString else String c (before_nul s')
  end.

(** [t LIKE p] on two TEXT values. *)
Definition like (p t : string) : bool :=
  pattern_compare (before_nul p) (before_nul t).

(** [cell LIKE p] as a WHERE condition: NULL is not a match. *)
Definition sql_like (cell : option string) (p : string) : bool :=
  match cell with
  | Some t => like p t
  | None => false
  end.

(** [LIMIT n]: a negative bound is no bound. *)
Definition sql_limit {A} (n : Z) (rows : list A) : list A :=
  if n <? 0 then rows else firstn (Z.to_nat n) rows.

(** One entry of the list [search_cards] returns. *)
Record search_hit : Type := {
  hit_id : option string;
  hit_name : option string;
  hit_oracle_text : option string;
  hit_mana_cost : option string;
  hit_type_line : option string
}.

(** The longest LIKE pattern the engine takes, in bytes (SQLite's
    default SQLITE_MAX_LIKE_PATTERN_LENGTH); a longer one makes the
    statement fail at the first row it is tried on. *)
Definition like_pattern_limit : Z := 50000.

(** [search_cards(query, limit)].  The four parameters are bound first: a
    [limit] outside 64 bits is refused there.  [LIMIT 0] ends the
    statement before it looks at a row. *)
Definition search_cards (t : tables) (query : string) (limit : Z)
  : result (list search_hit) :=
  let search_pattern := "%" ++ query ++ "%" in
  _ <- bind_params [PStr search_pattern; PStr search_pattern; PStr search_pattern;
                    PInt limit] ;;
  if negb (limit =? 0)
     && match cards t with [] => false | _ :: _ => true end
     && (like_pattern_limit <? Z.of_nat (String.length search_pattern))
  then Raise OperationalError
  else
    Ok (map (fun r => {| hit_id := id r; hit_name := name r;
                         hit_oracle_text := oracle_text r;
                         hit_mana_cost := mana_cost r;
                         hit_type_line := type_line r |})
            (sql_limit limit
               (filter (fun r => sql_like (name r) search_pattern
                                 || sql_like (oracle_text r) search_pattern
                                 || sql_like (type_line r) search_pattern)
                       (cards t)))).

(** The double quote, and the literal ['["X"]'] of the first CASE. *)
Definition dquote : string := String (ascii_of_nat 34) EmptyString.

Definition one_color (c : string) : string := "[" ++ dquote ++ c ++ dquote ++ "]".

(** The first CASE of [get_stats]: the stored text of [color_identity],
    compared as a whole. *)
Definition color_group (r : card_row) : string :=
  if sql_eq (color_identity r) (Some "[]") then "Colorless"
  else if sql_eq (color_identity r) (Some (one_color "W")) then "White"
  else if sql_eq (color_identity r) (Some (one_color "U")) then "Blue"
  else if sql_eq (color_identity r) (Some (one_color "B")) then "Black"
  else if sql_eq (color_identity r) (Some (one_color "R")) then "Red"
  else if sql_eq (color_identity r) (Some (one_color "G")) then "Green"
  else "Multicolor".

(** The second CASE: the first arm whose pattern the type line matches. *)
Definition type_group (r : card_row) : string :=
  if sql_like (type_line r) "%Creature%" then "Creature"
  else if sql_like (type_line r) "%Planeswalker%" then "Planeswalker"
  else if sql_like (type_line r) "%Instant%" then "Instant"
  else if sql_like (type_line r) "%Sorcery%" then "Sorcery"
  else if sql_like (type_line r) "%Enchantment%" then "Enchantment"
  else if sql_like (type_line r) "%Artifact%" then "Artifact"
  else if sql_like (type_line r) "%Land%" then "Land"
  else "Other".

(** [SELECT <group>, COUNT( * ) FROM cards GROUP BY <group> ORDER BY count
    DESC], read with [dict(fetchall())]: one entry per group that occurs,
    with the number of its rows.  Groups come out in order of first
    occurrence before the sort; a Python [dict] is looked up by key, which
    does not depend on that order. *)
Fixpoint groups_of (f : card_row -> string) (rows : list card_row) : list string :=
  match rows with
  | [] => []
  | r :: rows' =>
      let gs := groups_of f rows' in
      f r :: filter (fun g => negb (g =? f r)%string) gs
  end.

Definition count_group (f : card_row -> string) (rows : list card_row) (g : string) : Z :=
  Z.of_nat (List.length (filter (fun r => (f r =? g)%string) rows)).

Fixpoint insert_desc (x : string * Z) (l : list (string * Z)) : list (string * Z) :=
  match l with
  | [] => [x]
  | y :: l' => if snd y <? snd x then x :: l else y :: insert_desc x l'
  end.

Definition order_by_count_desc (l : list (string * Z)) : list (string * Z) :=
  fold_right insert_desc [] l.

Definition group_counts (f : card_row -> string) (rows : list card_row)
  : list (string * Z) :=
  order_by_count_desc (map (fun g => (g, count_group f rows g)) (groups_of f rows)).

(** [d[k]] / [d.get(k)] on the dict made of the pairs *)
Fixpoint lookup (k : string) (d : list (string * Z)) : option Z :=
  match d with
  | [] => None
  | (k', v) :: d' => if (k =? k')%string then Some v else lookup k d'
  end.

Record stats : Type := {
  total_cards : Z;
  stats_colors : list (string * Z);
  stats_types : list (string * Z);
  stats_last_updated : option string
}.

(** [get_stats()] *)
Definition get_stats (t : tables) : stats :=
  {| total_cards := Z.of_nat (List.length (cards t));
     stats_colors := group_counts color_group (cards t);
     stats_types := group_counts type_group (cards t);
     stats_last_updated := fold_left sql_max (map last_updated (cards t)) None |}.

(** ** A concrete environment for the worked examples *)

(** [json.dumps] on the values the examples pass to it: [None], booleans,
    integers, strings of printable ASCII without quote or backslash, and
    lists and dicts of those, with Python's default separators.  (Floats
    and strings that need an escape do not occur in the examples.) *)
Fixpoint dumps_plain (v : pyval) : string :=
  match v with
  | PNone => "null"
  | PBool b => if b then "true" else "false"
  | PInt z => text_of_Z z
  | PFloat _ => "NaN"
  | PStr s => dquote ++ s ++ dquote
  | PList l => "[" ++ String.concat ", " (map dumps_plain l) ++ "]"
  | PDict d =>
      "{" ++ String.concat ", "
               (map (fun kv => match kv with
                               | (k, x) => dquote ++ k ++ dquote ++ ": " ++ dumps_plain x
                               end) d) ++ "}"
  end.

(** A remote that serves one page of cards at every URL. *)
Definition one_page (records : list pyval) : pyval :=
  PDict [("data", PList records); ("has_more", PBool false);
         ("total_cards", PInt (Z.of_nat (List.length records)))].

(** The clock reads [t0], [t1], ... ; REAL columns take NULL and REAL
    values as they are, which is all the examples store in them. *)
Definition example_env (reply : string -> http_result) : env :=
  {| now := fun n => "t" ++ text_of_Z (Z.of_nat n);
     http_get := reply;
     json_dumps := dumps_plain;
     real_to_text := fun _ => "0.0";
     real_affinity := fun v => v |}.

Definition serve (records : list pyval) : env :=
  example_env (fun _ => Response 200 (Ok (one_page records))).

Definition empty_world : world :=
  {| db := no_tables; committed := no_tables; ticks := O; requested := []; stdout := [] |}.

(** ** Vocabulary of the statements *)

(** The projection [search_cards] makes of a row. *)
Definition hit_of (r : card_row) : search_hit :=
  {| hit_id := id r; hit_name := name r; hit_oracle_text := oracle_text r;
     hit_mana_cost := mana_cost r; hit_type_line := type_line r |}.

(** A cell holds [q] as a literal substring. *)
Definition holds_literally (q : string) (cell : option string) : bool :=
  match cell with
  | Some s => is_substring q s
  | None => false
  end.

(** Case-insensitive substring search, said without [LIKE]: both texts
    are folded to upper case, letter by letter from the alphabet, and the
    folded query is looked for as a plain substring. *)
Definition lower_case : string := "abcdefghijklmnopqrstuvwxyz".
Definition upper_case : string := "ABCDEFGHIJKLMNOPQRSTUVWXYZ".

Definition fold_letter (c : ascii) : ascii :=
  match String.index 0 (String c EmptyString) lower_case with
  | Some i => match String.get i upper_case with
              | Some u => u
              | None => c
              end
  | None => c
  end.

Fixpoint fold_case (s : string) : string :=
  match s with
  | EmptyString => EmptyString
  | String c s' => String (fold_letter c) (fold_case s')
  end.

Definition occurs_in (q t : string) : bool := is_substring (fold_case q) (fold_case t).

(** A cell holds the query, case aside, in the text before its first NUL;
    a NULL cell holds nothing. *)
Definition holds_folded (q : string) (cell : option string) : bool :=
  match cell with
  | Some s => occurs_in q (before_nul s)
  | None => false
  end.

(** The store after one page with the single record [{"id": "c1", "name":
    "abc"}] has been ingested into an empty database. *)
Definition store_abc : tables :=
  db (snd (process_card_page (serve []) (PList [PDict [("id", PStr "c1"); ("name", PStr "abc")]])
             true empty_world)).

(** The classification of §4.5 in the spec's words: the encoded
    color-identity compared as a whole with the empty list and with the
    five one-color lists; the type line searched for the words of a
    fixed priority list as substrings, first match wins. *)
Definition canonical_colors : list (string * string) :=
  [("W", "White"); ("U", "Blue"); ("B", "Black"); ("R", "Red"); ("G", "Green")].

Definition classify_color (encoded : option string) : string :=
  match encoded with
  | None => "Multicolor"
  | Some e =>
      if (e =? "[]")%string then "Colorless"
      else match find (fun p => (e =? one_color (fst p))%string) canonical_colors with
           | Some p => snd p
           | None => "Multicolor"
           end
  end.

Definition type_priority : list string :=
  ["Creature"; "Planeswalker"; "Instant"; "Sorcery"; "Enchantment"; "Artifact"; "Land"].

Definition classify_type (line : option string) : string :=
  match find (fun k => holds_literally k line) type_priority with
  | Some k => k
  | None => "Other"
  end.

(** The same classification with the words looked for case aside, in the
    type line up to its first NUL byte. *)
Definition classify_type_folded (line : option string) : string :=
  match find (fun k => holds_folded k line) type_priority with
  | Some k => k
  | None => "Other"
  end.

(** A type line that holds each word of the list as it is written exactly
    when it holds it case aside and before its first NUL byte. *)
Definition reads_the_same (line : option string) : bool :=
  forallb (fun k => Bool.eqb (holds_folded k line) (holds_literally k line)) type_priority.

(** A store made by ingesting three records: a colorless artifact
    creature, a blue instant and a blue-black card without a type line. *)
Definition golem : pyval :=
  PDict [("id", PStr "g"); ("name", PStr "Golem");
         ("type_line", PStr "Artifact Creature — Golem"); ("color_identity", PList [])].

Definition store_three : tables :=
  db (snd (process_card_page (serve [])
             (PList [golem;
                     PDict [("id", PStr "u"); ("type_line", PStr "Instant");
                            ("color_identity", PList [PStr "U"])];
                     PDict [("id", PStr "ub");
                            ("color_identity", PList [PStr "U"; PStr "B"])]])
             true empty_world)).

(** A store of two cards whose type lines are not spelled as the catalog
    spells them: one in lower case, one with a NUL byte in it. *)
Definition nul : string := String Ascii.zero EmptyString.

Definition store_odd : tables :=
  db (snd (process_card_page (serve [])
             (PList [PDict [("id", PStr "t"); ("type_line", PStr "creature")];
                     PDict [("id", PStr "n");
                            ("type_line", PStr ("Land" ++ nul ++ "Creature"))]])
             true empty_world)).

(** The row the record [golem] becomes when it is the first record of the
    run (clock reading [t0]). *)
Definition golem_row : card_row :=
  {| id := Some "g"; name := Some "Golem"; oracle_text := Some "";
     mana_cost := Some ""; cmc := SReal 0%float;
     type_line := Some "Artifact Creature — Golem";
     power := Some ""; toughness := Some ""; loyalty := Some "";
     colors := Some "[]"; color_identity := Some "[]";
     set_code := Some ""; set_name := Some ""; rarity := Some "";
     artist := Some ""; released_at := Some ""; image_uri := None;
     scryfall_uri := Some ""; price_usd := SNull; price_eur := SNull;
     price_tix := SNull; last_updated := Some "t0" |}.

(** [d] is a stored [released_at] and no stored [released_at] comes after
    it in the order SQLite's [MAX] uses (bytewise). *)
Definition is_latest_release (d : string) (t : tables) : Prop :=
  In (Some d) (map released_at (cards t))
  /\ forall d', In (Some d') (map released_at (cards t)) -> String.ltb d d' = false.

(** The order [MAX] sees on cells: NULL is below everything. *)
Definition cell_le (a b : option string) : Prop :=
  match a, b with
  | None, _ => True
  | Some _, None => False
  | Some x, Some y => String.ltb y x = false
  end.

(** A store made by ingesting two records released on 2020-01-01 and on
    2023-05-05. *)
Definition store_two_dates : tables :=
  db (snd (process_card_page (serve [])
             (PList [PDict [("id", PStr "a"); ("released_at", PStr "2020-01-01")];
                     PDict [("id", PStr "b"); ("released_at", PStr "2023-05-05")]])
             true empty_world)).

(** [m] relates every world it starts in to the world it leaves, whether
    it returns or raises. *)
Definition preserves {A} (R : world -> world -> Prop) (m : M A) : Prop :=
  forall w, R w (snd (m w)).

(** No request was sent. *)
Definition same_requests (w w' : world) : Prop := requested w' = requested w.

(** Requests were only added. *)
Definition more_requests (w w' : world) : Prop :=
  exists rest, requested w' = (requested w ++ rest)%list.

(** The text a face carries itself: the string under its [oracle_text]. *)
Definition own_text (face : pyval) : option string :=
  match face with
  | PDict d => match assoc "oracle_text" d with
               | Some (PStr s) => Some s
               | _ => None
               end
  | _ => None
  end.

(** The texts of the faces that carry one, in face order. *)
Fixpoint own_texts (faces : list pyval) : list string :=
  match faces with
  | [] => []
  | face :: faces' =>
      match own_text face with
      | Some s => s :: own_texts faces'
      | None => own_texts faces'
      end
  end.

(** A face as the catalog documents it: an object whose [oracle_text],
    when it has one, is a string. *)
Definition face_shaped (face : pyval) : Prop :=
  exists d, face = PDict d
            /\ (assoc "oracle_text" d = None \/ exists s, assoc "oracle_text" d = Some (PStr s)).

(** What [card.get('oracle_text', '')] gives: the value under the key,
    the empty string when the key is missing. *)
Definition direct_text (d : list (string * pyval)) : pyval :=
  dict_get "oracle_text" (PStr "") d.

(** The record has no direct text: no [oracle_text] key, or the empty
    string under it. *)
Definition no_direct_text (d : list (string * pyval)) : Prop :=
  assoc "oracle_text" d = None \/ assoc "oracle_text" d = Some (PStr "").

(** A face that is an object; a face that is an object with something
    other than a string under [oracle_text]. *)
Definition object_shaped (face : pyval) : Prop := exists fd, face = PDict fd.

Definition odd_text (face : pyval) : Prop :=
  exists fd v, face = PDict fd /\ assoc "oracle_text" fd = Some v
               /\ forall s, v <> PStr s.

(** Records of the examples: a card with two faces and no text of its
    own; the same card with JSON [null] as its text; a card without faces
    whose [oracle_text] is [null]; a card one of whose faces has [null]
    as its text. *)
Definition two_faced : pyval :=
  PDict [("id", PStr "dfc"); ("name", PStr "Front // Back");
         ("card_faces", PList [PDict [("name", PStr "Front"); ("oracle_text", PStr "A")];
                               PDict [("name", PStr "Back"); ("oracle_text", PStr "B")]])].

Definition null_two_faced : pyval :=
  PDict [("id", PStr "dfc"); ("name", PStr "Front // Back"); ("oracle_text", PNone);
         ("card_faces", PList [PDict [("name", PStr "Front"); ("oracle_text", PStr "A")];
                               PDict [("name", PStr "Back"); ("oracle_text", PStr "B")]])].

Definition null_text : pyval :=
  PDict [("id", PStr "n"); ("name", PStr "Token"); ("oracle_text", PNone)].

Definition null_face : pyval :=
  PDict [("id", PStr "nf"); ("name", PStr "Front // Back");
         ("card_faces", PList [PDict [("name", PStr "Front"); ("oracle_text", PStr "A")];
                               PDict [("name", PStr "Back"); ("oracle_text", PNone)]])].

(** The [oracle_text] column after one page with the single record [card]
    has been ingested into an empty database. *)
Definition stored_oracle_texts (card : pyval) : list (option string) :=
  map oracle_text
      (cards (db (snd (process_card_page (serve []) (PList [card]) true empty_world)))).

(** The record has no direct normal-size image: no [image_uris] key, or an
    object under it that has no [normal] entry. *)
Definition no_direct_image (d : list (string * pyval)) : Prop :=
  assoc "image_uris" d = None
  \/ exists u, assoc "image_uris" d = Some (PDict u) /\ assoc "normal" u = None.

(** A record with a [card_faces] list that is empty, and no image of its
    own. *)
Definition no_faces_listed : pyval :=
  PDict [("id", PStr "e"); ("name", PStr "Empty"); ("card_faces", PList [])].

(** The world with other tables. *)
Definition with_db (w : world) (t : tables) : world :=
  {| db := t; committed := committed w; ticks := ticks w;
     requested := requested w; stdout := stdout w |}.

(** What a TEXT column holds after the Python value [v] is bound to it
    (NULL too when the value cannot be bound: no row is written then). *)
Definition text_cell (E : env) (v : pyval) : option string :=
  match bind_param v with
  | Ok x => text_affinity E x
  | Raise _ => None
  end.

(** The rows of [legalities] and of [keywords] that belong to a card. *)
Definition legality_of (k : option string) (l : legality) : bool := sql_eq (fst (fst l)) k.
Definition keyword_of (k : option string) (x : keyword_row) : bool := sql_eq (fst x) k.

(** The row a [(format, status)] item of the record becomes, and the row a
    keyword becomes. *)
Definition legality_row (E : env) (card_id : pyval) (item : string * pyval) : legality :=
  (text_cell E card_id, Some (fst item), text_cell E (snd item)).

Definition keyword_row_of (E : env) (card_id keyword : pyval) : keyword_row :=
  (text_cell E card_id, text_cell E keyword).

(** The legality items and the keywords a record brings: what the two
    loops of lines 283-297 walk. *)
Definition legalities_of (d : list (string * pyval)) : list (string * pyval) :=
  match assoc "legalities" d with
  | Some (PDict its) => its
  | _ => []
  end.

Definition keywords_of (d : list (string * pyval)) : list pyval :=
  match assoc "keywords" d with
  | Some v => if truthy v then match iter v with Ok l => l | Raise _ => [] end else []
  | None => []
  end.

(** The replace-not-merge example: the card "x" is ingested as legal in
    standard and modern, then upserted as legal in modern only. *)
Definition bolt_before : list (string * pyval) :=
  [("id", PStr "x"); ("name", PStr "Bolt");
   ("legalities", PDict [("standard", PStr "legal"); ("modern", PStr "legal")]);
   ("keywords", PList [PStr "Flash"])].

Definition bolt_after : list (string * pyval) :=
  [("id", PStr "x"); ("name", PStr "Bolt");
   ("legalities", PDict [("modern", PStr "legal")])].

Definition world_before : world :=
  snd (process_card_page (serve []) (PList [PDict bolt_before]) true empty_world).

(** Nothing was committed. *)
Definition same_committed (w w' : world) : Prop := committed w' = committed w.

(** A page of two records: the first has no [id], the second is sound. *)
Definition nameless : pyval := PDict [("name", PStr "Nameless")].
Definition sound : pyval := PDict [("id", PStr "ok"); ("name", PStr "Fine")].

(** The world a driver is in when it hands its first page to
    [process_card_page]: one request sent, some lines printed. *)
Definition at_first_page (w : world) (url : string) (lines : list msg) : world :=
  {| db := db w; committed := committed w; ticks := ticks w;
     requested := (requested w ++ [url])%list; stdout := (stdout w ++ lines)%list |}.

Definition with_line (w : world) (m : msg) : world :=
  {| db := db w; committed := committed w; ticks := ticks w;
     requested := requested w; stdout := (stdout w ++ [m])%list |}.

(** A record that SQLite refuses: the same keyword twice violates the
    primary key of [keywords]. *)
Definition twice_flying : pyval :=
  PDict [("id", PStr "f"); ("name", PStr "Bird");
         ("keywords", PList [PStr "Flying"; PStr "Flying"])].

(** The row without its ingestion time stamp. *)
Definition strip (r : card_row) : card_row :=
  {| id := id r; name := name r; oracle_text := oracle_text r;
     mana_cost := mana_cost r; cmc := cmc r; type_line := type_line r;
     power := power r; toughness := toughness r; loyalty := loyalty r;
     colors := colors r; color_identity := color_identity r;
     set_code := set_code r; set_name := set_name r; rarity := rarity r;
     artist := artist r; released_at := released_at r; image_uri := image_uri r;
     scryfall_uri := scryfall_uri r; price_usd := price_usd r;
     price_eur := price_eur r; price_tix := price_tix r;
     last_updated := None |}.

(** What lines 256-281 do to [cards] with the row [r] of a record: rewrite
    the rows that carry its id, or append it when there is none. *)
Definition upsert_row (r : card_row) (cs : list card_row) : list card_row :=
  if existsb (fun r' => sql_eq (id r') (id r)) cs
  then map (fun r' => if sql_eq (id r') (id r) then set_columns r r' else r') cs
  else cs ++ [r].

Definition upsert_rows (rs : list card_row) (cs : list card_row) : list card_row :=
  fold_left (fun acc r => upsert_row r acc) rs cs.

(** The constraints [create_tables] declares on the two dependent tables,
    on the tables a connection sees: their primary keys, and their foreign
    keys into [cards] for the rows with a card id. *)
Record store_ok (t : tables) : Prop := {
  legalities_key : NoDup (map fst (legalities t));
  keywords_key : NoDup (keywords t);
  legalities_ref : forall l s, In l (legalities t) -> fst (fst l) = Some s ->
                               In (Some s) (map id (cards t));
  keywords_ref : forall x s, In x (keywords t) -> fst x = Some s ->
                             In (Some s) (map id (cards t))
}.

(** A Python value that SQLite does not store as NULL. *)
Definition not_null (v : pyval) : Prop := bind_param v <> Ok SNull.

(** A record whose id is not stored as NULL and none of whose keywords
    is. *)
Definition keyed (card : pyval) : Prop :=
  (forall card_id, getitem card "id" = Ok card_id -> not_null card_id)
  /\ forall d kw, card = PDict d -> In kw (keywords_of d) -> not_null kw.

(** The pages an answer of the remote carries hold keyed records only. *)
Definition page_keyed (data : pyval) : Prop :=
  forall page cs c, getitem data "data" = Ok page -> iter page = Ok cs ->
                    In c cs -> keyed c.

Definition env_keyed (E : env) : Prop :=
  forall url status_code data,
    http_get E url = Response status_code (Ok data) -> page_keyed data.

(** Two stretches of two runs, [a] to [a'] and [b] to [b'], that upserted
    the same rows up to the time stamps, every one under an id. *)
Definition paired (a a' b b' : world) : Prop :=
  exists ras rbs,
    map strip ras = map strip rbs
    /\ Forall (fun r => is_some (id r) = true) ras
    /\ cards (db a') = upsert_rows ras (cards (db a))
    /\ cards (db b') = upsert_rows rbs (cards (db b)).

(** [m] behaves alike in two worlds whose stores are sound: same result,
    sound stores again, the same rows upserted. *)
Definition alike {A} (m : M A) : Prop :=
  forall a b, store_ok (db a) -> store_ok (db b) ->
    fst (m a) = fst (m b)
    /\ store_ok (db (snd (m a))) /\ store_ok (db (snd (m b)))
    /\ paired a (snd (m a)) b (snd (m b)).

(** What one upsert, and a run of them, makes of a row that is there. *)
Definition rewrite_row (r acc : card_row) : card_row :=
  if sql_eq (id acc) (id r) then set_columns r acc else acc.

Definition rewrite_rows (rs : list card_row) (x : card_row) : card_row :=
  fold_left (fun acc r => rewrite_row r acc) rs x.

(** What the loop of lines 285-289 does, seen from the rows the card has
    in [legalities] alone ([seen]): its result, and the rows it appends
    before it ends or raises. *)
Fixpoint legalities_run (E : env) (card_id : pyval) (its : list (string * pyval))
  (seen : list legality) : result unit * list legality :=
  match its with
  | [] => (Ok tt, [])
  | (f, status) :: its' =>
      match bind_param card_id, bind_param status with
      | Raise e, _ => (Raise e, [])
      | Ok _, Raise e => (Raise e, [])
      | Ok _, Ok _ =>
          if existsb (fun l => sql_eq (fst (fst l)) (text_cell E card_id)
                               && sql_eq (snd (fst l)) (Some f)) seen
          then (Raise IntegrityError, [])
          else
            let row := legality_row E card_id (f, status) in
            let (r, rows) := legalities_run E card_id its' (seen ++ [row]) in
            (r, row :: rows)
      end
  end.

(** The same for the loop of lines 293-297 and the rows the card has in
    [keywords]. *)
Fixpoint keywords_run (E : env) (card_id : pyval) (kws : list pyval)
  (seen : list keyword_row) : result unit * list keyword_row :=
  match kws with
  | [] => (Ok tt, [])
  | keyword :: kws' =>
      match bind_param card_id, bind_param keyword with
      | Raise e, _ => (Raise e, [])
      | Ok _, Raise e => (Raise e, [])
      | Ok _, Ok _ =>
          if existsb (fun x => sql_eq (fst x) (text_cell E card_id)
                               && sql_eq (snd x) (text_cell E keyword)) seen
          then (Raise IntegrityError, [])
          else
            let row := keyword_row_of E card_id keyword in
            let (r, rows) := keywords_run E card_id kws' (seen ++ [row]) in
            (r, row :: rows)
      end
  end.

(** The world with more rows at the end of [legalities], of [keywords]. *)
Definition add_legality_rows (w : world) (rows : list legality) : world :=
  with_db w {| cards := cards (db w);
               legalities := (legalities (db w) ++ rows)%list;
               keywords := keywords (db w) |}.

Definition add_keyword_rows (w : world) (rows : list keyword_row) : world :=
  with_db w {| cards := cards (db w);
               legalities := legalities (db w);
               keywords := (keywords (db w) ++ rows)%list |}.

(** What lines 283-289 and lines 291-297 do for a record when the card has
    no dependent rows left: the result, and the rows appended. *)
Definition legalities_outcome (E : env) (d : list (string * pyval)) (card_id : pyval)
  : result unit * list legality :=
  match assoc "legalities" d with
  | None => (Ok tt, [])
  | Some v => match items v with
              | Raise e => (Raise e, [])
              | Ok its => legalities_run E card_id its []
              end
  end.

Definition keywords_outcome (E : env) (d : list (string * pyval)) (card_id : pyval)
  : result unit * list keyword_row :=
  match assoc "keywords" d with
  | None => (Ok tt, [])
  | Some v =>
      if truthy v then
        match iter v with
        | Raise e => (Raise e, [])
        | Ok kws => keywords_run E card_id kws []
        end
      else (Ok tt, [])
  end.

(** The world after one more reading of the clock. *)
Definition tick (w : world) : world :=
  {| db := db w; committed := committed w; ticks := S (ticks w);
     requested := requested w; stdout := stdout w |}.

(** A catalog of one page for the examples: the card "x" twice, with a
    legality set that shrinks, and the golem in between. *)
Definition catalog : list pyval := [PDict bolt_before; golem; PDict bolt_after].

(** The two runs of the examples, from an empty database. *)
Definition first_run (records : list pyval) : result bool * world :=
  fetch_all_cards 3 (serve records) true empty_world.

Definition second_run (records : list pyval) : result bool * world :=
  fetch_all_cards 3 (serve records) true (snd (first_run records)).

(** ** Vocabulary of the further properties *)

(** The world [conn.commit()] leaves. *)
Definition committed_now (w : world) : world :=
  {| db := db w; committed := db w; ticks := ticks w;
     requested := requested w; stdout := stdout w |}.

(** The record has an id, and a row of [cards] carries it. *)
Definition stored (E : env) (t : tables) (card : pyval) : Prop :=
  exists card_id s,
    getitem card "id" = Ok card_id
    /\ text_cell E card_id = Some s
    /\ In (Some s) (map id (cards t)).

(** The world with one more request sent and more lines printed. *)
Definition and_then (w : world) (urls : list string) (lines : list msg) : world :=
  {| db := db w; committed := committed w; ticks := ticks w;
     requested := (requested w ++ urls)%list; stdout := (stdout w ++ lines)%list |}.

(** A remote of two pages: the listing holds [first] and points to a
    second page, which answers with the status [code] and no body. *)
Definition two_pages (first : list pyval) (code : Z) : env :=
  example_env (fun url =>
    if (url =? api_base_url ++ "/cards")%string then
      Response 200 (Ok (PDict [("data", PList first); ("has_more", PBool true);
                               ("next_page", PStr "page2");
                               ("total_cards", PInt 5)]))
    else Response code (Raise JSONDecodeError)).

(** The example of a run cut short: the listing holds the card "x", the
    second page answers 500. *)
Definition cut_short : env := two_pages [PDict bolt_before] 500.

Definition after_first_page : world :=
  snd (process_card_page cut_short (PList [PDict bolt_before]) true
         (at_first_page empty_world (api_base_url ++ "/cards")
            [StartingFetch; FoundTotal (PInt 5)])).

(** The ids of [cards] before and after: the rows that were there keep
    their place and their id, rows are only added at the end, and ids
    that were pairwise different (NULL aside) still are. *)
Definition ids_grow (cs cs' : list card_row) : Prop :=
  (exists extra, map id cs' = (map id cs ++ extra)%list)
  /\ (NoDup (filter is_some (map id cs)) -> NoDup (filter is_some (map id cs'))).

Definition cards_grow (w w' : world) : Prop := ids_grow (cards (db w)) (cards (db w')).

(** The WHERE clause of [search_cards]. *)
Definition matches_query (query : string) (r : card_row) : bool :=
  sql_like (name r) ("%" ++ query ++ "%")
  || sql_like (oracle_text r) ("%" ++ query ++ "%")
  || sql_like (type_line r) ("%" ++ query ++ "%").

(** The sum of the counts of a distribution. *)
Definition counts_total (d : list (string * Z)) : Z :=
  fold_right Z.add 0 (map snd d).

Definition color_groups : list string :=
  ["Colorless"; "White"; "Blue"; "Black"; "Red"; "Green"; "Multicolor"].

Definition type_groups : list string :=
  ["Creature"; "Planeswalker"; "Instant"; "Sorcery"; "Enchantment"; "Artifact";
   "Land"; "Other"].

(** A query that holds neither of the two pattern characters of [LIKE]
    nor a NUL byte. *)
Fixpoint plain (q : string) : bool :=
  match q with
  | EmptyString => true
  | String c q' =>
      negb (Ascii.eqb c "%") && negb (Ascii.eqb c "_") && negb (Ascii.eqb c Ascii.zero)
      && plain q'
  end.


(** A limit that fits the 64 bits of an SQLite INTEGER. *)
Definition fits_int64 (n : Z) : Prop := - 2 ^ 63 <= n < 2 ^ 63.

(** ** [get_card_details] *)

(** Two keys of a Python dict read from a TEXT column: [None] is a key of
    its own. *)
Definition same_key (a b : option string) : bool :=
  match a, b with
  | None, None => true
  | Some x, Some y => (x =? y)%string
  | _, _ => false
  end.

(** [d[k] = v]: a key that is there keeps its place and takes the value. *)
Fixpoint dict_store (k v : option string) (d : list (option string * option string))
  : list (option string * option string) :=
  match d with
  | [] => [(k, v)]
  | (k', v') :: d' =>
      if same_key k k' then (k', v) :: d' else (k', v') :: dict_store k v d'
  end.

(** What the dict [get_card_details] returns holds: the columns of the
    row, the two decoded color lists that replace the stored texts, the
    legalities as a dict from format to status, the keywords as a list. *)
Record card_details : Type := {
  details_row : card_row;
  details_colors : pyval;
  details_color_identity : pyval;
  details_legalities : list (option string * option string);
  details_keywords : list (option string)
}.

(** What a reader of the store relies on besides the tables: the library's
    [json.loads], and the order in which the engine hands out the rows of
    a SELECT that has no ORDER BY (table order or the order of an index,
    as the engine sees fit). *)
Record reader : Type := {
  json_loads : string -> result pyval;
  legalities_order : list legality -> list legality;
  keywords_order : list keyword_row -> list keyword_row
}.

(** [json.loads(cell)]: a NULL cell is [None], which is no JSON text. *)
Definition loads_cell (R : reader) (cell : option string) : result pyval :=
  match cell with
  | Some s => json_loads R s
  | None => Raise TypeError
  end.

(** [get_card_details(card_id)], lines 332-376. *)
Definition get_card_details (R : reader) (E : env) (t : tables) (card_id : pyval)
  : result (option card_details) :=
  k <- bind_param card_id ;;
  match find (fun r => sql_eq (id r) (text_affinity E k)) (cards t) with
  | None => Ok None
  | Some card_data =>
      colors_v <- loads_cell R (colors card_data) ;;
      identity_v <- loads_cell R (color_identity card_data) ;;
      let legs :=
        fold_left (fun d l => dict_store (snd (fst l)) (snd l) d)
                  (legalities_order R
                     (filter (fun l => sql_eq (fst (fst l)) (text_affinity E k))
                             (legalities t))) [] in
      let kws :=
        map snd (keywords_order R
                   (filter (fun x => sql_eq (fst x) (text_affinity E k)) (keywords t))) in
      Ok (Some {| details_row := card_data;
                  details_colors := colors_v;
                  details_color_identity := identity_v;
                  details_legalities := legs;
                  details_keywords := kws |})
  end.

(** A reader whose engine hands out the rows it has, each once. *)
Definition fair (R : reader) : Prop :=
  (forall l, Permutation (legalities_order R l) l)
  /\ (forall l, Permutation (keywords_order R l) l).

(** A reader for the examples: rows in table order, and a decoder that
    knows the empty list. *)
Definition example_reader : reader :=
  {| json_loads := fun s => if (s =? "[]")%string then Ok (PList []) else Raise JSONDecodeError;
     legalities_order := fun l => l;
     keywords_order := fun l => l |}.

(** The legalities dict and the keyword list a record is read back as. *)
Definition legalities_read (E : env) (d : list (string * pyval))
  : list (option string * option string) :=
  map (fun item => (Some (fst item), text_cell E (snd item))) (legalities_of d).

Definition keywords_read (E : env) (d : list (string * pyval)) : list (option string) :=
  map (text_cell E) (keywords_of d).

(** ** Vocabulary of the upsert of a card that is there *)

(** A value the [sqlite3] module can bind. *)
Definition bindable (v : pyval) : Prop := exists y, bind_param v = Ok y.

(** The record gets as far as the UPDATE of a card that is there, and
    through it: it normalises, its values can be bound, and its name is
    not stored as NULL. *)
Definition writable (E : env) (d : list (string * pyval)) (card_id : pyval) : Prop :=
  exists fields vals,
    normalize E (PDict d) card_id = Ok fields
    /\ bind_params fields = Ok vals
    /\ nth 1 vals SNull <> SNull.

(** The record's [legalities], when it has the key, is an object of
    pairwise different formats whose statuses can be bound. *)
Definition sound_legalities (d : list (string * pyval)) : Prop :=
  match assoc "legalities" d with
  | None => True
  | Some v =>
      exists its, v = PDict its /\ NoDup (map fst its)
                  /\ Forall (fun it => bindable (snd it)) its
  end.

(** The record's [keywords], when it has the key and something under it,
    can be walked and bound, and no two of them are stored as the same
    TEXT. *)
Definition sound_keywords (E : env) (d : list (string * pyval)) : Prop :=
  match assoc "keywords" d with
  | None => True
  | Some v =>
      truthy v = false
      \/ exists kws, iter v = Ok kws /\ Forall bindable kws
                     /\ NoDup (filter is_some (map (text_cell E) kws))
  end.

(** The card "x" upserted with one legality and one keyword; and with a
    keyword that comes twice. *)
Definition bolt_shrunk : list (string * pyval) :=
  [("id", PStr "x"); ("name", PStr "Bolt");
   ("legalities", PDict [("modern", PStr "legal")]);
   ("keywords", PList [PStr "Haste"])].

Definition bolt_repeated : list (string * pyval) :=
  [("id", PStr "x"); ("name", PStr "Bolt");
   ("legalities", PDict [("modern", PStr "legal")]);
   ("keywords", PList [PStr "Flying"; PStr "Flying"; PStr "Haste"])].

(** ** Vocabulary of the failures *)

Open Scope M_scope.

(** [update_database()] on a store whose watermark query (lines 130-132)
    can fail: [select] is that query.  With the query of the model, which
    cannot, this is [update_database]. *)
Definition update_database_on (select : tables -> result string) (fuel : nat) (E : env)
  : M bool :=
  date <~ query select ;;
  print (UpdatingSince date) ;;;
  let url := search_url date in
  try_except
    (response <~ requests_get E (PStr url) ;;
     if fst response =? 404 then print NoNewCards ;;; ret true
     else if negb (fst response =? 200) then
       print (ErrorFetchingUpdates (fst response)) ;;; ret true
     else
       data <~ lift (snd response) ;;
       total_new_cards <~ lift (get data "total_cards" (PInt 0)) ;;
       print (FoundNew total_new_cards) ;;;
       n <~ ingest_page E true ProcessedNew data total_new_cards 0 ;;
       finished <~ more_pages fuel E true ProcessedNew data total_new_cards n ;;
       if finished then print UpdateComplete ;;; ret true else ret false)
    (fun e => print (ErrorDuringUpdate e) ;;; ret true).

Close Scope M_scope.

(** The loop over the further pages, started after the page [data] in the
    world [w], comes to a page on which [process_card_page] raises [e] and
    leaves the world [w2]; it is the [k]-th page the loop fetches, the
    ones before it having been ingested. *)
Inductive page_fails (E : env) (update_existing : bool) (report : Z -> pyval -> msg)
  (total : pyval) : pyval -> Z -> world -> nat -> exn -> world -> Prop :=
| fails_next (data : pyval) (n : Z) (w : world) (flag url data' page : pyval)
    (w1 w2 : world) (e : exn) :
    get data "has_more" (PBool false) = Ok flag -> truthy flag = true ->
    getitem data "next_page" = Ok url ->
    requests_get E url w = (Ok (200, Ok data'), w1) ->
    getitem data' "data" = Ok page ->
    process_card_page E page update_existing w1 = (Raise e, w2) ->
    page_fails E update_existing report total data n w 1 e w2
| fails_later (data : pyval) (n : Z) (w : world) (flag url data' : pyval)
    (w1 w1' w2 : world) (n' : Z) (k : nat) (e : exn) :
    get data "has_more" (PBool false) = Ok flag -> truthy flag = true ->
    getitem data "next_page" = Ok url ->
    requests_get E url w = (Ok (200, Ok data'), w1) ->
    ingest_page E update_existing report data' total n w1 = (Ok n', w1') ->
    page_fails E update_existing report total data' n' w1' k e w2 ->
    page_fails E update_existing report total data n w (S k) e w2.

(** A remote of two pages for the examples: the listing and the search
    hold the record [sound] and point to a second page, which holds the
    record that repeats a keyword. *)
Definition second_page_fails : env :=
  example_env (fun url =>
    if (url =? "page2")%string then
      Response 200 (Ok (PDict [("data", PList [twice_flying]); ("has_more", PBool false)]))
    else
      Response 200 (Ok (PDict [("data", PList [sound]); ("has_more", PBool true);
                               ("next_page", PStr "page2");
                               ("total_cards", PInt 2)]))).

(** * Properties *)

Arguments search_url : simpl never.
Arguments row_of : simpl never.
Arguments last_update_date : simpl never.

(** ** Incremental sync: the 404 answer *)

(** C8.  Whatever the store holds, an incremental sync whose query is
    answered 404 returns normally; it prints the two lines "Updating..."
    and "No new cards...", reads no clock, processes no record (no progress
    line) and leaves both the connection's view and the committed tables
    exactly as they were. *)
Theorem update_database_404_leaves_store (fuel : nat) (E : env) (w : world)
  (json : result pyval)
  (H404 : http_get E (search_url (last_update_date (db w))) = Response 404 json) :
  update_database fuel E w =
    (Ok true,
     {| db := db w;
        committed := committed w;
        ticks := ticks w;
        requested := requested w ++ [search_url (last_update_date (db w))];
        stdout := stdout w ++ [UpdatingSince (last_update_date (db w)); NoNewCards] |}).
Proof.
  unfold update_database, bind, query, print, try_except, requests_get; cbn.
  rewrite H404; cbn.
  now rewrite <- app_assoc.
Qed.

Lemma update_database_404_leaves_store_witness :
  http_get (example_env (fun _ => Response 404 (Raise JSONDecodeError)))
           (search_url (last_update_date (db empty_world)))
    = Response 404 (Raise JSONDecodeError)
  /\ update_database 3 (example_env (fun _ => Response 404 (Raise JSONDecodeError)))
       empty_world
     = (Ok true,
        {| db := no_tables; committed := no_tables; ticks := O;
           requested := [search_url "2000-01-01"];
           stdout := [UpdatingSince "2000-01-01"; NoNewCards] |}).
Proof.
  split.
  - reflexivity.
  - apply (update_database_404_leaves_store 3
             (example_env (fun _ => Response 404 (Raise JSONDecodeError)))
             empty_world (Raise JSONDecodeError)).
    reflexivity.
Defined.

(** ** [search_cards] *)

Lemma in_firstn {A} (n : nat) (l : list A) (x : A) : In x (firstn n l) -> In x l.
Proof.
  revert l; induction n as [|n IH]; intros [|y l]; simpl; try tauto.
  intros [H|H]; [now left | right; now apply IH].
Qed.

(** When [search_cards] returns, it returns the rows that pass the WHERE
    clause, cut at the limit. *)
Lemma search_cards_ok (t : tables) (query : string) (limit : Z) (hits : list search_hit) :
  search_cards t query limit = Ok hits ->
  hits = map hit_of (sql_limit limit (filter (matches_query query) (cards t))).
Proof.
  unfold search_cards; cbn [bind_params bind_param rbind].
  destruct ((- 2 ^ 63 <=? limit) && (limit <? 2 ^ 63)); cbn [rbind]; [|discriminate].
  match goal with |- context [if ?c then _ else _] => destruct c end; [discriminate|].
  now intros [= <-].
Qed.

Lemma search_cards_hits (t : tables) (query : string) (limit : Z)
  (hits : list search_hit) (h : search_hit) :
  search_cards t query limit = Ok hits -> In h hits ->
  exists r, In r (cards t) /\ h = hit_of r /\
            (sql_like (name r) ("%" ++ query ++ "%")
             || sql_like (oracle_text r) ("%" ++ query ++ "%")
             || sql_like (type_line r) ("%" ++ query ++ "%")) = true.
Proof.
  intros Hok Hin; rewrite (search_cards_ok t query limit hits Hok) in Hin.
  unfold sql_limit in Hin.
  apply in_map_iff in Hin as [r [Hr Hin]].
  assert (Hf : In r (filter (matches_query query) (cards t))).
  { destruct (limit <? 0); [exact Hin | now apply in_firstn in Hin]. }
  apply filter_In in Hf as [Hc Hm].
  exists r; repeat split; [exact Hc | now symmetry | exact Hm].
Qed.

(** C10.  Every hit of [search_cards] is a row one of whose [name],
    [oracle_text], [type_line] matches the pattern [%query%] under SQL
    LIKE; and the characters of the query are pattern characters: in the
    store that holds the single card named "abc", the query "a%c" returns
    that card, although none of its three searched fields contains "a%c"
    as a literal substring. *)
Theorem search_cards_query_is_a_like_pattern :
  (forall t query limit hits h,
      search_cards t query limit = Ok hits -> In h hits ->
      exists r, In r (cards t) /\ h = hit_of r /\
                (sql_like (name r) ("%" ++ query ++ "%")
                 || sql_like (oracle_text r) ("%" ++ query ++ "%")
                 || sql_like (type_line r) ("%" ++ query ++ "%")) = true)
  /\ exists h,
      is_substring "%" "a%c" = true
      /\ search_cards store_abc "a%c" 20 = Ok [h]
      /\ hit_name h = Some "abc"
      /\ holds_literally "a%c" (hit_name h) = false
      /\ holds_literally "a%c" (hit_oracle_text h) = false
      /\ holds_literally "a%c" (hit_type_line h) = false.
Proof.
  split.
  - exact search_cards_hits.
  - eexists; repeat split; try (vm_compute; reflexivity); reflexivity.
Qed.

(** ** [LIKE] on a query without pattern characters *)

Lemma pattern_any_unfold (p t : string) :
  pattern_compare (String "%" p) t
  = pattern_compare p t || match t with
                           | EmptyString => false
                           | String _ t' => pattern_compare (String "%" p) t'
                           end.
Proof. destruct t; reflexivity. Qed.

Lemma pattern_plain_unfold (c : ascii) (p t : string) :
  Ascii.eqb c "%" = false -> Ascii.eqb c "_" = false ->
  pattern_compare (String c p) t
  = match t with
    | EmptyString => false
    | String d t' => like_char c d && pattern_compare p t'
    end.
Proof. intros H1 H2; simpl; rewrite H1, H2; reflexivity. Qed.

Lemma pattern_percent (t : string) : pattern_compare "%" t = true.
Proof.
  induction t as [|c t IH]; rewrite pattern_any_unfold; [reflexivity|].
  rewrite IH; apply orb_true_r.
Qed.

(** The folding of [LIKE] is the folding by the alphabet. *)
Lemma upper_fold (c : ascii) : upper c = fold_letter c.
Proof. destruct c as [[] [] [] [] [] [] [] []]; reflexivity. Qed.

Lemma like_char_fold (c d : ascii) :
  like_char c d = if ascii_dec (fold_letter c) (fold_letter d) then true else false.
Proof.
  unfold like_char; rewrite !upper_fold.
  destruct (ascii_dec (fold_letter c) (fold_letter d)) as [->|Hne].
  - apply Ascii.eqb_refl.
  - now apply Ascii.eqb_neq.
Qed.

Lemma plain_cons (c : ascii) (q : string) :
  plain (String c q) = true ->
  Ascii.eqb c "%" = false /\ Ascii.eqb c "_" = false /\ Ascii.eqb c Ascii.zero = false
  /\ plain q = true.
Proof.
  simpl; rewrite !andb_true_iff, !negb_true_iff; tauto.
Qed.

(** A plain query followed by [%] matches the texts it begins, case
    aside. *)
Lemma pattern_prefix (q t : string) :
  plain q = true ->
  pattern_compare (q ++ "%") t = prefix (fold_case q) (fold_case t).
Proof.
  revert t; induction q as [|c q IH]; intros t Hq.
  - destruct t; exact (pattern_percent _).
  - apply plain_cons in Hq as (H1 & H2 & _ & Hq).
    change (String c q ++ "%") with (String c (q ++ "%")).
    rewrite (pattern_plain_unfold c _ t H1 H2).
    destruct t as [|d t]; [reflexivity|].
    cbn [fold_case prefix]; rewrite like_char_fold.
    destruct (ascii_dec (fold_letter c) (fold_letter d)); [now apply IH | reflexivity].
Qed.

(** Between two [%] it matches the texts it occurs in. *)
Lemma pattern_contains (q t : string) :
  plain q = true ->
  pattern_compare ("%" ++ q ++ "%") t = occurs_in q t.
Proof.
  intros Hq; unfold occurs_in.
  change ("%" ++ q ++ "%") with (String "%" (q ++ "%")).
  induction t as [|d t IH]; rewrite pattern_any_unfold, (pattern_prefix q _ Hq).
  - simpl; now rewrite orb_false_r.
  - cbn [fold_case is_substring]; now rewrite IH.
Qed.

Lemma before_nul_plain (q p : string) :
  plain q = true -> before_nul (q ++ p) = q ++ before_nul p.
Proof.
  induction q as [|c q IH]; intros Hq; [reflexivity|].
  apply plain_cons in Hq as (_ & _ & H0 & Hq).
  simpl; now rewrite H0, IH.
Qed.

Lemma like_contains (q t : string) :
  plain q = true -> like ("%" ++ q ++ "%") t = occurs_in q (before_nul t).
Proof.
  intros Hq; unfold like.
  change ("%" ++ q ++ "%") with (String "%" (q ++ "%")).
  cbn [before_nul]; change (Ascii.eqb "%" Ascii.zero) with false; cbv iota.
  rewrite (before_nul_plain q "%" Hq).
  exact (pattern_contains q (before_nul t) Hq).
Qed.



(** ** [get_stats] *)

Section GroupCounts.

Variable f : card_row -> string.

Lemma groups_of_In (rows : list card_row) (r : card_row) :
  In r rows -> In (f r) (groups_of f rows).
Proof.
  induction rows as [|r' rows IH]; simpl; [tauto|].
  intros [->|Hin]; [now left|].
  destruct (String.eqb_spec (f r) (f r')) as [Heq|Hne]; [left; now symmetry|].
  right; apply filter_In; split; [now apply IH|].
  now apply negb_true_iff, String.eqb_neq.
Qed.

Lemma groups_of_NoDup (rows : list card_row) : NoDup (groups_of f rows).
Proof.
  induction rows as [|r rows IH]; simpl; constructor.
  - intros Hin; apply filter_In in Hin as [_ Hne].
    now rewrite String.eqb_refl in Hne.
  - now apply NoDup_filter.
Qed.

Lemma insert_desc_perm (x : string * Z) (l : list (string * Z)) :
  Permutation (x :: l) (insert_desc x l).
Proof.
  induction l as [|y l IH]; simpl; [reflexivity|].
  destruct (snd y <? snd x); [reflexivity|].
  rewrite perm_swap; now constructor.
Qed.

Lemma order_by_count_desc_perm (l : list (string * Z)) :
  Permutation l (order_by_count_desc l).
Proof.
  induction l as [|x l IH]; simpl; [reflexivity|].
  rewrite <- insert_desc_perm; now constructor.
Qed.

Lemma lookup_unique (d : list (string * Z)) (k : string) (v : Z) :
  NoDup (map fst d) -> In (k, v) d -> lookup k d = Some v.
Proof.
  induction d as [|[k' v'] d IH]; simpl; [tauto|].
  intros Hnd [Heq|Hin].
  - injection Heq as -> ->; now rewrite String.eqb_refl.
  - inversion Hnd as [|? ? Hnotin Hnd']; subst.
    destruct (String.eqb_spec k k') as [->|_]; [|now apply IH].
    exfalso; apply Hnotin; change k' with (fst (k', v)); now apply in_map.
Qed.

(** The dict [get_stats] builds has, under the group of a stored row, the
    number of stored rows of that group. *)
Lemma group_counts_lookup (rows : list card_row) (r : card_row) :
  In r rows ->
  lookup (f r) (group_counts f rows) = Some (count_group f rows (f r))
  /\ 0 < count_group f rows (f r).
Proof.
  intros Hin; split.
  - apply lookup_unique.
    + unfold group_counts.
      eapply Permutation_NoDup;
        [apply Permutation_map, order_by_count_desc_perm|].
      rewrite map_map; simpl; rewrite map_id; apply groups_of_NoDup.
    + unfold group_counts.
      eapply Permutation_in; [apply order_by_count_desc_perm|].
      apply in_map_iff; exists (f r); split; [reflexivity|now apply groups_of_In].
  - unfold count_group.
    assert (Hf : In r (filter (fun r' => (f r' =? f r)%string) rows))
      by (apply filter_In; split; [assumption|apply String.eqb_refl]).
    destruct (filter (fun r' => (f r' =? f r)%string) rows); [contradiction|simpl; lia].
Qed.

End GroupCounts.

Lemma color_group_classifies (r : card_row) :
  color_group r = classify_color (color_identity r).
Proof.
  unfold color_group, classify_color, sql_eq.
  destruct (color_identity r) as [e|]; [|reflexivity].
  simpl.
  repeat match goal with
         | |- context [(e =? ?s)%string] => destruct (e =? s)%string; [reflexivity|]
         end.
  reflexivity.
Qed.

Lemma sql_like_word (k : string) (line : option string) :
  plain k = true -> sql_like line ("%" ++ k ++ "%") = holds_folded k line.
Proof.
  intros Hk; destruct line as [s|]; [|reflexivity].
  exact (like_contains k s Hk).
Qed.

(** The second CASE, without [LIKE]: the first word of the list that the
    type line holds, case aside and before its first NUL. *)
Lemma type_group_folded (r : card_row) :
  type_group r = classify_type_folded (type_line r).
Proof.
  unfold type_group, classify_type_folded, type_priority; cbn [find].
  rewrite <- !sql_like_word by reflexivity.
  cbn [append].
  repeat match goal with
         | |- context [sql_like (type_line r) ?p] =>
             destruct (sql_like (type_line r) p); [reflexivity|]
         end.
  reflexivity.
Qed.

Lemma classify_type_same (line : option string) :
  reads_the_same line = true -> classify_type_folded line = classify_type line.
Proof.
  unfold reads_the_same, type_priority; cbn [forallb].
  rewrite !andb_true_iff.
  intros (H1 & H2 & H3 & H4 & H5 & H6 & H7 & _).
  apply eqb_prop in H1, H2, H3, H4, H5, H6, H7.
  unfold classify_type_folded, classify_type, type_priority; cbn [find].
  now rewrite H1, H2, H3, H4, H5, H6, H7.
Qed.

(** C9, as the code has it.  For every stored row, [get_stats] puts the
    row in the color group that the exact comparison of its encoded
    color-identity gives (the empty list is Colorless, a one-color list of
    W, U, B, R, G is that color, anything else is Multicolor), and in the
    type group of the first word of the priority list Creature,
    Planeswalker, Instant, Sorcery, Enchantment, Artifact, Land that
    occurs in its type line, Other when none does; a word occurs when the
    line holds it up to the case of the ASCII letters, before the line's
    first NUL byte.  On a line that holds each word in this way exactly
    when it holds it as written, this is the classification by literal
    substrings.  The two dicts of the result count the row under these
    groups.  So the encodings of [], ["U"] and ["U", "B"] fall under
    Colorless, Blue and Multicolor, and the type line "Artifact Creature —
    Golem" under Creature. *)
Theorem get_stats_groups (t : tables) (r : card_row) (Hin : In r (cards t)) :
  color_group r = classify_color (color_identity r)
  /\ type_group r = classify_type_folded (type_line r)
  /\ (reads_the_same (type_line r) = true -> type_group r = classify_type (type_line r))
  /\ lookup (classify_color (color_identity r)) (stats_colors (get_stats t))
     = Some (count_group color_group (cards t) (color_group r))
  /\ 0 < count_group color_group (cards t) (color_group r)
  /\ lookup (classify_type_folded (type_line r)) (stats_types (get_stats t))
     = Some (count_group type_group (cards t) (type_group r))
  /\ 0 < count_group type_group (cards t) (type_group r)
  /\ classify_color (Some (dumps_plain (PList []))) = "Colorless"
  /\ classify_color (Some (dumps_plain (PList [PStr "U"]))) = "Blue"
  /\ classify_color (Some (dumps_plain (PList [PStr "U"; PStr "B"]))) = "Multicolor"
  /\ reads_the_same (Some "Artifact Creature — Golem") = true
  /\ classify_type (Some "Artifact Creature — Golem") = "Creature".
Proof.
  rewrite <- color_group_classifies, <- type_group_folded.
  destruct (group_counts_lookup color_group (cards t) r Hin) as [Hc Hc'].
  destruct (group_counts_lookup type_group (cards t) r Hin) as [Ht Ht'].
  split; [reflexivity|].
  split; [reflexivity|].
  split.
  { intros Hsame; rewrite type_group_folded; now apply classify_type_same. }
  repeat split; try assumption; reflexivity.
Qed.

Lemma get_stats_groups_witness :
  In golem_row (cards store_three)
  /\ type_group golem_row = classify_type_folded (type_line golem_row)
  /\ type_group golem_row = classify_type (type_line golem_row)
  /\ lookup (classify_type_folded (type_line golem_row)) (stats_types (get_stats store_three))
     = Some (count_group type_group (cards store_three) (type_group golem_row)).
Proof.
  assert (Hin : In golem_row (cards store_three)) by (vm_compute; left; reflexivity).
  destruct (get_stats_groups store_three golem_row Hin)
    as (_ & Ht & Hsame & _ & _ & Hlt & _).
  split; [exact Hin | split; [exact Ht | split; [apply Hsame; reflexivity | exact Hlt]]].
Defined.

(** C9 read with literal substrings fails on type lines that are not
    spelled as the catalog spells them: [LIKE] takes "creature" for
    Creature, and reads "Land", a NUL byte, "Creature" as Land, where the
    literal substrings give Other and Creature. *)
Lemma type_group_is_not_literal :
  map type_line (cards store_odd) = [Some "creature"; Some ("Land" ++ nul ++ "Creature")]
  /\ map type_group (cards store_odd) = ["Creature"; "Land"]
  /\ map (fun r => classify_type (type_line r)) (cards store_odd) = ["Other"; "Creature"]
  /\ lookup "Creature" (stats_types (get_stats store_odd)) = Some 1
  /\ lookup "Land" (stats_types (get_stats store_odd)) = Some 1
  /\ lookup "Other" (stats_types (get_stats store_odd)) = None.
Proof.
  repeat split; vm_compute; reflexivity.
Qed.

(** ** The watermark of the incremental sync *)

Lemma ltb_irrefl (x : string) : String.ltb x x = false.
Proof.
  unfold String.ltb.
  pose proof (String.compare_antisym x x) as H.
  destruct (String.compare x x); simpl in H; congruence.
Qed.

Lemma ltb_asym (x y : string) : String.ltb x y = true -> String.ltb y x = false.
Proof.
  unfold String.ltb; rewrite (String.compare_antisym x y).
  destruct (String.compare y x); simpl; congruence.
Qed.

Lemma ltb_trans (x y z : string) :
  String.ltb x y = true -> String.ltb y z = true -> String.ltb x z = true.
Proof.
  unfold String.ltb; intros Hxy Hyz.
  assert (Hlt : String_as_OT.lt x z).
  { apply String_as_OT.lt_trans with y; apply String_as_OT.cmp_lt;
      unfold String_as_OT.cmp.
    - destruct (String.compare x y); congruence.
    - destruct (String.compare y z); congruence. }
  apply String_as_OT.cmp_lt in Hlt; unfold String_as_OT.cmp in Hlt; now rewrite Hlt.
Qed.

Lemma ltb_total (x y : string) :
  String.ltb x y = false -> String.ltb y x = false -> x = y.
Proof.
  unfold String.ltb; rewrite (String.compare_antisym x y).
  destruct (String.compare y x) eqn:Hc; simpl; try congruence.
  intros _ _; symmetry; now apply String.compare_eq_iff.
Qed.

Lemma cell_le_refl (a : option string) : cell_le a a.
Proof. destruct a; simpl; [apply ltb_irrefl | exact I]. Qed.

Lemma cell_le_trans (a b c : option string) : cell_le a b -> cell_le b c -> cell_le a c.
Proof.
  destruct a as [x|], b as [y|], c as [z|]; simpl; try tauto.
  intros Hyx Hzy.
  destruct (String.ltb z x) eqn:Hzx; [|reflexivity].
  destruct (String.ltb x y) eqn:Hxy.
  - rewrite (ltb_trans z x y Hzx Hxy) in Hzy; discriminate.
  - rewrite (ltb_total x y Hxy Hyx) in Hzx; congruence.
Qed.

Lemma sql_max_bounds (a b : option string) :
  cell_le a (sql_max a b) /\ cell_le b (sql_max a b)
  /\ (sql_max a b = a \/ sql_max a b = b).
Proof.
  destruct a as [x|], b as [y|]; simpl;
    try (repeat split; auto using ltb_irrefl; fail).
  destruct (String.ltb x y) eqn:Hxy; simpl;
    repeat split; auto using ltb_irrefl, ltb_asym.
Qed.

(** [MAX] over a column: the result bounds every cell and is one of them
    (or the start value). *)
Lemma fold_sql_max (l : list (option string)) (acc : option string) :
  let m := fold_left sql_max l acc in
  cell_le acc m /\ (forall c, In c l -> cell_le c m) /\ (m = acc \/ In m l).
Proof.
  revert acc; induction l as [|c l IH]; intros acc; simpl.
  - split; [apply cell_le_refl | split; [tauto | now left]].
  - destruct (IH (sql_max acc c)) as (Hacc & Hall & Hin).
    destruct (sql_max_bounds acc c) as (Ha & Hc & Hor).
    split; [eapply cell_le_trans; eassumption|].
    split.
    + intros c' [<-|Hc']; [eapply cell_le_trans; eassumption | now apply Hall].
    + destruct Hin as [Hin|Hin]; [|now right; right].
      rewrite Hin; destruct Hor as [->| ->]; [now left | now right; left].
Qed.

(** *** What a computation does to one component of the world *)

Section Preserves.

Variable R : world -> world -> Prop.
Hypothesis R_refl : forall w, R w w.
Hypothesis R_trans : forall a b c, R a b -> R b c -> R a c.

Lemma preserves_ret {A} (a : A) : preserves R (ret a).
Proof. intros w; apply R_refl. Qed.

Lemma preserves_raise {A} (e : exn) : preserves R (@raise A e).
Proof. intros w; apply R_refl. Qed.

Lemma preserves_lift {A} (r : result A) : preserves R (lift r).
Proof. intros w; apply R_refl. Qed.

Lemma preserves_query {A} (q : tables -> result A) : preserves R (query q).
Proof. intros w; apply R_refl. Qed.

Lemma preserves_bind {A B} (m : M A) (k : A -> M B) :
  preserves R m -> (forall a, preserves R (k a)) -> preserves R (bind m k).
Proof.
  intros Hm Hk w; unfold bind.
  specialize (Hm w); destruct (m w) as [[a|e] w1]; simpl in *; [|assumption].
  eapply R_trans; [eassumption | apply Hk].
Qed.

Lemma preserves_try_except {A} (body : M A) (handler : exn -> M A) :
  preserves R body -> (forall e, preserves R (handler e)) ->
  preserves R (try_except body handler).
Proof.
  intros Hm Hk w; unfold try_except.
  specialize (Hm w); destruct (body w) as [[a|e] w1]; simpl in *; [assumption|].
  eapply R_trans; [eassumption | apply Hk].
Qed.

Lemma preserves_if {A} (b : bool) (m1 m2 : M A) :
  preserves R m1 -> preserves R m2 -> preserves R (if b then m1 else m2).
Proof. now destruct b. Qed.

End Preserves.

Ltac preserves_step :=
  first
    [ apply preserves_ret; assumption
    | apply preserves_raise; assumption
    | apply preserves_lift; assumption
    | apply preserves_query; assumption
    | apply preserves_bind; [assumption | | intros ?]
    | apply preserves_try_except; [assumption | | intros ?]
    | apply preserves_if; [ | ] ].

Section PreservesRequests.

Variable R : world -> world -> Prop.
Hypothesis R_refl : forall w, R w w.
Hypothesis R_trans : forall a b c, R a b -> R b c -> R a c.
Hypothesis R_quiet :
  forall w w', requested w' = requested w -> committed w' = committed w -> R w w'.
Hypothesis R_commit :
  forall w, R w {| db := db w; committed := db w; ticks := ticks w;
                   requested := requested w; stdout := stdout w |}.

Lemma preserves_execute (q : tables -> result tables) : preserves R (execute q).
Proof. intros w; unfold execute; destruct (q (db w)); now apply R_quiet. Qed.

Lemma preserves_commit : preserves R commit.
Proof. intros w; apply R_commit. Qed.

Lemma preserves_datetime_now (E : env) : preserves R (datetime_now E).
Proof. intros w; now apply R_quiet. Qed.

Lemma preserves_print (m : msg) : preserves R (print m).
Proof. intros w; now apply R_quiet. Qed.

Ltac quiet_step :=
  first
    [ apply preserves_execute
    | apply preserves_commit
    | apply preserves_datetime_now
    | apply preserves_print
    | preserves_step ].

Lemma preserves_insert_legalities (E : env) (card_id : pyval) (its : list (string * pyval)) :
  preserves R (insert_legalities E card_id its).
Proof.
  induction its as [|[f s] its IH]; simpl; repeat quiet_step; exact IH.
Qed.

Lemma preserves_insert_keywords (E : env) (card_id : pyval) (kws : list pyval) :
  preserves R (insert_keywords E card_id kws).
Proof.
  induction kws as [|k kws IH]; simpl; repeat quiet_step; exact IH.
Qed.

Lemma preserves_process_card (E : env) (update_existing : bool) (card : pyval) :
  preserves R (process_card E update_existing card).
Proof.
  unfold process_card, write_card, add_legalities, add_keywords.
  repeat first [ apply preserves_insert_legalities
               | apply preserves_insert_keywords
               | quiet_step ].
Qed.

Lemma preserves_process_cards (E : env) (update_existing : bool) (cs : list pyval) :
  preserves R (process_cards E update_existing cs).
Proof.
  induction cs as [|c cs IH]; simpl; [quiet_step|].
  apply preserves_bind; [assumption | apply preserves_process_card | intros _; exact IH].
Qed.

Lemma preserves_process_card_page (E : env) (cards : pyval) (update_existing : bool) :
  preserves R (process_card_page E cards update_existing).
Proof.
  unfold process_card_page.
  apply preserves_bind; [assumption | quiet_step | intros cs].
  apply preserves_bind;
    [assumption | apply preserves_process_cards | intros _; quiet_step].
Qed.

End PreservesRequests.

Lemma more_requests_refl (w : world) : more_requests w w.
Proof. exists []; now rewrite app_nil_r. Qed.

Lemma more_requests_trans (a b c : world) :
  more_requests a b -> more_requests b c -> more_requests a c.
Proof.
  intros [r1 H1] [r2 H2]; exists (r1 ++ r2)%list.
  now rewrite H2, H1, app_assoc.
Qed.

Lemma more_requests_quiet (w w' : world) :
  requested w' = requested w -> more_requests w w'.
Proof. intros H; exists []; now rewrite app_nil_r. Qed.

Lemma more_requests_quiet2 (w w' : world) :
  requested w' = requested w -> committed w' = committed w -> more_requests w w'.
Proof. intros H _; now apply more_requests_quiet. Qed.

Lemma more_requests_commit (w : world) :
  more_requests w {| db := db w; committed := db w; ticks := ticks w;
                     requested := requested w; stdout := stdout w |}.
Proof. now apply more_requests_quiet. Qed.

Lemma more_requests_get (E : env) (url : pyval) :
  preserves more_requests (requests_get E url).
Proof.
  intros w; destruct url; simpl; try apply more_requests_refl.
  destruct (http_get E s); simpl; now eexists.
Qed.

Lemma more_requests_ingest_page (E : env) (update_existing : bool)
  (report : Z -> pyval -> msg) (data total : pyval) (n : Z) :
  preserves more_requests (ingest_page E update_existing report data total n).
Proof.
  unfold ingest_page.
  apply preserves_bind; [exact more_requests_trans | apply preserves_lift, more_requests_refl | intros page].
  apply preserves_bind; [exact more_requests_trans | | intros _].
  { apply preserves_process_card_page; first [exact more_requests_refl | exact more_requests_trans | exact more_requests_quiet2
                | exact more_requests_commit]. }
  apply preserves_bind; [exact more_requests_trans | apply preserves_lift, more_requests_refl | intros k].
  apply preserves_bind; [exact more_requests_trans | | intros _].
  { apply preserves_print; first [exact more_requests_refl | exact more_requests_trans | exact more_requests_quiet2
                | exact more_requests_commit]. }
  apply preserves_ret, more_requests_refl.
Qed.

Lemma more_requests_more_pages (fuel : nat) (E : env) (update_existing : bool)
  (report : Z -> pyval -> msg) (data total : pyval) (n : Z) :
  preserves more_requests (more_pages fuel E update_existing report data total n).
Proof.
  revert data n; induction fuel as [|fuel IH]; intros data n; simpl.
  - apply preserves_bind; [exact more_requests_trans | apply preserves_lift, more_requests_refl | intros h].
    apply preserves_if; apply preserves_ret, more_requests_refl.
  - apply preserves_bind; [exact more_requests_trans | apply preserves_lift, more_requests_refl | intros h].
    apply preserves_if; [|apply preserves_ret, more_requests_refl].
    apply preserves_bind; [exact more_requests_trans | apply preserves_lift, more_requests_refl | intros u].
    apply preserves_bind; [exact more_requests_trans | apply more_requests_get | intros r].
    apply preserves_if.
    + apply preserves_bind; [exact more_requests_trans | | intros _; apply preserves_ret, more_requests_refl].
      apply preserves_print; first [exact more_requests_refl | exact more_requests_trans | exact more_requests_quiet2
                | exact more_requests_commit].
    + apply preserves_bind; [exact more_requests_trans | apply preserves_lift, more_requests_refl | intros d].
      apply preserves_bind;
        [exact more_requests_trans | apply more_requests_ingest_page | intros k; apply IH].
Qed.

Lemma first_request {A} (E : env) (u : string) (k : Z * result pyval -> M A)
  (h : exn -> M A) (w : world) :
  (forall a, preserves more_requests (k a)) ->
  (forall e, preserves more_requests (h e)) ->
  exists rest,
    requested (snd (try_except (bind (requests_get E (PStr u)) k) h w))
    = (requested w ++ u :: rest)%list.
Proof.
  intros Hk Hh.
  pose (w1 := {| db := db w; committed := committed w; ticks := ticks w;
                 requested := (requested w ++ [u])%list; stdout := stdout w |}).
  assert (Hstep : more_requests w1
                    (snd (try_except (bind (requests_get E (PStr u)) k) h w))).
  { unfold try_except, bind, requests_get; fold w1.
    destruct (http_get E u) as [|code json].
    - apply Hh.
    - pose proof (Hk (code, json) w1) as Hk1.
      destruct (k (code, json) w1) as [[a|e] w2]; simpl in *; [exact Hk1|].
      eapply more_requests_trans; [exact Hk1 | apply Hh]. }
  destruct Hstep as [rest Hrest]; exists rest.
  rewrite Hrest; simpl; now rewrite <- app_assoc.
Qed.

Lemma update_database_first_request (fuel : nat) (E : env) (w : world) :
  exists rest,
    requested (snd (update_database fuel E w))
    = (requested w ++ search_url (last_update_date (db w)) :: rest)%list.
Proof.
  unfold update_database.
  unfold bind at 1, query at 1; unfold bind at 1, print at 1.
  match goal with
  | |- context [try_except _ _ ?w1] =>
      change (requested w) with (requested w1)
  end.
  apply first_request.
  - intros r.
    apply preserves_if.
    { apply preserves_bind; [exact more_requests_trans | | intros _].
      - apply preserves_print;
          first [exact more_requests_refl | exact more_requests_trans
                | exact more_requests_quiet2
                | exact more_requests_commit].
      - apply preserves_ret, more_requests_refl. }
    apply preserves_if.
    { apply preserves_bind; [exact more_requests_trans | | intros _].
      - apply preserves_print;
          first [exact more_requests_refl | exact more_requests_trans
                | exact more_requests_quiet2
                | exact more_requests_commit].
      - apply preserves_ret, more_requests_refl. }
    apply preserves_bind;
      [exact more_requests_trans | apply preserves_lift, more_requests_refl | intros d].
    apply preserves_bind;
      [exact more_requests_trans | apply preserves_lift, more_requests_refl | intros tot].
    apply preserves_bind; [exact more_requests_trans | | intros _].
    { apply preserves_print;
        first [exact more_requests_refl | exact more_requests_trans
              | exact more_requests_quiet2
                | exact more_requests_commit]. }
    apply preserves_bind;
      [exact more_requests_trans | apply more_requests_ingest_page | intros n].
    apply preserves_bind;
      [exact more_requests_trans | apply more_requests_more_pages | intros fin].
    apply preserves_if; [|apply preserves_ret, more_requests_refl].
    apply preserves_bind; [exact more_requests_trans | | intros _].
    + apply preserves_print;
        first [exact more_requests_refl | exact more_requests_trans
              | exact more_requests_quiet2
                | exact more_requests_commit].
    + apply preserves_ret, more_requests_refl.
  - intros e.
    apply preserves_bind; [exact more_requests_trans | | intros _].
    + apply preserves_print;
        first [exact more_requests_refl | exact more_requests_trans
              | exact more_requests_quiet2
                | exact more_requests_commit].
    + apply preserves_ret, more_requests_refl.
Qed.

Lemma last_update_date_latest (t : tables) :
  (exists d', In (Some d') (map released_at (cards t)) /\ d' <> "") ->
  is_latest_release (last_update_date t) t.
Proof.
  intros (d' & Hin & Hne).
  unfold last_update_date, max_released_at, is_latest_release.
  destruct (fold_sql_max (map released_at (cards t)) None) as (_ & Hall & Hor).
  simpl in Hall, Hor.
  pose proof (Hall _ Hin) as Hd'.
  destruct (fold_left sql_max (map released_at (cards t)) None) as [x|];
    [|contradiction].
  destruct Hor as [Hor|Hor]; [discriminate|].
  simpl in Hd'.
  destruct (String.eqb_spec x "") as [->|Hx]; simpl.
  - destruct d'; [congruence | discriminate].
  - split; [exact Hor | intros d'' Hd''; exact (Hall _ Hd'')].
Qed.

Lemma last_update_date_sentinel (t : tables) :
  (forall d', In (Some d') (map released_at (cards t)) -> d' = "") ->
  last_update_date t = "2000-01-01".
Proof.
  intros Hall.
  unfold last_update_date, max_released_at.
  destruct (fold_sql_max (map released_at (cards t)) None) as (_ & _ & Hor).
  simpl in Hor.
  destruct (fold_left sql_max (map released_at (cards t)) None) as [x|];
    [|reflexivity].
  destruct Hor as [Hor|Hor]; [discriminate|].
  now rewrite (Hall x Hor).
Qed.

(** C7, as the code has it.  The incremental sync first requests the
    search URL whose date bound is [last_update_date]; that bound is the
    greatest stored [released_at] whenever some stored [released_at] is a
    non-empty text, and the sentinel 2000-01-01 when every stored
    [released_at] is NULL or empty, in particular when the store is empty.
    For stored values 2020-01-01 and 2023-05-05 the bound is 2023-05-05. *)
Theorem update_database_watermark (fuel : nat) (E : env) (w : world) :
  (exists rest,
      requested (snd (update_database fuel E w))
      = (requested w ++ search_url (last_update_date (db w)) :: rest)%list)
  /\ ((exists d', In (Some d') (map released_at (cards (db w))) /\ d' <> "") ->
      is_latest_release (last_update_date (db w)) (db w))
  /\ ((forall d', In (Some d') (map released_at (cards (db w))) -> d' = "") ->
      last_update_date (db w) = "2000-01-01")
  /\ last_update_date store_two_dates = "2023-05-05"
  /\ last_update_date no_tables = "2000-01-01".
Proof.
  split; [apply update_database_first_request|].
  split; [apply last_update_date_latest|].
  split; [apply last_update_date_sentinel|].
  split; reflexivity.
Qed.

(** C7 as it is worded fails on a store whose only card has no release
    date: the record [{"id": "c1", "name": "abc"}] is stored with the
    empty text as [released_at]; the store is not empty, and the bound is
    the sentinel, which is no stored [released_at] at all. *)
Lemma watermark_is_not_always_the_maximum :
  cards store_abc <> []
  /\ map released_at (cards store_abc) = [Some ""]
  /\ last_update_date store_abc = "2000-01-01"
  /\ ~ is_latest_release (last_update_date store_abc) store_abc.
Proof.
  split; [discriminate|].
  split; [reflexivity|].
  split; [reflexivity|].
  intros [Hin _]; vm_compute in Hin.
  destruct Hin as [Hin|[]]; discriminate.
Qed.

(** ** Normalisation: the oracle text *)

Lemma strs_of_strings (l : list string) : strs (map PStr l) = Ok l.
Proof. induction l as [|s l IH]; simpl; [reflexivity | now rewrite IH]. Qed.

Lemma faces_text_own_texts (faces : list pyval) :
  Forall face_shaped faces -> faces_text faces = Ok (map PStr (own_texts faces)).
Proof.
  induction 1 as [|face faces (d & -> & Hd) _ IH]; simpl; [reflexivity|].
  unfold has_key.
  destruct Hd as [Hd|[s Hd]]; rewrite Hd; simpl; rewrite IH; reflexivity.
Qed.

Lemma faces_text_odd (faces : list pyval) :
  Forall object_shaped faces -> Exists odd_text faces ->
  (texts <- faces_text faces ;; join " // " texts) = Raise TypeError.
Proof.
  intros Hobj Hodd; unfold join.
  induction Hobj as [|face faces [fd ->] Hobj IH]; [inversion Hodd|].
  assert (Htail : exists ts, faces_text faces = Ok ts).
  { clear IH Hodd; induction Hobj as [|f fs [fd' ->] _ IH']; simpl; [now eexists|].
    destruct IH' as [ts ->]; unfold has_key.
    destruct (assoc "oracle_text" fd'); simpl; eauto. }
  destruct Htail as [ts Hts].
  simpl; unfold has_key.
  inversion Hodd as [? ? (fd' & v & Heq & Hv & Hns) | ? ? Hrest]; subst.
  - injection Heq as <-; rewrite Hv; simpl; rewrite Hts; simpl.
    destruct v; try reflexivity; now elim (Hns s).
  - specialize (IH Hrest); rewrite Hts in IH; simpl in IH.
    destruct (assoc "oracle_text" fd) as [v|]; simpl; rewrite Hts; simpl; [|exact IH].
    destruct v; try reflexivity; simpl.
    destruct (strs ts); [discriminate | exact IH].
Qed.

(** C5, as the code has it.  A direct text that is not empty is kept as
    it is.  A record whose direct text is missing, empty or [null] and
    that has a list of faces gets the texts of the faces that carry one,
    in face order, joined with " // "; when a face carries something
    other than a string there, the join raises.  A record without
    [card_faces] keeps its direct text as it is: the empty string when the
    key is missing or holds the empty string, but [null] when it holds
    [null].  The two-faced record with texts A and B is stored with the
    text "A // B", with no direct text and with [null] as direct text
    alike. *)
Theorem oracle_text_rule (d : list (string * pyval)) :
  (truthy (direct_text d) = true -> oracle_text_of (PDict d) = Ok (direct_text d))
  /\ (forall s, assoc "oracle_text" d = Some (PStr s) -> s <> "" ->
                oracle_text_of (PDict d) = Ok (PStr s))
  /\ (forall faces, truthy (direct_text d) = false ->
                    assoc "card_faces" d = Some (PList faces) ->
                    Forall face_shaped faces ->
                    oracle_text_of (PDict d)
                    = Ok (PStr (String.concat " // " (own_texts faces))))
  /\ (forall faces, truthy (direct_text d) = false ->
                    assoc "card_faces" d = Some (PList faces) ->
                    Forall object_shaped faces -> Exists odd_text faces ->
                    oracle_text_of (PDict d) = Raise TypeError)
  /\ (assoc "card_faces" d = None -> oracle_text_of (PDict d) = Ok (direct_text d))
  /\ (no_direct_text d -> assoc "card_faces" d = None ->
      oracle_text_of (PDict d) = Ok (PStr ""))
  /\ (assoc "oracle_text" d = Some PNone -> assoc "card_faces" d = None ->
      oracle_text_of (PDict d) = Ok PNone)
  /\ oracle_text_of two_faced = Ok (PStr "A // B")
  /\ stored_oracle_texts two_faced = [Some "A // B"]
  /\ oracle_text_of null_two_faced = Ok (PStr "A // B")
  /\ stored_oracle_texts null_two_faced = [Some "A // B"].
Proof.
  assert (Hnofaces : assoc "card_faces" d = None ->
                     oracle_text_of (PDict d) = Ok (direct_text d)).
  { intros Hf; unfold oracle_text_of, get, contains, has_key; now rewrite Hf. }
  assert (Htruthy : truthy (direct_text d) = true ->
                    oracle_text_of (PDict d) = Ok (direct_text d)).
  { intros Ht; unfold oracle_text_of, get, contains; cbn [rbind].
    fold (direct_text d); now rewrite Ht, andb_false_r. }
  split; [exact Htruthy|].
  split.
  { intros s Hs Hne.
    assert (Hd : direct_text d = PStr s) by (unfold direct_text, dict_get; now rewrite Hs).
    rewrite <- Hd; apply Htruthy; rewrite Hd; simpl.
    now apply negb_true_iff, String.eqb_neq. }
  split.
  { intros faces Hfalsy Hfaces Hshaped.
    unfold oracle_text_of, get, contains, getitem, has_key; cbn [rbind].
    fold (direct_text d); rewrite Hfaces, Hfalsy; simpl.
    rewrite (faces_text_own_texts faces Hshaped); simpl.
    unfold join; now rewrite strs_of_strings. }
  split.
  { intros faces Hfalsy Hfaces Hobj Hodd.
    unfold oracle_text_of, get, contains, getitem, has_key; cbn [rbind].
    fold (direct_text d); rewrite Hfaces, Hfalsy; simpl.
    pose proof (faces_text_odd faces Hobj Hodd) as H.
    destruct (faces_text faces) as [ts|e]; simpl in *; [|now injection H as ->].
    now rewrite H. }
  split; [exact Hnofaces|].
  split.
  { intros Hno Hf; rewrite (Hnofaces Hf); unfold direct_text, dict_get.
    destruct Hno as [-> | ->]; reflexivity. }
  split.
  { intros Hnull Hf; rewrite (Hnofaces Hf); unfold direct_text, dict_get.
    now rewrite Hnull. }
  repeat split; reflexivity.
Qed.

(** C5 as it is worded fails on a record without faces whose [oracle_text]
    is [null]: [card.get('oracle_text', '')] returns the [None] that is
    there, and the row is stored with a NULL text, not with the empty
    string.  It also fails on a record one of whose faces has [null] as
    its text: the join raises, and so does the page. *)
Lemma null_oracle_text_is_stored_as_null :
  getitem null_text "oracle_text" = Ok PNone
  /\ contains "card_faces" null_text = Ok false
  /\ oracle_text_of null_text = Ok PNone
  /\ oracle_text_of null_text <> Ok (PStr "")
  /\ stored_oracle_texts null_text = [None]
  /\ oracle_text_of null_face = Raise TypeError
  /\ fst (process_card_page (serve []) (PList [null_face]) true empty_world)
     = Raise TypeError.
Proof.
  repeat split; try reflexivity; discriminate.
Qed.

(** ** Normalisation: the image reference *)

(** On records shaped as the catalog documents them: the direct
    normal-size URI when there is one; otherwise what the first face has
    under [image_uris]/[normal], whatever faces follow it; otherwise
    [None]. *)
Lemma image_uri_rule (d : list (string * pyval)) :
  (forall u v, assoc "image_uris" d = Some (PDict u) -> assoc "normal" u = Some v ->
               image_uri_of (PDict d) = Ok v)
  /\ (forall f fu rest, no_direct_image d ->
                        assoc "card_faces" d = Some (PList (PDict f :: rest)) ->
                        assoc "image_uris" f = Some (PDict fu) ->
                        image_uri_of (PDict d) = Ok (dict_get "normal" PNone fu))
  /\ (forall f rest, no_direct_image d ->
                     assoc "card_faces" d = Some (PList (PDict f :: rest)) ->
                     assoc "image_uris" f = None ->
                     image_uri_of (PDict d) = Ok PNone)
  /\ (no_direct_image d -> assoc "card_faces" d = None ->
      image_uri_of (PDict d) = Ok PNone).
Proof.
  unfold image_uri_of, contains, getitem, no_direct_image.
  repeat split.
  - intros u v Hu Hv.
    repeat first [rewrite Hu | rewrite Hv | progress simpl
                 | progress unfold has_key, dict_get, get]; reflexivity.
  - intros f fu rest [Hno|(u & Hu & Hn)] Hfaces Hfu;
      repeat first [rewrite Hno | rewrite Hu | rewrite Hn | rewrite Hfaces | rewrite Hfu
                   | progress simpl | progress unfold has_key, dict_get, get]; reflexivity.
  - intros f rest [Hno|(u & Hu & Hn)] Hfaces Hfu;
      repeat first [rewrite Hno | rewrite Hu | rewrite Hn | rewrite Hfaces | rewrite Hfu
                   | progress simpl | progress unfold has_key, dict_get, get]; reflexivity.
  - intros [Hno|(u & Hu & Hn)] Hfaces;
      repeat first [rewrite Hno | rewrite Hu | rewrite Hn | rewrite Hfaces
                   | progress simpl | progress unfold has_key, dict_get, get]; reflexivity.
Qed.

(** C6 at the record [{"id": "e", "name": "Empty", "card_faces": []}]:
    there is no direct image and no first face, and line 227 subscripts
    the empty list.  The normalisation raises [IndexError] instead of
    yielding [None]; the exception leaves [process_card_page] before
    anything is written or committed. *)
Theorem image_uri_of_empty_faces_raises :
  contains "image_uris" no_faces_listed = Ok false
  /\ getitem no_faces_listed "card_faces" = Ok (PList [])
  /\ image_uri_of no_faces_listed = Raise IndexError
  /\ process_card_page (serve []) (PList [no_faces_listed]) true empty_world
     = (Raise IndexError, empty_world).
Proof.
  repeat split.
Qed.

(** ** The dependent rows of a card *)

Lemma insert_legality_eq (E : env) (t : tables) (card_id status : pyval) (f : string) :
  insert_legality E t card_id (PStr f) status =
  match bind_param card_id, bind_param status with
  | Raise e, _ => Raise e
  | Ok _, Raise e => Raise e
  | Ok _, Ok _ =>
      if existsb (fun l => sql_eq (fst (fst l)) (text_cell E card_id)
                           && sql_eq (snd (fst l)) (Some f)) (legalities t)
      then Raise IntegrityError
      else Ok {| cards := cards t;
                 legalities := legalities t ++ [legality_row E card_id (f, status)];
                 keywords := keywords t |}
  end.
Proof.
  unfold insert_legality, legality_row, text_cell; simpl.
  destruct (bind_param card_id); simpl; [|reflexivity].
  destruct (bind_param status); reflexivity.
Qed.

Lemma insert_keyword_eq (E : env) (t : tables) (card_id keyword : pyval) :
  insert_keyword E t card_id keyword =
  match bind_param card_id, bind_param keyword with
  | Raise e, _ => Raise e
  | Ok _, Raise e => Raise e
  | Ok _, Ok _ =>
      if existsb (fun x => sql_eq (fst x) (text_cell E card_id)
                           && sql_eq (snd x) (text_cell E keyword)) (keywords t)
      then Raise IntegrityError
      else Ok {| cards := cards t;
                 legalities := legalities t;
                 keywords := keywords t ++ [keyword_row_of E card_id keyword] |}
  end.
Proof.
  unfold insert_keyword, keyword_row_of, text_cell; simpl.
  destruct (bind_param card_id); simpl; [|reflexivity].
  destruct (bind_param keyword); reflexivity.
Qed.

Lemma with_db_same (w : world) : with_db w (db w) = w.
Proof. now destruct w. Qed.

Lemma filter_filter_negb {A} (p : A -> bool) (l : list A) :
  filter p (filter (fun x => negb (p x)) l) = [].
Proof.
  induction l as [|x l IH]; simpl; [reflexivity|].
  destruct (p x) eqn:Hp; simpl; [exact IH | now rewrite Hp].
Qed.

Lemma filter_all {A} (p : A -> bool) (l : list A) :
  (forall x, In x l -> p x = true) -> filter p l = l.
Proof.
  induction l as [|x l IH]; simpl; intros H; [reflexivity|].
  rewrite (H x (or_introl eq_refl)), IH; [reflexivity | auto].
Qed.

Lemma filter_none {A} (p : A -> bool) (l : list A) :
  (forall x, In x l -> p x = false) -> filter p l = [].
Proof.
  induction l as [|x l IH]; simpl; intros H; [reflexivity|].
  rewrite (H x (or_introl eq_refl)), IH; [reflexivity | auto].
Qed.

Lemma filter_negb_filter_negb {A} (p : A -> bool) (l : list A) :
  filter (fun x => negb (p x)) (filter (fun x => negb (p x)) l)
  = filter (fun x => negb (p x)) l.
Proof.
  apply filter_all; intros x Hx; now apply filter_In in Hx.
Qed.

Lemma sql_eq_refl (s : string) : sql_eq (Some s) (Some s) = true.
Proof. apply String.eqb_refl. Qed.

Lemma select_id_present (E : env) (t : tables) (card_id : pyval) (s : string) :
  text_cell E card_id = Some s ->
  select_id E t card_id = Ok (existsb (fun r => sql_eq (id r) (Some s)) (cards t)).
Proof.
  unfold text_cell, select_id.
  destruct (bind_param card_id) as [k|e]; simpl; [|discriminate].
  now intros ->.
Qed.

Lemma page_of_one (E : env) (card : pyval) (update_existing : bool) (w w' : world) :
  process_card_page E (PList [card]) update_existing w = (Ok tt, w') ->
  exists w1, process_card E update_existing card w = (Ok tt, w1)
             /\ w' = {| db := db w1; committed := db w1; ticks := ticks w1;
                        requested := requested w1; stdout := stdout w1 |}.
Proof.
  unfold process_card_page, bind, lift; simpl.
  unfold bind.
  destruct (process_card E update_existing card w) as [[[]|e] w1]; [|discriminate].
  unfold ret, commit; intros [= <-]; now exists w1.
Qed.

(** ** A record that fails *)

Lemma process_cards_app (E : env) (update_existing : bool) (pre post : list pyval)
  (w : world) :
  process_cards E update_existing (pre ++ post) w =
  match process_cards E update_existing pre w with
  | (Ok _, w0) => process_cards E update_existing post w0
  | (Raise e, w0) => (Raise e, w0)
  end.
Proof.
  revert w; induction pre as [|c pre IH]; intros w; simpl; [reflexivity|].
  unfold bind.
  destruct (process_card E update_existing c w) as [[[]|e] w0]; [apply IH | reflexivity].
Qed.

Lemma same_committed_process_cards (E : env) (update_existing : bool) (cs : list pyval) :
  preserves same_committed (process_cards E update_existing cs).
Proof.
  apply preserves_process_cards; unfold same_committed; intros; congruence.
Qed.

Lemma same_committed_process_card (E : env) (update_existing : bool) (c : pyval) :
  preserves same_committed (process_card E update_existing c).
Proof.
  apply preserves_process_card; unfold same_committed; intros; congruence.
Qed.

(** C3, as the code has it.  When the records before [bad] get through and
    the turn for [bad] raises, [process_card_page] raises the same
    exception from the same world: no record after [bad] is looked at,
    whatever it is, the page is not committed, and what the earlier
    records and the failing one wrote stays in the connection's view. *)
Theorem failing_record_aborts_page (E : env) (update_existing : bool)
  (pre post : list pyval) (bad : pyval) (e : exn) (w w0 w1 : world)
  (Hpre : process_cards E update_existing pre w = (Ok tt, w0))
  (Hbad : process_card E update_existing bad w0 = (Raise e, w1)) :
  process_card_page E (PList (pre ++ bad :: post)) update_existing w = (Raise e, w1)
  /\ committed w1 = committed w.
Proof.
  split.
  - unfold process_card_page, bind at 1, lift; simpl iter; cbv iota beta.
    unfold bind at 1.
    rewrite process_cards_app, Hpre; simpl.
    unfold bind at 1; now rewrite Hbad.
  - pose proof (same_committed_process_cards E update_existing pre w) as H0.
    pose proof (same_committed_process_card E update_existing bad w0) as H1.
    rewrite Hpre in H0; rewrite Hbad in H1; unfold same_committed in *; simpl in *.
    congruence.
Qed.

Lemma failing_record_aborts_page_witness :
  process_cards (serve []) true [] empty_world = (Ok tt, empty_world)
  /\ process_card (serve []) true nameless empty_world = (Raise KeyError, empty_world)
  /\ process_card_page (serve []) (PList ([] ++ nameless :: [sound])) true empty_world
     = (Raise KeyError, empty_world).
Proof.
  split; [reflexivity|].
  split; [reflexivity|].
  exact (proj1 (failing_record_aborts_page (serve []) true [] [sound] nameless KeyError
                  empty_world empty_world empty_world eq_refl eq_refl)).
Defined.

(** C3 as it is worded fails on the page [nameless; sound]: the first
    record has no [id], [card['id']] raises [KeyError], and the sound
    record after it is never upserted, neither by [process_card_page]
    itself nor by an incremental sync that receives the page (which
    catches the exception only after the page loop is left); on its own
    the sound record is stored. *)
Lemma later_record_is_not_processed :
  process_card_page (serve []) (PList [nameless; sound]) true empty_world
  = (Raise KeyError, empty_world)
  /\ map id (cards (db (snd (process_card_page (serve []) (PList [sound]) true
                               empty_world)))) = [Some "ok"]
  /\ fst (update_database 3 (serve [nameless; sound]) empty_world) = Ok true
  /\ cards (db (snd (update_database 3 (serve [nameless; sound]) empty_world))) = []
  /\ In (ErrorDuringUpdate KeyError)
        (stdout (snd (update_database 3 (serve [nameless; sound]) empty_world))).
Proof.
  repeat split; vm_compute; auto 10.
Qed.

(** ** Storage failures and the two drivers *)

Lemma process_card_page_raises (E : env) (update_existing : bool) (cs : list pyval)
  (e : exn) (w w1 : world) :
  process_cards E update_existing cs w = (Raise e, w1) ->
  process_card_page E (PList cs) update_existing w = (Raise e, w1).
Proof.
  intros H; unfold process_card_page, bind at 1, lift; simpl iter; cbv iota beta.
  unfold bind at 1; now rewrite H.
Qed.

Lemma update_database_swallows (fuel : nat) (E : env) (w w2 : world)
  (data total page : pyval) (e : exn) :
  http_get E (search_url (last_update_date (db w))) = Response 200 (Ok data) ->
  get data "total_cards" (PInt 0) = Ok total ->
  getitem data "data" = Ok page ->
  process_card_page E page true
    (at_first_page w (search_url (last_update_date (db w)))
       [UpdatingSince (last_update_date (db w)); FoundNew total])
  = (Raise e, w2) ->
  update_database fuel E w = (Ok true, with_line w2 (ErrorDuringUpdate e)).
Proof.
  intros Hget Htotal Hdata Hpage.
  unfold update_database, bind at 1, query at 1.
  unfold bind at 1, print at 1.
  unfold try_except.
  unfold bind at 1, requests_get; simpl http_get; rewrite Hget; simpl.
  unfold bind at 1, lift at 1.
  unfold bind at 1, lift at 1; rewrite Htotal.
  unfold bind at 1, print at 1; simpl.
  unfold bind at 1, ingest_page.
  unfold bind at 1, lift at 1; rewrite Hdata.
  unfold bind at 1.
  unfold at_first_page in Hpage.
  rewrite <- (app_assoc (stdout w)); cbn [app].
  rewrite Hpage; reflexivity.
Qed.

(** ** Upserting the same rows again *)

Lemma sql_eq_true (a b : option string) : sql_eq a b = true -> a = b /\ is_some a = true.
Proof.
  destruct a as [x|], b as [y|]; simpl; try discriminate.
  intros H; apply String.eqb_eq in H; now subst.
Qed.

Lemma sql_eq_some (a : option string) : is_some a = true -> sql_eq a a = true.
Proof. destruct a; simpl; [intros _; apply String.eqb_refl | discriminate]. Qed.

Lemma set_columns_same_id (r r' : card_row) : id r' = id r -> set_columns r r' = r.
Proof. destruct r, r'; simpl; intros ->; reflexivity. Qed.

Lemma rewrite_row_id (r acc : card_row) : id (rewrite_row r acc) = id acc.
Proof. unfold rewrite_row; now destruct (sql_eq _ _). Qed.

Lemma rewrite_rows_id (rs : list card_row) (x : card_row) : id (rewrite_rows rs x) = id x.
Proof.
  revert x; induction rs as [|r rs IH]; intros x; simpl; [reflexivity|].
  unfold rewrite_rows in *; simpl; now rewrite IH, rewrite_row_id.
Qed.

Lemma upsert_row_existing (r : card_row) (cs : list card_row) :
  existsb (fun r' => sql_eq (id r') (id r)) cs = true ->
  upsert_row r cs = map (rewrite_row r) cs.
Proof. unfold upsert_row; now intros ->. Qed.

Lemma existsb_id_map (f : card_row -> card_row) (k : option string) (cs : list card_row) :
  (forall x, id (f x) = id x) ->
  existsb (fun r' => sql_eq (id r') k) (map f cs)
  = existsb (fun r' => sql_eq (id r') k) cs.
Proof.
  intros Hf; induction cs as [|c cs IH]; simpl; [reflexivity|].
  now rewrite Hf, IH.
Qed.

(** Upserting keeps every id that is there. *)
Lemma upsert_row_keeps (r : card_row) (k : option string) (cs : list card_row) :
  existsb (fun r' => sql_eq (id r') k) cs = true ->
  existsb (fun r' => sql_eq (id r') k) (upsert_row r cs) = true.
Proof.
  intros H; unfold upsert_row.
  destruct (existsb (fun r' => sql_eq (id r') (id r)) cs).
  - change (fun r' => if sql_eq (id r') (id r) then set_columns r r' else r')
      with (rewrite_row r).
    rewrite existsb_id_map; [exact H | apply rewrite_row_id].
  - rewrite existsb_app, H; reflexivity.
Qed.

Lemma upsert_row_has (r : card_row) (cs : list card_row) :
  is_some (id r) = true ->
  existsb (fun r' => sql_eq (id r') (id r)) (upsert_row r cs) = true.
Proof.
  intros Hid; unfold upsert_row.
  destruct (existsb (fun r' => sql_eq (id r') (id r)) cs) eqn:He.
  - change (fun r' => if sql_eq (id r') (id r) then set_columns r r' else r')
      with (rewrite_row r).
    rewrite existsb_id_map; [exact He | apply rewrite_row_id].
  - rewrite existsb_app; simpl; rewrite (sql_eq_some _ Hid); now rewrite orb_true_r.
Qed.

Lemma upsert_rows_keeps (rs : list card_row) (k : option string) (cs : list card_row) :
  existsb (fun r' => sql_eq (id r') k) cs = true ->
  existsb (fun r' => sql_eq (id r') k) (upsert_rows rs cs) = true.
Proof.
  revert cs; induction rs as [|r rs IH]; intros cs H; simpl; [exact H|].
  apply IH, upsert_row_keeps, H.
Qed.

(** After a run of upserts every upserted id is there. *)
Lemma upsert_rows_has (rs : list card_row) (cs : list card_row) (r : card_row) :
  Forall (fun r => is_some (id r) = true) rs -> In r rs ->
  existsb (fun r' => sql_eq (id r') (id r)) (upsert_rows rs cs) = true.
Proof.
  revert cs; induction rs as [|r0 rs IH]; intros cs Hall Hin; [contradiction|].
  inversion Hall as [|? ? H0 Hrest]; subst; simpl.
  destruct Hin as [->|Hin].
  - apply upsert_rows_keeps, upsert_row_has, H0.
  - now apply IH.
Qed.

(** When every id is there already, the run of upserts only rewrites. *)
Lemma upsert_rows_rewrites (rs : list card_row) (cs : list card_row) :
  (forall r, In r rs -> existsb (fun r' => sql_eq (id r') (id r)) cs = true) ->
  upsert_rows rs cs = map (rewrite_rows rs) cs.
Proof.
  revert cs; induction rs as [|r rs IH]; intros cs H; simpl.
  - now rewrite map_id.
  - rewrite (upsert_row_existing r cs (H r (or_introl eq_refl))).
    rewrite IH, map_map; [reflexivity|].
    intros r' Hr'; rewrite existsb_id_map; [apply H; now right | apply rewrite_row_id].
Qed.

Lemma upsert_row_in (r x : card_row) (cs : list card_row) :
  is_some (id r) = true -> In x (upsert_row r cs) ->
  (sql_eq (id x) (id r) = true /\ x = r) \/ (sql_eq (id x) (id r) = false /\ In x cs).
Proof.
  intros Hid; unfold upsert_row.
  destruct (existsb (fun r' => sql_eq (id r') (id r)) cs) eqn:He.
  - intros Hin; apply in_map_iff in Hin as (y & <- & Hy).
    destruct (sql_eq (id y) (id r)) eqn:Hy'.
    + left; apply sql_eq_true in Hy' as [Hy' _].
      rewrite (set_columns_same_id r y Hy'); split; [now apply sql_eq_some | reflexivity].
    + right; now split.
  - intros Hin; apply in_app_or in Hin as [Hin|[<-|[]]].
    + right; split; [|exact Hin].
      destruct (sql_eq (id x) (id r)) eqn:Hx; [|reflexivity].
      assert (Hex : existsb (fun r' => sql_eq (id r') (id r)) cs = true)
        by (apply existsb_exists; now exists x).
      congruence.
    + left; split; [now apply sql_eq_some | reflexivity].
Qed.

Lemma rewrite_rows_app (rs1 rs2 : list card_row) (x : card_row) :
  rewrite_rows (rs1 ++ rs2) x = rewrite_rows rs2 (rewrite_rows rs1 x).
Proof. unfold rewrite_rows; apply fold_left_app. Qed.

Lemma upsert_rows_app (rs1 rs2 : list card_row) (cs : list card_row) :
  upsert_rows (rs1 ++ rs2) cs = upsert_rows rs2 (upsert_rows rs1 cs).
Proof. unfold upsert_rows; apply fold_left_app. Qed.

(** A row of the table a run of upserts leaves is left alone by the same
    run. *)
Lemma rewrite_rows_fixes (rs : list card_row) (cs : list card_row) (x : card_row) :
  Forall (fun r => is_some (id r) = true) rs ->
  In x (upsert_rows rs cs) -> rewrite_rows rs x = x.
Proof.
  revert x; induction rs as [|r rs IH] using rev_ind; intros x Hall Hin; [reflexivity|].
  apply Forall_app in Hall as [Hall Hr]; inversion Hr as [|? ? Hid _]; subst.
  rewrite upsert_rows_app in Hin; simpl in Hin.
  rewrite rewrite_rows_app.
  replace (rewrite_rows [r] (rewrite_rows rs x))
    with (rewrite_row r (rewrite_rows rs x)) by reflexivity.
  apply upsert_row_in in Hin as [[Hm ->]|[Hm Hin]]; [| |exact Hid].
  - unfold rewrite_row; rewrite rewrite_rows_id, Hm.
    apply set_columns_same_id, rewrite_rows_id.
  - rewrite (IH x Hall Hin); unfold rewrite_row; now rewrite Hm.
Qed.

(** Running the same upserts a second time changes nothing. *)
Lemma upsert_rows_twice (rs : list card_row) (cs : list card_row) :
  Forall (fun r => is_some (id r) = true) rs ->
  upsert_rows rs (upsert_rows rs cs) = upsert_rows rs cs.
Proof.
  intros Hall.
  rewrite upsert_rows_rewrites.
  - rewrite <- (map_id (upsert_rows rs cs)) at 2.
    apply map_ext_in; intros x Hx; now apply rewrite_rows_fixes with cs.
  - intros r Hr; now apply upsert_rows_has.
Qed.

Lemma strip_set_columns (r r' : card_row) :
  strip (set_columns r r') = set_columns (strip r) (strip r').
Proof. reflexivity. Qed.

Lemma strip_upsert_row (r : card_row) (cs : list card_row) :
  map strip (upsert_row r cs) = upsert_row (strip r) (map strip cs).
Proof.
  unfold upsert_row.
  rewrite (existsb_id_map strip (id (strip r)) cs) by reflexivity.
  change (id (strip r)) with (id r).
  destruct (existsb (fun r' => sql_eq (id r') (id r)) cs).
  - rewrite !map_map; apply map_ext; intros x.
    change (id (strip x)) with (id x).
    now destruct (sql_eq (id x) (id r)).
  - now rewrite map_app.
Qed.

Lemma strip_upsert_rows (rs : list card_row) (cs : list card_row) :
  map strip (upsert_rows rs cs) = upsert_rows (map strip rs) (map strip cs).
Proof.
  revert cs; induction rs as [|r rs IH]; intros cs; simpl; [reflexivity|].
  now rewrite IH, strip_upsert_row.
Qed.

(** Two runs that upsert the same rows up to the time stamps, the second
    on what the first left: the second leaves the rows of the first, up to
    the time stamps. *)
Lemma upsert_rows_again (ras rbs : list card_row) (cs : list card_row) :
  map strip ras = map strip rbs ->
  Forall (fun r => is_some (id r) = true) ras ->
  map strip (upsert_rows rbs (upsert_rows ras cs)) = map strip (upsert_rows ras cs).
Proof.
  intros Heq Hall.
  rewrite !strip_upsert_rows, <- Heq.
  apply upsert_rows_twice.
  apply Forall_forall; intros x Hx; apply in_map_iff in Hx as (y & <- & Hy).
  rewrite Forall_forall in Hall; exact (Hall y Hy).
Qed.

(** ** One record, in two worlds *)

Lemma bind_params_app (l1 l2 : list pyval) :
  bind_params (l1 ++ l2) =
  match bind_params l1 with
  | Ok xs1 => match bind_params l2 with
              | Ok xs2 => Ok (xs1 ++ xs2)%list
              | Raise e => Raise e
              end
  | Raise e => Raise e
  end.
Proof.
  induction l1 as [|v l1 IH]; simpl.
  - now destruct (bind_params l2).
  - destruct (bind_param v); simpl; [|reflexivity].
    rewrite IH; destruct (bind_params l1); simpl; [|reflexivity].
    now destruct (bind_params l2).
Qed.

Lemma row_of_id (E : env) (x : sqlval) (xs : list sqlval) (r : card_row) :
  row_of E (x :: xs) = Some r -> id r = text_affinity E x.
Proof.
  unfold row_of.
  do 21 (destruct xs as [|? xs]; [discriminate|]).
  destruct xs; [|discriminate].
  now intros [= <-].
Qed.

Lemma last_snoc {A} (l : list A) (x d : A) : last (l ++ [x]) d = x.
Proof.
  induction l as [|y l IH]; [reflexivity|].
  simpl; rewrite IH; destruct (l ++ [x])%list eqn:H; [|reflexivity].
  now destruct l.
Qed.

Lemma removelast_snoc {A} (l : list A) (x : A) : removelast (l ++ [x]) = l.
Proof.
  induction l as [|y l IH]; [reflexivity|].
  simpl; rewrite IH; destruct (l ++ [x])%list eqn:H; [|reflexivity].
  now destruct l.
Qed.

Lemma existsb_in_ids (s : string) (cs : list card_row) :
  existsb (fun r => sql_eq (id r) (Some s)) cs = true <-> In (Some s) (map id cs).
Proof.
  rewrite existsb_exists; split.
  - intros (r & Hr & He); apply sql_eq_true in He as [He _].
    rewrite <- He; now apply in_map.
  - intros H; apply in_map_iff in H as (r & Hr & Hin).
    exists r; split; [exact Hin | rewrite Hr; apply sql_eq_refl].
Qed.

(** Lines 256-281 in one equation for both branches, on a sound store:
    the row is bound and checked, [cards] is upserted, and the dependent
    rows of the card are gone (the INSERT branch has none to lose). *)
Lemma write_card_effect (E : env) (card_id : pyval) (x : sqlval) (s stamp : string)
  (rest : list pyval) (w : world) :
  bind_param card_id = Ok x -> text_affinity E x = Some s ->
  store_ok (db w) ->
  write_card E (existsb (fun r => sql_eq (id r) (Some s)) (cards (db w))) card_id
    (card_id :: rest ++ [PStr stamp]) w =
  match bind_params rest with
  | Raise e => (Raise e, w)
  | Ok xs =>
      match row_of E (x :: xs ++ [SText stamp]) with
      | None => (Raise InterfaceError, w)
      | Some r =>
          if negb (is_some (name r)) then (Raise IntegrityError, w)
          else (Ok tt,
                with_db w
                  {| cards := upsert_row r (cards (db w));
                     legalities := filter (fun l => negb (legality_of (Some s) l))
                                          (legalities (db w));
                     keywords := filter (fun k => negb (keyword_of (Some s) k))
                                        (keywords (db w)) |})
      end
  end.
Proof.
  intros Hx Hs Hok.
  unfold write_card.
  destruct (existsb (fun r => sql_eq (id r) (Some s)) (cards (db w))) eqn:Hex.
  - (* UPDATE *)
    unfold bind at 1, execute at 1, update_card.
    simpl tl; rewrite !bind_params_app; simpl bind_params; rewrite Hx.
    destruct (bind_params rest) as [xs|e]; simpl; [|reflexivity].
    rewrite last_snoc, removelast_snoc.
    destruct (row_of E (x :: xs ++ [SText stamp])) as [r|] eqn:Hr; [|reflexivity].
    pose proof (row_of_id E x _ r Hr) as Hid; rewrite Hs in Hid.
    rewrite Hid, Hex; simpl andb.
    destruct (negb (is_some (name r))); [reflexivity|].
    unfold bind, execute, delete_legalities, delete_keywords; simpl.
    rewrite Hx; simpl; rewrite Hs.
    unfold upsert_row; rewrite Hid, Hex; reflexivity.
  - (* INSERT *)
    unfold execute, insert_card.
    simpl bind_params; rewrite Hx; simpl; rewrite bind_params_app; simpl bind_params.
    destruct (bind_params rest) as [xs|e]; simpl; [|reflexivity].
    destruct (row_of E (x :: xs ++ [SText stamp])) as [r|] eqn:Hr; [|reflexivity].
    pose proof (row_of_id E x _ r Hr) as Hid; rewrite Hs in Hid.
    destruct (negb (is_some (name r))); [reflexivity|].
    rewrite Hid, Hex.
    unfold upsert_row; rewrite Hid, Hex.
    rewrite !filter_all; [reflexivity| |].
    + intros k Hk; unfold keyword_of.
      destruct (sql_eq (fst k) (Some s)) eqn:Hm; [|reflexivity].
      apply sql_eq_true in Hm as [Hm _].
      apply (keywords_ref _ Hok k s Hk), existsb_in_ids in Hm; congruence.
    + intros l Hl; unfold legality_of.
      destruct (sql_eq (fst (fst l)) (Some s)) eqn:Hm; [|reflexivity].
      apply sql_eq_true in Hm as [Hm _].
      apply (legalities_ref _ Hok l s Hl), existsb_in_ids in Hm; congruence.
Qed.

Lemma existsb_filter_guard {A} (p q : A -> bool) (l : list A) :
  (forall x, p x = true -> q x = true) ->
  existsb p (filter q l) = existsb p l.
Proof.
  intros H; induction l as [|x l IH]; simpl; [reflexivity|].
  destruct (q x) eqn:Hq; simpl; [now rewrite IH|].
  destruct (p x) eqn:Hp; [rewrite (H x Hp) in Hq; discriminate | exact IH].
Qed.

Lemma add_legality_rows_nil (w : world) : add_legality_rows w [] = w.
Proof.
  destruct w as [[c l k] ? ? ? ?]; unfold add_legality_rows, with_db; simpl.
  now rewrite app_nil_r.
Qed.

Lemma add_keyword_rows_nil (w : world) : add_keyword_rows w [] = w.
Proof.
  destruct w as [[c l k] ? ? ? ?]; unfold add_keyword_rows, with_db; simpl.
  now rewrite app_nil_r.
Qed.

(** The loop of lines 285-289 is [legalities_run] on the card's rows. *)
Lemma insert_legalities_run (E : env) (card_id : pyval) (s : string)
  (its : list (string * pyval)) (w : world) :
  text_cell E card_id = Some s ->
  insert_legalities E card_id its w =
  (fst (legalities_run E card_id its
          (filter (legality_of (Some s)) (legalities (db w)))),
   add_legality_rows w
     (snd (legalities_run E card_id its
             (filter (legality_of (Some s)) (legalities (db w)))))).
Proof.
  intros Hs; revert w; induction its as [|[f st] its IH]; intros w; simpl.
  - now rewrite add_legality_rows_nil.
  - unfold bind, execute; rewrite insert_legality_eq.
    destruct (bind_param card_id) as [x|e]; [|simpl; now rewrite add_legality_rows_nil].
    destruct (bind_param st) as [y|e]; [|simpl; now rewrite add_legality_rows_nil].
    simpl.
    rewrite (existsb_filter_guard _ (legality_of (Some s)) (legalities (db w))).
    2:{ intros l Hl; apply andb_prop in Hl as [Hl _].
        unfold legality_of; now rewrite <- Hs. }
    match goal with
    | |- context [@existsb ?A ?p (legalities (db w))] =>
        set (c := @existsb A p (legalities (db w)))
    end.
    repeat match goal with
           | |- context [@existsb ?A ?p (legalities (db w))] =>
               change (@existsb A p (legalities (db w))) with c
           end.
    clearbody c; destruct c; [simpl; now rewrite add_legality_rows_nil|].
    rewrite IH; simpl.
    rewrite filter_app; simpl.
    assert (Hrow : legality_of (Some s) (legality_row E card_id (f, st)) = true).
    { unfold legality_of, legality_row; simpl; rewrite Hs; apply sql_eq_refl. }
    rewrite Hrow.
    destruct (legalities_run E card_id its _) as [r rows]; simpl.
    unfold add_legality_rows, with_db; simpl.
    now rewrite <- app_assoc.
Qed.

(** The loop of lines 293-297 is [keywords_run] on the card's rows. *)
Lemma insert_keywords_run (E : env) (card_id : pyval) (s : string)
  (kws : list pyval) (w : world) :
  text_cell E card_id = Some s ->
  insert_keywords E card_id kws w =
  (fst (keywords_run E card_id kws
          (filter (keyword_of (Some s)) (keywords (db w)))),
   add_keyword_rows w
     (snd (keywords_run E card_id kws
             (filter (keyword_of (Some s)) (keywords (db w)))))).
Proof.
  intros Hs; revert w; induction kws as [|kw kws IH]; intros w; simpl.
  - now rewrite add_keyword_rows_nil.
  - unfold bind, execute; rewrite insert_keyword_eq.
    destruct (bind_param card_id) as [x|e]; [|simpl; now rewrite add_keyword_rows_nil].
    destruct (bind_param kw) as [y|e]; [|simpl; now rewrite add_keyword_rows_nil].
    simpl.
    rewrite (existsb_filter_guard _ (keyword_of (Some s)) (keywords (db w))).
    2:{ intros l Hl; apply andb_prop in Hl as [Hl _].
        unfold keyword_of; now rewrite <- Hs. }
    match goal with
    | |- context [@existsb ?A ?p (keywords (db w))] =>
        set (c := @existsb A p (keywords (db w)))
    end.
    repeat match goal with
           | |- context [@existsb ?A ?p (keywords (db w))] =>
               change (@existsb A p (keywords (db w))) with c
           end.
    clearbody c; destruct c; [simpl; now rewrite add_keyword_rows_nil|].
    rewrite IH; simpl.
    rewrite filter_app; simpl.
    assert (Hrow : keyword_of (Some s) (keyword_row_of E card_id kw) = true).
    { unfold keyword_of, keyword_row_of; simpl; rewrite Hs; apply sql_eq_refl. }
    rewrite Hrow.
    destruct (keywords_run E card_id kws _) as [r rows]; simpl.
    unfold add_keyword_rows, with_db; simpl.
    now rewrite <- app_assoc.
Qed.

Lemma NoDup_snoc {A} (l : list A) (x : A) : NoDup l -> ~ In x l -> NoDup (l ++ [x]).
Proof.
  intros Hl Hx; induction Hl as [|y l Hy Hl IH]; simpl; [repeat constructor; tauto|].
  constructor.
  - intros Hin; apply in_app_or in Hin as [Hin|[<-|[]]]; [tauto|].
    apply Hx; now left.
  - apply IH; intros Hin; apply Hx; now right.
Qed.

Lemma text_cell_not_null (E : env) (v : pyval) (y : sqlval) :
  bind_param v = Ok y -> not_null v -> exists t, text_cell E v = Some t.
Proof.
  unfold text_cell, not_null; intros Hb Hv; rewrite Hb in *.
  destruct y; simpl; eauto; congruence.
Qed.

(** The rows the legality loop appends are the card's, and no two rows of
    the card share a format. *)
Lemma legalities_run_rows (E : env) (card_id : pyval) (s : string)
  (its : list (string * pyval)) (seen : list legality) :
  text_cell E card_id = Some s ->
  (forall l, In l seen -> fst (fst l) = Some s) ->
  NoDup (map fst seen) ->
  (forall l, In l (snd (legalities_run E card_id its seen)) -> fst (fst l) = Some s)
  /\ NoDup (map fst (seen ++ snd (legalities_run E card_id its seen))).
Proof.
  intros Hs; revert seen; induction its as [|[f st] its IH]; intros seen Hseen Hnd; simpl.
  - rewrite app_nil_r; split; [contradiction | exact Hnd].
  - destruct (bind_param card_id) as [x|e]; simpl;
      [|rewrite app_nil_r; split; [contradiction | exact Hnd]].
    destruct (bind_param st) as [y|e]; simpl;
      [|rewrite app_nil_r; split; [contradiction | exact Hnd]].
    match goal with |- context [if ?c then _ else _] => destruct c eqn:Hc end; simpl;
      [rewrite app_nil_r; split; [contradiction | exact Hnd]|].
    set (row := legality_row E card_id (f, st)).
    assert (Hrow : fst (fst row) = Some s) by (unfold row, legality_row; simpl; exact Hs).
    destruct (IH (seen ++ [row])%list) as [Hin Hnd'].
    + intros l Hl; apply in_app_or in Hl as [Hl|[<-|[]]]; [now apply Hseen | exact Hrow].
    + rewrite map_app; simpl; apply NoDup_snoc; [exact Hnd|].
      intros Hk; apply in_map_iff in Hk as (l & Hl & Hlin).
      assert (Hex : existsb (fun l => sql_eq (fst (fst l)) (text_cell E card_id)
                                      && sql_eq (snd (fst l)) (Some f)) seen = true).
      { apply existsb_exists; exists l; split; [exact Hlin|].
        destruct l as [[c g] st']; unfold row, legality_row in Hl.
        cbn [fst snd] in Hl; injection Hl as Hc1 Hc2.
        cbn [fst snd]; rewrite Hc1, Hc2, Hs.
        now rewrite !sql_eq_refl. }
      exact (eq_true_false_abs _ Hex Hc).
    + destruct (legalities_run E card_id its (seen ++ [row])%list) as [r rows]; simpl in *.
      split.
      * intros l [<-|Hl]; [exact Hrow | now apply Hin].
      * now rewrite <- app_assoc in Hnd'.
Qed.

(** The rows the keyword loop appends are the card's, and no keyword of
    the card comes twice, when no keyword is [null]. *)
Lemma keywords_run_rows (E : env) (card_id : pyval) (s : string)
  (kws : list pyval) (seen : list keyword_row) :
  text_cell E card_id = Some s ->
  (forall kw, In kw kws -> not_null kw) ->
  (forall x, In x seen -> fst x = Some s) ->
  NoDup seen ->
  (forall x, In x (snd (keywords_run E card_id kws seen)) -> fst x = Some s)
  /\ NoDup (seen ++ snd (keywords_run E card_id kws seen)).
Proof.
  intros Hs; revert seen; induction kws as [|kw kws IH]; intros seen Hnn Hseen Hnd; simpl.
  - rewrite app_nil_r; split; [contradiction | exact Hnd].
  - destruct (bind_param card_id) as [x|e] eqn:Hbx; simpl;
      [|rewrite app_nil_r; split; [contradiction | exact Hnd]].
    destruct (bind_param kw) as [y|e] eqn:Hby; simpl;
      [|rewrite app_nil_r; split; [contradiction | exact Hnd]].
    match goal with |- context [if ?c then _ else _] => destruct c eqn:Hc end; simpl;
      [rewrite app_nil_r; split; [contradiction | exact Hnd]|].
    set (row := keyword_row_of E card_id kw).
    assert (Hrow : fst row = Some s) by (unfold row, keyword_row_of; simpl; exact Hs).
    destruct (text_cell_not_null E kw y Hby) as [t Ht];
      [apply Hnn; now left|].
    destruct (IH (seen ++ [row])%list) as [Hin Hnd'].
    + intros kw' Hk; apply Hnn; now right.
    + intros l Hl; apply in_app_or in Hl as [Hl|[<-|[]]]; [now apply Hseen | exact Hrow].
    + apply NoDup_snoc; [exact Hnd|].
      intros Hlin.
      assert (Hex : existsb (fun x => sql_eq (fst x) (text_cell E card_id)
                                      && sql_eq (snd x) (text_cell E kw)) seen = true).
      { apply existsb_exists; exists row; split; [exact Hlin|].
        unfold row, keyword_row_of; simpl; rewrite Hs, Ht.
        now rewrite !sql_eq_refl. }
      exact (eq_true_false_abs _ Hex Hc).
    + destruct (keywords_run E card_id kws (seen ++ [row])%list) as [r rows]; simpl in *.
      split.
      * intros l [<-|Hl]; [exact Hrow | now apply Hin].
      * now rewrite <- app_assoc in Hnd'.
Qed.

Lemma normalize_head (E : env) (card card_id : pyval) (fields : list pyval) :
  normalize E card card_id = Ok fields -> exists rest, fields = card_id :: rest.
Proof.
  unfold normalize; intros H.
  repeat match type of H with
         | rbind ?m _ = Ok _ => destruct m; simpl in H; [|discriminate]
         end.
  injection H as <-; eauto.
Qed.

(** The row of a record at two readings of the clock: the same row up to
    the time stamp. *)
Lemma row_of_stamp (E : env) (x : sqlval) (xs : list sqlval) (s1 s2 : string) :
  match row_of E (x :: xs ++ [SText s1]), row_of E (x :: xs ++ [SText s2]) with
  | Some r1, Some r2 => strip r1 = strip r2 /\ name r1 = name r2
  | None, None => True
  | _, _ => False
  end.
Proof.
  unfold row_of.
  do 20 (destruct xs as [|? xs]; [exact I|]).
  destruct xs as [|? xs]; simpl; [split; reflexivity|].
  destruct xs; exact I.
Qed.

Lemma add_legalities_cleared (E : env) (d : list (string * pyval)) (card_id : pyval)
  (s : string) (w : world) :
  text_cell E card_id = Some s ->
  filter (legality_of (Some s)) (legalities (db w)) = [] ->
  add_legalities E (PDict d) card_id w =
  (fst (legalities_outcome E d card_id),
   add_legality_rows w (snd (legalities_outcome E d card_id))).
Proof.
  intros Hs Hclear.
  unfold add_legalities, legalities_outcome, bind, lift, contains, has_key, getitem.
  destruct (assoc "legalities" d) as [v|]; simpl.
  - destruct (items v) as [its|e]; simpl; [|now rewrite add_legality_rows_nil].
    now rewrite (insert_legalities_run E card_id s its w Hs), Hclear.
  - now rewrite add_legality_rows_nil.
Qed.

Lemma add_keywords_cleared (E : env) (d : list (string * pyval)) (card_id : pyval)
  (s : string) (w : world) :
  text_cell E card_id = Some s ->
  filter (keyword_of (Some s)) (keywords (db w)) = [] ->
  add_keywords E (PDict d) card_id w =
  (fst (keywords_outcome E d card_id),
   add_keyword_rows w (snd (keywords_outcome E d card_id))).
Proof.
  intros Hs Hclear.
  unfold add_keywords, keywords_outcome, bind, lift, contains, has_key, getitem.
  destruct (assoc "keywords" d) as [v|]; simpl.
  - destruct (truthy v); simpl.
    + destruct (iter v) as [kws|e]; simpl; [|now rewrite add_keyword_rows_nil].
      now rewrite (insert_keywords_run E card_id s kws w Hs), Hclear.
    + now rewrite add_keyword_rows_nil.
  - now rewrite add_keyword_rows_nil.
Qed.

Lemma legalities_outcome_rows (E : env) (d : list (string * pyval)) (card_id : pyval)
  (s : string) :
  text_cell E card_id = Some s ->
  (forall l, In l (snd (legalities_outcome E d card_id)) -> fst (fst l) = Some s)
  /\ NoDup (map fst (snd (legalities_outcome E d card_id))).
Proof.
  intros Hs; unfold legalities_outcome.
  destruct (assoc "legalities" d) as [v|]; simpl; [|split; [contradiction | constructor]].
  destruct (items v) as [its|e]; simpl; [|split; [contradiction | constructor]].
  apply (legalities_run_rows E card_id s its [] Hs); [contradiction | constructor].
Qed.

Lemma keywords_outcome_rows (E : env) (d : list (string * pyval)) (card_id : pyval)
  (s : string) :
  text_cell E card_id = Some s ->
  (forall kw, In kw (keywords_of d) -> not_null kw) ->
  (forall x, In x (snd (keywords_outcome E d card_id)) -> fst x = Some s)
  /\ NoDup (snd (keywords_outcome E d card_id)).
Proof.
  intros Hs; unfold keywords_outcome, keywords_of.
  destruct (assoc "keywords" d) as [v|]; simpl; [|split; [contradiction | constructor]].
  destruct (truthy v); simpl; [|split; [contradiction | constructor]].
  destruct (iter v) as [kws|e]; simpl; [|split; [contradiction | constructor]].
  intros Hnn.
  apply (keywords_run_rows E card_id s kws [] Hs Hnn); [contradiction | constructor].
Qed.

Lemma filter_keeps_distinct_keys {R K} (key : R -> K) (keep : R -> bool)
  (rows : list R) :
  NoDup (map key rows) -> NoDup (map key (filter keep rows)).
Proof.
  intros Hrows; induction rows as [|row rows IH]; simpl; [constructor|].
  inversion Hrows as [|? ? Hfresh Hrest]; subst.
  destruct (keep row); simpl; [|now apply IH].
  constructor; [|now apply IH].
  intros Hin; apply Hfresh.
  apply in_map_iff in Hin as (y & Hy & Hin); apply filter_In in Hin as [Hin _].
  rewrite <- Hy; now apply in_map.
Qed.

Lemma in_ids_upsert (r : card_row) (s : string) (cs : list card_row) :
  In (Some s) (map id cs) -> In (Some s) (map id (upsert_row r cs)).
Proof. rewrite <- !existsb_in_ids; apply upsert_row_keeps. Qed.

Lemma in_ids_upserted (r : card_row) (s : string) (cs : list card_row) :
  id r = Some s -> In (Some s) (map id (upsert_row r cs)).
Proof.
  intros Hid; rewrite <- existsb_in_ids, <- Hid.
  apply upsert_row_has; now rewrite Hid.
Qed.

(** A sound store stays sound when a card is upserted, its dependent rows
    are dropped, and rows of that card with pairwise different keys are
    appended. *)
Lemma store_ok_after (t : tables) (r : card_row) (s : string)
  (rows_l : list legality) (rows_k : list keyword_row) :
  store_ok t -> id r = Some s ->
  (forall l, In l rows_l -> fst (fst l) = Some s) -> NoDup (map fst rows_l) ->
  (forall x, In x rows_k -> fst x = Some s) -> NoDup rows_k ->
  store_ok {| cards := upsert_row r (cards t);
              legalities := filter (fun l => negb (legality_of (Some s) l)) (legalities t)
                            ++ rows_l;
              keywords := filter (fun x => negb (keyword_of (Some s) x)) (keywords t)
                          ++ rows_k |}.
Proof.
  intros [Hlk Hkk Hlr Hkr] Hid Hl Hlnd Hk Hknd; constructor; simpl.
  - rewrite map_app; apply NoDup_app.
    + now apply filter_keeps_distinct_keys.
    + exact Hlnd.
    + intros key Hin1 Hin2.
      apply in_map_iff in Hin1 as (l & <- & Hin1); apply filter_In in Hin1 as [_ Hne].
      apply in_map_iff in Hin2 as (l' & Heq & Hin2).
      pose proof (Hl l' Hin2) as Hs'.
      unfold legality_of in Hne; rewrite <- Heq, Hs', sql_eq_refl in Hne; discriminate.
  - apply NoDup_app.
    + now apply NoDup_filter.
    + exact Hknd.
    + intros x Hin1 Hin2; apply filter_In in Hin1 as [_ Hne].
      unfold keyword_of in Hne; rewrite (Hk x Hin2), sql_eq_refl in Hne; discriminate.
  - intros l s' Hin Hs'; apply in_app_or in Hin as [Hin|Hin].
    + apply filter_In in Hin as [Hin _]; apply in_ids_upsert; now apply (Hlr l).
    + rewrite (Hl l Hin) in Hs'; injection Hs' as <-; now apply in_ids_upserted.
  - intros x s' Hin Hs'; apply in_app_or in Hin as [Hin|Hin].
    + apply filter_In in Hin as [Hin _]; apply in_ids_upsert; now apply (Hkr x).
    + rewrite (Hk x Hin) in Hs'; injection Hs' as <-; now apply in_ids_upserted.
Qed.

Lemma keyed_id (E : env) (d : list (string * pyval)) (card_id : pyval) (x : sqlval) :
  keyed (PDict d) -> assoc "id" d = Some card_id -> bind_param card_id = Ok x ->
  exists s, text_affinity E x = Some s.
Proof.
  intros [Hid _] Ha Hx.
  assert (Hne : not_null card_id).
  { apply Hid; unfold getitem; now rewrite Ha. }
  destruct (text_cell_not_null E card_id x Hx Hne) as [s Hs].
  exists s; unfold text_cell in Hs; now rewrite Hx in Hs.
Qed.

(** One turn of the loop in overwrite mode, on a keyed record and a sound
    store, written out: where it can raise, and what it has written by
    then. *)
Lemma process_card_eq (E : env) (d : list (string * pyval)) (w : world) :
  keyed (PDict d) -> store_ok (db w) ->
  process_card E true (PDict d) w =
  match assoc "id" d with
  | None => (Raise KeyError, w)
  | Some card_id =>
      match bind_param card_id with
      | Raise e => (Raise e, w)
      | Ok x =>
          match normalize E (PDict d) card_id with
          | Raise e => (Raise e, w)
          | Ok fields =>
              match bind_params (tl fields) with
              | Raise e => (Raise e, tick w)
              | Ok xs =>
                  match row_of E (x :: xs ++ [SText (now E (ticks w))]) with
                  | None => (Raise InterfaceError, tick w)
                  | Some r =>
                      if negb (is_some (name r)) then (Raise IntegrityError, tick w)
                      else
                        let w1 :=
                          with_db (tick w)
                            {| cards := upsert_row r (cards (db w));
                               legalities :=
                                 filter (fun l => negb (legality_of (text_affinity E x) l))
                                        (legalities (db w));
                               keywords :=
                                 filter (fun k => negb (keyword_of (text_affinity E x) k))
                                        (keywords (db w)) |} in
                        let w2 :=
                          add_legality_rows w1 (snd (legalities_outcome E d card_id)) in
                        match fst (legalities_outcome E d card_id) with
                        | Raise e => (Raise e, w2)
                        | Ok _ =>
                            (fst (keywords_outcome E d card_id),
                             add_keyword_rows w2 (snd (keywords_outcome E d card_id)))
                        end
                  end
              end
          end
      end
  end.
Proof.
  intros Hkeyed Hok.
  unfold process_card.
  unfold bind at 1, lift at 1, getitem.
  destruct (assoc "id" d) as [card_id|] eqn:Hid; [|reflexivity].
  unfold bind at 1, query at 1, select_id.
  destruct (bind_param card_id) as [x|e] eqn:Hx; [|reflexivity].
  cbn [rbind fst snd negb]; rewrite andb_false_r.
  unfold bind at 1, lift at 1.
  destruct (normalize E (PDict d) card_id) as [fields|e] eqn:Hn; [|reflexivity].
  destruct (normalize_head E _ _ _ Hn) as [rest ->]; cbn [tl].
  destruct (keyed_id E d card_id x Hkeyed Hid Hx) as [s Hs]; rewrite Hs.
  assert (Hcell : text_cell E card_id = Some s) by (unfold text_cell; now rewrite Hx).
  unfold bind at 1, datetime_now at 1.
  unfold bind at 1.
  match goal with
  | |- context [write_card E ?ex card_id ?cd ?w1] =>
      change (write_card E ex card_id cd w1)
        with (write_card E (existsb (fun r => sql_eq (id r) (Some s)) (cards (db (tick w))))
                card_id (card_id :: rest ++ [PStr (now E (ticks w))]) (tick w))
  end.
  rewrite (write_card_effect E card_id x s (now E (ticks w)) rest (tick w) Hx Hs Hok).
  destruct (bind_params rest) as [xs|e]; [|reflexivity].
  destruct (row_of E (x :: xs ++ [SText (now E (ticks w))])) as [r|]; [|reflexivity].
  destruct (negb (is_some (name r))); [reflexivity|].
  unfold bind at 1.
  rewrite (add_legalities_cleared E d card_id s _ Hcell)
    by apply (filter_filter_negb (legality_of (Some s))).
  cbv zeta.
  destruct (fst (legalities_outcome E d card_id)) as [[]|e]; [|reflexivity].
  rewrite (add_keywords_cleared E d card_id s _ Hcell)
    by apply (filter_filter_negb (keyword_of (Some s))).
  reflexivity.
Qed.

Lemma paired_same (a a' b b' : world) :
  cards (db a') = cards (db a) -> cards (db b') = cards (db b) -> paired a a' b b'.
Proof.
  intros Ha Hb; exists [], []; repeat split; [constructor | exact Ha | exact Hb].
Qed.

Lemma paired_trans (a a1 a2 b b1 b2 : world) :
  paired a a1 b b1 -> paired a1 a2 b1 b2 -> paired a a2 b b2.
Proof.
  intros (ras & rbs & Hs & Hid & Ha & Hb) (ras' & rbs' & Hs' & Hid' & Ha' & Hb').
  exists (ras ++ ras')%list, (rbs ++ rbs')%list; repeat split.
  - now rewrite !map_app, Hs, Hs'.
  - apply Forall_app; now split.
  - now rewrite upsert_rows_app, <- Ha.
  - now rewrite upsert_rows_app, <- Hb.
Qed.

(** In overwrite mode a keyed record is treated alike in any two sound
    stores: it raises in both or in neither, and it upserts the same row
    up to the time stamp. *)
Lemma alike_process_card (E : env) (c : pyval) :
  keyed c -> alike (process_card E true c).
Proof.
  intros Hk a b Ha Hb.
  assert (Hquiet : forall e : exn,
             fst (@Raise unit e, a) = fst (@Raise unit e, b)
             /\ store_ok (db (snd (@Raise unit e, a)))
             /\ store_ok (db (snd (@Raise unit e, b)))
             /\ paired a (snd (@Raise unit e, a)) b (snd (@Raise unit e, b))).
  { intros e; split; [reflexivity|].
    split; [exact Ha | split; [exact Hb | now apply paired_same]]. }
  assert (Hlate : forall e : exn,
             fst (@Raise unit e, tick a) = fst (@Raise unit e, tick b)
             /\ store_ok (db (snd (@Raise unit e, tick a)))
             /\ store_ok (db (snd (@Raise unit e, tick b)))
             /\ paired a (snd (@Raise unit e, tick a)) b (snd (@Raise unit e, tick b))).
  { intros e; split; [reflexivity|].
    split; [exact Ha | split; [exact Hb | now apply paired_same]]. }
  destruct c as [| | | | |l|d];
    try (unfold process_card, bind, lift, getitem; simpl; apply Hquiet).
  rewrite (process_card_eq E d a Hk Ha), (process_card_eq E d b Hk Hb).
  destruct (assoc "id" d) as [card_id|] eqn:Hid; [|apply Hquiet].
  destruct (bind_param card_id) as [x|e] eqn:Hx; [|apply Hquiet].
  destruct (normalize E (PDict d) card_id) as [fields|e]; [|apply Hquiet].
  destruct (bind_params (tl fields)) as [xs|e]; [|apply Hlate].
  destruct (keyed_id E d card_id x Hk Hid Hx) as [s Hs].
  assert (Hcell : text_cell E card_id = Some s) by (unfold text_cell; now rewrite Hx).
  pose proof (row_of_stamp E x xs (now E (ticks a)) (now E (ticks b))) as Hrow.
  destruct (row_of E (x :: xs ++ [SText (now E (ticks a))])) as [ra|] eqn:Hra;
    destruct (row_of E (x :: xs ++ [SText (now E (ticks b))])) as [rb|] eqn:Hrb;
    try contradiction; [|apply Hlate].
  destruct Hrow as [Hstrip Hname]; rewrite Hname.
  destruct (negb (is_some (name rb))); [apply Hlate|].
  pose proof (row_of_id E x _ ra Hra) as Hida; rewrite Hs in Hida.
  pose proof (row_of_id E x _ rb Hrb) as Hidb; rewrite Hs in Hidb.
  destruct (legalities_outcome_rows E d card_id s Hcell) as [Hl Hlnd].
  destruct (keywords_outcome_rows E d card_id s Hcell) as [Hkw Hkwnd];
    [destruct Hk as [_ Hk]; intros kw; now apply Hk|].
  assert (Hpair : forall a' b',
             cards (db a') = upsert_row ra (cards (db a)) ->
             cards (db b') = upsert_row rb (cards (db b)) ->
             paired a a' b b').
  { intros a' b' Ha' Hb'; exists [ra], [rb]; repeat split.
    - simpl; now rewrite Hstrip.
    - constructor; [now rewrite Hida | constructor].
    - exact Ha'.
    - exact Hb'. }
  rewrite Hs; cbv zeta.
  destruct (fst (legalities_outcome E d card_id)) as [[]|e].
  - split; [reflexivity|].
    split; [|split; [|now apply Hpair]].
    + now apply (store_ok_after (db a) ra s).
    + now apply (store_ok_after (db b) rb s).
  - split; [reflexivity|].
    split; [|split; [|now apply Hpair]].
    + pose proof (store_ok_after (db a) ra s _ [] Ha Hida Hl Hlnd) as H.
      simpl in H |- *; rewrite app_nil_r in H; apply H; [contradiction | constructor].
    + pose proof (store_ok_after (db b) rb s _ [] Hb Hidb Hl Hlnd) as H.
      simpl in H |- *; rewrite app_nil_r in H; apply H; [contradiction | constructor].
Qed.

(** *** Computations that behave alike *)

Lemma alike_quiet {A} (m : M A) :
  (forall a b, fst (m a) = fst (m b)) ->
  (forall w, db (snd (m w)) = db w) ->
  alike m.
Proof.
  intros Hres Hdb a b Ha Hb.
  split; [apply Hres|].
  rewrite !Hdb; split; [exact Ha | split; [exact Hb|]].
  apply paired_same; now rewrite Hdb.
Qed.

Lemma alike_ret {A} (x : A) : alike (ret x).
Proof. now apply alike_quiet. Qed.

Lemma alike_lift {A} (r : result A) : alike (lift r).
Proof. now apply alike_quiet. Qed.

Lemma alike_print (m : msg) : alike (print m).
Proof. now apply alike_quiet. Qed.

Lemma alike_commit : alike commit.
Proof. now apply alike_quiet. Qed.

Lemma alike_requests_get (E : env) (url : pyval) : alike (requests_get E url).
Proof.
  apply alike_quiet; intros; destruct url; simpl; try reflexivity;
    destruct (http_get E s); reflexivity.
Qed.

Lemma alike_bind {A B} (m : M A) (k : A -> M B) :
  alike m -> (forall x w, fst (m w) = Ok x -> alike (k x)) -> alike (bind m k).
Proof.
  intros Hm Hk a b Ha Hb.
  destruct (Hm a b Ha Hb) as (Hres & Ha1 & Hb1 & Hp).
  unfold bind.
  pose proof (Hk) as Hk'.
  destruct (m a) as [[x|e] a1] eqn:Hma, (m b) as [[y|e'] b1] eqn:Hmb;
    simpl in *; try discriminate.
  - injection Hres as <-.
    assert (Hkx : alike (k x)) by (apply (Hk x a); now rewrite Hma).
    destruct (Hkx a1 b1 Ha1 Hb1) as (Hres' & Ha2 & Hb2 & Hp').
    split; [exact Hres'|].
    split; [exact Ha2 | split; [exact Hb2|]].
    now apply paired_trans with a1 b1.
  - injection Hres as <-.
    split; [reflexivity | split; [exact Ha1 | split; [exact Hb1 | exact Hp]]].
Qed.

Lemma alike_if {A} (c : bool) (m1 m2 : M A) :
  alike m1 -> alike m2 -> alike (if c then m1 else m2).
Proof. now destruct c. Qed.

Lemma alike_process_cards (E : env) (cs : list pyval) :
  Forall keyed cs -> alike (process_cards E true cs).
Proof.
  induction 1 as [|c cs Hc _ IH]; simpl; [apply alike_ret|].
  apply alike_bind; [now apply alike_process_card | intros _ _ _; exact IH].
Qed.

Lemma alike_process_card_page (E : env) (page : pyval) :
  (forall cs c, iter page = Ok cs -> In c cs -> keyed c) ->
  alike (process_card_page E page true).
Proof.
  intros Hpage; unfold process_card_page.
  apply alike_bind; [apply alike_lift|].
  intros cs w Hcs; simpl in Hcs.
  apply alike_bind; [|intros; apply alike_commit].
  apply alike_process_cards, Forall_forall; intros c Hc; now apply (Hpage cs).
Qed.

Lemma alike_ingest_page (E : env) (report : Z -> pyval -> msg) (data total : pyval)
  (n : Z) :
  page_keyed data -> alike (ingest_page E true report data total n).
Proof.
  intros Hdata; unfold ingest_page.
  apply alike_bind; [apply alike_lift|].
  intros page w Hpage; simpl in Hpage.
  apply alike_bind.
  { apply alike_process_card_page; intros cs c; now apply (Hdata page). }
  intros _ _ _.
  apply alike_bind; [apply alike_lift | intros k _ _].
  apply alike_bind; [apply alike_print | intros; apply alike_ret].
Qed.

Lemma requests_get_answer (E : env) (url : pyval) (w : world) (code : Z)
  (json : result pyval) :
  fst (requests_get E url w) = Ok (code, json) ->
  exists u, http_get E u = Response code json.
Proof.
  destruct url; simpl; try discriminate.
  destruct (http_get E s) eqn:H; simpl; [discriminate|].
  intros [= <- <-]; now exists s.
Qed.

Lemma alike_more_pages (fuel : nat) (E : env) (report : Z -> pyval -> msg)
  (data total : pyval) (n : Z) :
  env_keyed E -> alike (more_pages fuel E true report data total n).
Proof.
  intros HE; revert data n; induction fuel as [|fuel IH]; intros data n; simpl.
  - apply alike_bind; [apply alike_lift | intros h _ _].
    apply alike_if; apply alike_ret.
  - apply alike_bind; [apply alike_lift | intros h _ _].
    apply alike_if; [|apply alike_ret].
    apply alike_bind; [apply alike_lift | intros u _ _].
    apply alike_bind; [apply alike_requests_get|].
    intros [code json] w Hget; apply requests_get_answer in Hget as [u' Hget].
    apply alike_if.
    + apply alike_bind; [apply alike_print | intros; apply alike_ret].
    + apply alike_bind; [apply alike_lift|].
      intros data' w' Hjson; simpl in Hjson; subst json.
      apply alike_bind; [|intros; apply IH].
      apply alike_ingest_page; exact (HE u' code data' Hget).
Qed.

Lemma alike_fetch_all_cards (fuel : nat) (E : env) :
  env_keyed E -> alike (fetch_all_cards fuel E true).
Proof.
  intros HE; unfold fetch_all_cards.
  apply alike_bind; [apply alike_print | intros _ _ _].
  apply alike_bind; [apply alike_requests_get|].
  intros [code json] w Hget; apply requests_get_answer in Hget as [u' Hget].
  apply alike_if.
  - apply alike_bind; [apply alike_print | intros; apply alike_ret].
  - apply alike_bind; [apply alike_lift|].
    intros data w' Hjson; simpl in Hjson; subst json.
    apply alike_bind; [apply alike_lift | intros total _ _].
    apply alike_bind; [apply alike_print | intros _ _ _].
    apply alike_bind; [apply alike_ingest_page; exact (HE u' code data Hget)|].
    intros n _ _.
    apply alike_bind; [now apply alike_more_pages | intros fin _ _].
    apply alike_if; [|apply alike_ret].
    apply alike_bind; [apply alike_print | intros; apply alike_ret].
Qed.

(** ** Running the full sync twice *)

Lemma NoDup_of_keys {A B} (f : A -> B) (l : list A) : NoDup (map f l) -> NoDup l.
Proof.
  induction l as [|x l IH]; simpl; intros H; [constructor|].
  inversion H as [|? ? Hx Hl]; subst; constructor; [|now apply IH].
  intros Hin; apply Hx; now apply in_map.
Qed.

(** C1, as the code has it.  Take a source that does not change and whose
    records carry an id and keywords that SQLite does not store as NULL,
    and a store that satisfies the keys declared for [legalities] and
    [keywords].  A full
    sync in overwrite mode run twice ends the second time as it ended the
    first time (returned, or raised the same exception); after the second
    run [cards] holds the rows it held after the first, in the same order
    and equal in every column but [last_updated]; and neither [legalities]
    nor [keywords] holds a row twice, or two rows under one primary key. *)
Theorem full_sync_twice (fuel : nat) (E : env) (w0 : world)
  (Hsource : env_keyed E) (Hstore : store_ok (db w0)) :
  let run1 := fetch_all_cards fuel E true w0 in
  let run2 := fetch_all_cards fuel E true (snd run1) in
  fst run2 = fst run1
  /\ map strip (cards (db (snd run2))) = map strip (cards (db (snd run1)))
  /\ NoDup (map fst (legalities (db (snd run2))))
  /\ NoDup (legalities (db (snd run2)))
  /\ NoDup (keywords (db (snd run2))).
Proof.
  intros run1 run2.
  pose proof (alike_fetch_all_cards fuel E Hsource) as Halike.
  destruct (Halike w0 w0 Hstore Hstore) as (_ & Hok1 & _ & _).
  fold run1 in Hok1.
  destruct (Halike w0 (snd run1) Hstore Hok1) as (Hres & _ & Hok2 & Hpair).
  fold run1 in Hres, Hpair; fold run2 in Hres, Hok2, Hpair.
  destruct Hpair as (ras & rbs & Hstrip & Hids & H1 & H2).
  split; [now symmetry|].
  split; [rewrite H2, H1; now apply upsert_rows_again|].
  destruct Hok2 as [Hlk Hkk _ _].
  split; [exact Hlk | split; [exact (NoDup_of_keys _ _ Hlk) | exact Hkk]].
Qed.

Lemma catalog_keyed : env_keyed (serve catalog).
Proof.
  intros url code data H page cs c Hp Hi Hin.
  injection H as <- <-.
  injection Hp as <-; injection Hi as <-.
  assert (Hstr : forall s : string, not_null (PStr s)) by (intros s; discriminate).
  destruct Hin as [<-|[<-|[<-|[]]]]; split.
  - intros card_id Hc; vm_compute in Hc; injection Hc as <-; apply Hstr.
  - intros d kw Hd Hk; injection Hd as <-; vm_compute in Hk.
    destruct Hk as [<-|[]]; apply Hstr.
  - intros card_id Hc; vm_compute in Hc; injection Hc as <-; apply Hstr.
  - intros d kw Hd Hk; injection Hd as <-; vm_compute in Hk; contradiction.
  - intros card_id Hc; vm_compute in Hc; injection Hc as <-; apply Hstr.
  - intros d kw Hd Hk; injection Hd as <-; vm_compute in Hk; contradiction.
Qed.

Lemma no_tables_ok : store_ok no_tables.
Proof. constructor; simpl; try constructor; contradiction. Qed.

Lemma full_sync_twice_witness :
  env_keyed (serve catalog)
  /\ store_ok (db empty_world)
  /\ fst (second_run catalog) = fst (first_run catalog)
  /\ map strip (cards (db (snd (second_run catalog))))
     = map strip (cards (db (snd (first_run catalog))))
  /\ NoDup (legalities (db (snd (second_run catalog))))
  /\ NoDup (keywords (db (snd (second_run catalog)))).
Proof.
  split; [exact catalog_keyed|].
  split; [exact no_tables_ok|].
  destruct (full_sync_twice 3 (serve catalog) empty_world catalog_keyed no_tables_ok)
    as (Hres & Hcards & _ & Hl & Hk).
  split; [exact Hres | split; [exact Hcards | split; [exact Hl | exact Hk]]].
Defined.

(** C1 as it is worded fails on the catalog that holds the golem alone:
    both runs return, the second run stamps the row again, and [cards]
    after the second run is not [cards] after the first. *)
Lemma second_run_restamps_cards :
  fst (first_run [golem]) = Ok true
  /\ fst (second_run [golem]) = Ok true
  /\ map last_updated (cards (db (snd (first_run [golem])))) = [Some "t0"]
  /\ map last_updated (cards (db (snd (second_run [golem])))) = [Some "t1"]
  /\ cards (db (snd (second_run [golem]))) <> cards (db (snd (first_run [golem]))).
Proof.
  repeat split; try reflexivity.
  vm_compute; discriminate.
Qed.

(** * Further properties of the engine *)

(** ** Commit granularity *)

(** X1.  [process_card_page] commits exactly when it returns: after a
    page that got through, the committed tables are the tables the
    connection sees; after a page that raised, at whatever record, the
    committed tables are the ones from before the call. *)
Theorem process_card_page_commits_iff_returns (E : env) (page : pyval)
  (update_existing : bool) (w : world) :
  match fst (process_card_page E page update_existing w) with
  | Ok _ => committed (snd (process_card_page E page update_existing w))
            = db (snd (process_card_page E page update_existing w))
  | Raise _ => committed (snd (process_card_page E page update_existing w))
               = committed w
  end.
Proof.
  unfold process_card_page, bind, lift.
  destruct (iter page) as [cs|e]; simpl; [|reflexivity].
  pose proof (same_committed_process_cards E update_existing cs w) as H.
  destruct (process_cards E update_existing cs w) as [[[]|e] w1]; simpl in *.
  - reflexivity.
  - exact H.
Qed.

(** ** Skipping the cards that are there *)

Lemma process_card_skips (E : env) (c : pyval) (w : world) :
  stored E (db w) c -> process_card E false c w = (Ok tt, w).
Proof.
  intros (card_id & s & Hid & Hs & Hin).
  unfold process_card, bind, lift, query; rewrite Hid.
  rewrite (select_id_present E (db w) card_id s Hs).
  apply existsb_in_ids in Hin; now rewrite Hin.
Qed.

(** X2.  With [update_existing=False], a page all of whose records have
    their id in [cards] writes nothing: no row of any table changes, the
    clock is not read, and the call returns after its commit. *)
Theorem skip_mode_leaves_stored_cards (E : env) (cs : list pyval) (w : world)
  (Hstored : Forall (stored E (db w)) cs) :
  process_card_page E (PList cs) false w = (Ok tt, committed_now w).
Proof.
  unfold process_card_page, bind at 1, lift; simpl iter; cbv iota beta.
  assert (Hloop : process_cards E false cs w = (Ok tt, w)).
  { induction Hstored as [|c cs Hc _ IH]; simpl; [reflexivity|].
    unfold bind; now rewrite (process_card_skips E c w Hc). }
  unfold bind; now rewrite Hloop.
Qed.

Lemma skip_mode_leaves_stored_cards_witness :
  Forall (stored (serve []) (db world_before)) [PDict bolt_after]
  /\ process_card_page (serve []) (PList [PDict bolt_after]) false world_before
     = (Ok tt, committed_now world_before)
  /\ legalities (db world_before)
     = [(Some "x", Some "standard", Some "legal"); (Some "x", Some "modern", Some "legal")].
Proof.
  assert (H : Forall (stored (serve []) (db world_before)) [PDict bolt_after]).
  { constructor; [|constructor].
    exists (PStr "x"), "x"; repeat split; vm_compute; auto. }
  split; [exact H|].
  split; [exact (skip_mode_leaves_stored_cards (serve []) _ world_before H) | reflexivity].
Defined.

(** ** Pages that cannot be fetched *)

(** X3.  When the listing itself answers with a status other than 200, a
    full sync prints the status and returns: one request was sent, no
    table, no commit and no clock reading happened. *)
Theorem fetch_all_cards_first_page_refused (fuel : nat) (E : env)
  (update_existing : bool) (w : world) (code : Z) (json : result pyval)
  (Hget : http_get E (api_base_url ++ "/cards") = Response code json)
  (Hcode : code <> 200) :
  fetch_all_cards fuel E update_existing w =
  (Ok true,
   and_then w [api_base_url ++ "/cards"] [StartingFetch; ErrorFetchingCards code]).
Proof.
  unfold fetch_all_cards, bind at 1, print at 1.
  unfold and_then, api_base_url in *; simpl append in *.
  unfold bind at 1, requests_get; rewrite Hget; simpl.
  apply Z.eqb_neq in Hcode; rewrite Hcode; simpl.
  unfold bind, print, ret; simpl.
  now rewrite <- app_assoc.
Qed.

Lemma fetch_all_cards_first_page_refused_witness :
  http_get (example_env (fun _ => Response 503 (Raise JSONDecodeError)))
           (api_base_url ++ "/cards") = Response 503 (Raise JSONDecodeError)
  /\ 503 <> 200
  /\ fetch_all_cards 3 (example_env (fun _ => Response 503 (Raise JSONDecodeError)))
       true world_before
     = (Ok true,
        and_then world_before [api_base_url ++ "/cards"]
          [StartingFetch; ErrorFetchingCards 503]).
Proof.
  split; [reflexivity|].
  split; [discriminate|].
  apply (fetch_all_cards_first_page_refused 3
           (example_env (fun _ => Response 503 (Raise JSONDecodeError)))
           true world_before 503 (Raise JSONDecodeError)); [reflexivity | discriminate].
Defined.

Lemma returned_page_is_committed (E : env) (page : pyval) (update_existing : bool)
  (w w1 : world) :
  process_card_page E page update_existing w = (Ok tt, w1) -> committed w1 = db w1.
Proof.
  unfold process_card_page, bind, lift.
  destruct (iter page) as [cs|e]; [|discriminate].
  destruct (process_cards E update_existing cs w) as [[[]|e] w0]; [|discriminate].
  unfold commit; now intros [= <-].
Qed.

(** X4.  When the first page is ingested and the request for the next
    page is answered with a status other than 200, a full sync stops
    there and returns: the tables are the ones the first page left, and
    they are committed. *)
Theorem fetch_all_cards_keeps_first_page (fuel : nat) (E : env) (update_existing : bool)
  (w w1 : world) (data total page : pyval) (n code : Z) (next : string)
  (json : result pyval)
  (Hget : http_get E (api_base_url ++ "/cards") = Response 200 (Ok data))
  (Htotal : get data "total_cards" (PInt 0) = Ok total)
  (Hdata : getitem data "data" = Ok page)
  (Hpage : process_card_page E page update_existing
             (at_first_page w (api_base_url ++ "/cards") [StartingFetch; FoundTotal total])
           = (Ok tt, w1))
  (Hlen : len page = Ok n)
  (Hmore : exists flag, get data "has_more" (PBool false) = Ok flag /\ truthy flag = true)
  (Hnext : getitem data "next_page" = Ok (PStr next))
  (Hfail : http_get E next = Response code json)
  (Hcode : code <> 200) :
  fetch_all_cards (S fuel) E update_existing w =
  (Ok true,
   and_then w1 [next] [Processed n total; ErrorFetchingPage code; FinishedFetching])
  /\ committed w1 = db w1.
Proof.
  split.
  - destruct Hmore as (flag & Hflag & Htruthy).
    unfold fetch_all_cards, bind at 1, print at 1.
    unfold at_first_page in Hpage.
    unfold and_then, api_base_url in *; simpl append in *.
    unfold bind at 1, requests_get at 1; rewrite Hget; simpl.
    unfold bind at 1, lift at 1.
    unfold bind at 1, lift at 1; rewrite Htotal.
    unfold bind at 1, print at 1; simpl.
    unfold bind at 1, ingest_page.
    unfold bind at 1, lift at 1; rewrite Hdata.
    unfold bind at 1.
    rewrite <- (app_assoc (stdout w)); cbn [app].
    rewrite Hpage.
    unfold bind at 1, lift at 1; rewrite Hlen.
    unfold bind at 1, print at 1, ret at 1; cbn [fst snd].
    unfold bind at 1; cbn [more_pages].
    unfold bind at 1, lift at 1; rewrite Hflag, Htruthy.
    unfold bind at 1, lift at 1; rewrite Hnext.
    unfold bind at 1, requests_get; rewrite Hfail; cbn [fst snd].
    apply Z.eqb_neq in Hcode; rewrite Hcode; simpl.
    unfold bind, print, ret; simpl.
    now rewrite <- !app_assoc.
  - exact (returned_page_is_committed _ _ _ _ _ Hpage).
Qed.

Lemma fetch_all_cards_keeps_first_page_witness :
  fetch_all_cards 1 cut_short true empty_world
  = (Ok true,
     and_then after_first_page ["page2"]
       [Processed 1 (PInt 5); ErrorFetchingPage 500; FinishedFetching])
  /\ committed after_first_page = db after_first_page
  /\ map id (cards (db after_first_page)) = [Some "x"].
Proof.
  destruct (fetch_all_cards_keeps_first_page 0 cut_short true empty_world
              after_first_page
              (PDict [("data", PList [PDict bolt_before]); ("has_more", PBool true);
                      ("next_page", PStr "page2"); ("total_cards", PInt 5)])
              (PInt 5) (PList [PDict bolt_before]) 1 500 "page2"
              (Raise JSONDecodeError))
    as [Hrun Hcommitted];
    try reflexivity.
  - exists (PBool true); split; reflexivity.
  - discriminate.
  - split; [exact Hrun | split; [exact Hcommitted | reflexivity]].
Defined.

(** ** Rows of [cards] are never lost *)

Lemma ids_grow_refl (cs : list card_row) : ids_grow cs cs.
Proof. split; [exists []; now rewrite app_nil_r | tauto]. Qed.

Lemma ids_grow_trans (a b c : list card_row) : ids_grow a b -> ids_grow b c -> ids_grow a c.
Proof.
  intros [[e1 H1] U1] [[e2 H2] U2]; split; [|tauto].
  exists (e1 ++ e2)%list; now rewrite H2, H1, app_assoc.
Qed.

Lemma cards_grow_refl (w : world) : cards_grow w w.
Proof. apply ids_grow_refl. Qed.

Lemma cards_grow_trans (a b c : world) : cards_grow a b -> cards_grow b c -> cards_grow a c.
Proof. apply ids_grow_trans. Qed.

Lemma update_card_ids (E : env) (t t' : tables) (params : list pyval) :
  update_card E t params = Ok t' -> map id (cards t') = map id (cards t).
Proof.
  unfold update_card.
  destruct (bind_params params) as [vals|e]; simpl; [|discriminate].
  destruct (row_of E _) as [r|]; [|discriminate].
  destruct (_ && _); [discriminate|].
  intros [= <-]; simpl; rewrite map_map; apply map_ext; intros r'.
  now destruct (sql_eq (id r') (id r)).
Qed.

Lemma insert_card_ids (E : env) (t t' : tables) (card_data : list pyval) :
  insert_card E t card_data = Ok t' -> ids_grow (cards t) (cards t').
Proof.
  unfold insert_card.
  destruct (bind_params card_data) as [vals|e]; simpl; [|discriminate].
  destruct (row_of E vals) as [r|]; [|discriminate].
  destruct (negb (is_some (name r))); [discriminate|].
  destruct (existsb _ (cards t)) eqn:Hex; [discriminate|].
  intros [= <-]; simpl; split.
  - exists [id r]; now rewrite map_app.
  - intros Hnd; rewrite map_app, filter_app; simpl.
    destruct (id r) as [s|] eqn:Hid; simpl; [|now rewrite app_nil_r].
    apply NoDup_snoc; [exact Hnd|].
    intros Hin; apply filter_In in Hin as [Hin _].
    apply existsb_in_ids in Hin; congruence.
Qed.

(** A statement that leaves [cards] alone, or lets its ids grow. *)
Lemma cards_grow_execute (q : tables -> result tables) :
  (forall t t', q t = Ok t' -> ids_grow (cards t) (cards t')) ->
  preserves cards_grow (execute q).
Proof.
  intros Hq w; unfold execute.
  destruct (q (db w)) as [t'|e] eqn:H; simpl; [now apply Hq | apply cards_grow_refl].
Qed.

Lemma ids_grow_same (cs cs' : list card_row) : map id cs' = map id cs -> ids_grow cs cs'.
Proof.
  intros H; split; [exists []; now rewrite app_nil_r | now rewrite H].
Qed.

Lemma cards_grow_write_card (E : env) (existing : bool) (card_id : pyval)
  (card_data : list pyval) :
  preserves cards_grow (write_card E existing card_id card_data).
Proof.
  unfold write_card; destruct existing.
  - apply preserves_bind; [exact cards_grow_trans | | intros _].
    { apply cards_grow_execute; intros t t' H.
      now apply ids_grow_same, (update_card_ids E t t' _ H). }
    apply preserves_bind; [exact cards_grow_trans | | intros _].
    + apply cards_grow_execute; intros t t'; unfold delete_legalities.
      destruct (bind_param card_id); simpl; [|discriminate].
      intros [= <-]; apply ids_grow_refl.
    + apply cards_grow_execute; intros t t'; unfold delete_keywords.
      destruct (bind_param card_id); simpl; [|discriminate].
      intros [= <-]; apply ids_grow_refl.
  - apply cards_grow_execute; intros t t'; apply insert_card_ids.
Qed.

Lemma cards_grow_insert_legalities (E : env) (card_id : pyval)
  (its : list (string * pyval)) :
  preserves cards_grow (insert_legalities E card_id its).
Proof.
  induction its as [|[f st] its IH]; simpl; [apply preserves_ret, cards_grow_refl|].
  apply preserves_bind; [exact cards_grow_trans | | intros _; exact IH].
  apply cards_grow_execute; intros t t'; rewrite insert_legality_eq.
  destruct (bind_param card_id); [|discriminate].
  destruct (bind_param st); [|discriminate].
  destruct (existsb _ _); [discriminate|].
  intros [= <-]; apply ids_grow_refl.
Qed.

Lemma cards_grow_insert_keywords (E : env) (card_id : pyval) (kws : list pyval) :
  preserves cards_grow (insert_keywords E card_id kws).
Proof.
  induction kws as [|kw kws IH]; simpl; [apply preserves_ret, cards_grow_refl|].
  apply preserves_bind; [exact cards_grow_trans | | intros _; exact IH].
  apply cards_grow_execute; intros t t'; rewrite insert_keyword_eq.
  destruct (bind_param card_id); [|discriminate].
  destruct (bind_param kw); [|discriminate].
  destruct (existsb _ _); [discriminate|].
  intros [= <-]; apply ids_grow_refl.
Qed.

Lemma cards_grow_process_card (E : env) (update_existing : bool) (c : pyval) :
  preserves cards_grow (process_card E update_existing c).
Proof.
  unfold process_card, add_legalities, add_keywords.
  repeat first
    [ apply cards_grow_write_card
    | apply cards_grow_insert_legalities
    | apply cards_grow_insert_keywords
    | apply preserves_ret, cards_grow_refl
    | apply preserves_lift, cards_grow_refl
    | apply preserves_query, cards_grow_refl
    | apply preserves_if
    | apply preserves_bind; [exact cards_grow_trans | | intros ?]
    | (intros w; unfold cards_grow; simpl; apply ids_grow_refl) ].
Qed.

Lemma cards_grow_quiet {A} (m : M A) :
  (forall w, db (snd (m w)) = db w) -> preserves cards_grow m.
Proof. intros H w; unfold cards_grow; rewrite H; apply ids_grow_refl. Qed.

Lemma cards_grow_process_card_page (E : env) (page : pyval) (update_existing : bool) :
  preserves cards_grow (process_card_page E page update_existing).
Proof.
  unfold process_card_page.
  apply preserves_bind; [exact cards_grow_trans | now apply cards_grow_quiet | intros cs].
  apply preserves_bind;
    [exact cards_grow_trans | | intros _; now apply cards_grow_quiet].
  induction cs as [|c cs IH]; simpl; [now apply cards_grow_quiet|].
  apply preserves_bind;
    [exact cards_grow_trans | apply cards_grow_process_card | intros _; exact IH].
Qed.

Lemma cards_grow_requests_get (E : env) (url : pyval) :
  preserves cards_grow (requests_get E url).
Proof.
  apply cards_grow_quiet; intros w; destruct url; simpl; try reflexivity.
  now destruct (http_get E s).
Qed.

Lemma cards_grow_ingest_page (E : env) (update_existing : bool)
  (report : Z -> pyval -> msg) (data total : pyval) (n : Z) :
  preserves cards_grow (ingest_page E update_existing report data total n).
Proof.
  unfold ingest_page.
  apply preserves_bind; [exact cards_grow_trans | now apply cards_grow_quiet | intros page].
  apply preserves_bind;
    [exact cards_grow_trans | apply cards_grow_process_card_page | intros _].
  apply preserves_bind; [exact cards_grow_trans | now apply cards_grow_quiet | intros k].
  apply preserves_bind;
    [exact cards_grow_trans | now apply cards_grow_quiet | intros _; now apply cards_grow_quiet].
Qed.

Lemma cards_grow_more_pages (fuel : nat) (E : env) (update_existing : bool)
  (report : Z -> pyval -> msg) (data total : pyval) (n : Z) :
  preserves cards_grow (more_pages fuel E update_existing report data total n).
Proof.
  revert data n; induction fuel as [|fuel IH]; intros data n; simpl.
  - apply preserves_bind; [exact cards_grow_trans | now apply cards_grow_quiet | intros h].
    apply preserves_if; now apply cards_grow_quiet.
  - apply preserves_bind; [exact cards_grow_trans | now apply cards_grow_quiet | intros h].
    apply preserves_if; [|now apply cards_grow_quiet].
    apply preserves_bind; [exact cards_grow_trans | now apply cards_grow_quiet | intros u].
    apply preserves_bind; [exact cards_grow_trans | apply cards_grow_requests_get | intros r].
    apply preserves_if.
    + apply preserves_bind;
        [exact cards_grow_trans | now apply cards_grow_quiet
        | intros _; now apply cards_grow_quiet].
    + apply preserves_bind; [exact cards_grow_trans | now apply cards_grow_quiet | intros d].
      apply preserves_bind;
        [exact cards_grow_trans | apply cards_grow_ingest_page | intros k; apply IH].
Qed.

Lemma cards_grow_fetch_all_cards (fuel : nat) (E : env) (update_existing : bool) :
  preserves cards_grow (fetch_all_cards fuel E update_existing).
Proof.
  unfold fetch_all_cards.
  apply preserves_bind; [exact cards_grow_trans | now apply cards_grow_quiet | intros _].
  apply preserves_bind; [exact cards_grow_trans | apply cards_grow_requests_get | intros r].
  apply preserves_if.
  - apply preserves_bind;
      [exact cards_grow_trans | now apply cards_grow_quiet
      | intros _; now apply cards_grow_quiet].
  - apply preserves_bind; [exact cards_grow_trans | now apply cards_grow_quiet | intros d].
    apply preserves_bind; [exact cards_grow_trans | now apply cards_grow_quiet | intros tot].
    apply preserves_bind; [exact cards_grow_trans | now apply cards_grow_quiet | intros _].
    apply preserves_bind;
      [exact cards_grow_trans | apply cards_grow_ingest_page | intros n].
    apply preserves_bind;
      [exact cards_grow_trans | apply cards_grow_more_pages | intros fin].
    apply preserves_if; [|now apply cards_grow_quiet].
    apply preserves_bind;
      [exact cards_grow_trans | now apply cards_grow_quiet
      | intros _; now apply cards_grow_quiet].
Qed.

Lemma cards_grow_update_database (fuel : nat) (E : env) :
  preserves cards_grow (update_database fuel E).
Proof.
  unfold update_database.
  apply preserves_bind; [exact cards_grow_trans | now apply cards_grow_quiet | intros date].
  apply preserves_bind; [exact cards_grow_trans | now apply cards_grow_quiet | intros _].
  apply preserves_try_except; [exact cards_grow_trans | | intros e].
  - apply preserves_bind; [exact cards_grow_trans | apply cards_grow_requests_get | intros r].
    apply preserves_if.
    { apply preserves_bind;
        [exact cards_grow_trans | now apply cards_grow_quiet
        | intros _; now apply cards_grow_quiet]. }
    apply preserves_if.
    { apply preserves_bind;
        [exact cards_grow_trans | now apply cards_grow_quiet
        | intros _; now apply cards_grow_quiet]. }
    apply preserves_bind; [exact cards_grow_trans | now apply cards_grow_quiet | intros d].
    apply preserves_bind; [exact cards_grow_trans | now apply cards_grow_quiet | intros tot].
    apply preserves_bind; [exact cards_grow_trans | now apply cards_grow_quiet | intros _].
    apply preserves_bind;
      [exact cards_grow_trans | apply cards_grow_ingest_page | intros n].
    apply preserves_bind;
      [exact cards_grow_trans | apply cards_grow_more_pages | intros fin].
    apply preserves_if; [|now apply cards_grow_quiet].
    apply preserves_bind;
      [exact cards_grow_trans | now apply cards_grow_quiet
      | intros _; now apply cards_grow_quiet].
  - apply preserves_bind;
      [exact cards_grow_trans | now apply cards_grow_quiet
      | intros _; now apply cards_grow_quiet].
Qed.

(** X5.  No row of [cards] is ever deleted, moved, or given another id:
    whatever the page, the mode and the answers of the remote, and whether
    the call returns or raises, after [process_card_page],
    [fetch_all_cards] and [update_database] the ids of [cards] are the ids
    from before, in their order, followed by the ids of the new rows. *)
Theorem cards_rows_are_kept (fuel : nat) (E : env) (update_existing : bool)
  (page : pyval) (w : world) :
  (exists extra,
      map id (cards (db (snd (process_card_page E page update_existing w))))
      = (map id (cards (db w)) ++ extra)%list)
  /\ (exists extra,
         map id (cards (db (snd (fetch_all_cards fuel E update_existing w))))
         = (map id (cards (db w)) ++ extra)%list)
  /\ (exists extra,
         map id (cards (db (snd (update_database fuel E w))))
         = (map id (cards (db w)) ++ extra)%list).
Proof.
  split; [exact (proj1 (cards_grow_process_card_page E page update_existing w))|].
  split; [exact (proj1 (cards_grow_fetch_all_cards fuel E update_existing w))|].
  exact (proj1 (cards_grow_update_database fuel E w)).
Qed.

(** X6.  One row per id: when no two rows of [cards] share an id that is
    not NULL, this is still so after [process_card_page],
    [fetch_all_cards] and [update_database], whatever they were given and
    however they ended. *)
Theorem cards_ids_stay_unique (fuel : nat) (E : env) (update_existing : bool)
  (page : pyval) (w : world)
  (Hunique : NoDup (filter is_some (map id (cards (db w))))) :
  NoDup (filter is_some
           (map id (cards (db (snd (process_card_page E page update_existing w))))))
  /\ NoDup (filter is_some
              (map id (cards (db (snd (fetch_all_cards fuel E update_existing w))))))
  /\ NoDup (filter is_some (map id (cards (db (snd (update_database fuel E w)))))).
Proof.
  split; [exact (proj2 (cards_grow_process_card_page E page update_existing w) Hunique)|].
  split; [exact (proj2 (cards_grow_fetch_all_cards fuel E update_existing w) Hunique)|].
  exact (proj2 (cards_grow_update_database fuel E w) Hunique).
Qed.

Lemma cards_ids_stay_unique_witness :
  NoDup (filter is_some (map id (cards (db world_before))))
  /\ NoDup (filter is_some
              (map id (cards (db (snd (fetch_all_cards 3 (serve catalog) true
                                         world_before)))))).
Proof.
  assert (H : NoDup (filter is_some (map id (cards (db world_before))))).
  { vm_compute; repeat constructor; simpl; tauto. }
  split; [exact H|].
  exact (proj1 (proj2 (cards_ids_stay_unique 3 (serve catalog) true PNone world_before H))).
Defined.

(** ** No orphans *)

(** X7.  In overwrite mode, on records that carry an id and keywords that
    SQLite does not store as NULL, the keys of the dependent tables hold
    at every point: if before the call no two rows of [legalities] or of
    [keywords] share a primary key and every dependent row with a card id
    has its row in [cards], then the same is true after
    [process_card_page] and after [fetch_all_cards], also when the call
    raised in the middle of a record. *)
Theorem dependent_rows_stay_sound (fuel : nat) (E : env) (page : pyval) (w : world)
  (Hstore : store_ok (db w)) :
  ((forall cs c, iter page = Ok cs -> In c cs -> keyed c) ->
   store_ok (db (snd (process_card_page E page true w))))
  /\ (env_keyed E -> store_ok (db (snd (fetch_all_cards fuel E true w)))).
Proof.
  split.
  - intros Hpage.
    exact (proj1 (proj2 (alike_process_card_page E page Hpage w w Hstore Hstore))).
  - intros HE.
    exact (proj1 (proj2 (alike_fetch_all_cards fuel E HE w w Hstore Hstore))).
Qed.

Lemma dependent_rows_stay_sound_witness :
  store_ok (db empty_world)
  /\ store_ok (db (snd (fetch_all_cards 3 (serve catalog) true empty_world))).
Proof.
  split; [exact no_tables_ok|].
  exact (proj2 (dependent_rows_stay_sound 3 (serve catalog) PNone empty_world no_tables_ok)
           catalog_keyed).
Defined.

(** ** [search_cards]: the limit *)

Lemma firstn_prefix {A} (n : nat) (l : list A) : exists rest, l = (firstn n l ++ rest)%list.
Proof. exists (skipn n l); now rewrite firstn_skipn. Qed.

Lemma length_append (a b : string) :
  String.length (a ++ b) = (String.length a + String.length b)%nat.
Proof. induction a as [|c a IH]; simpl; [reflexivity | now rewrite IH]. Qed.

Lemma pattern_length (query : string) :
  Z.of_nat (String.length ("%" ++ query ++ "%")) = Z.of_nat (String.length query) + 2.
Proof.
  change ("%" ++ query ++ "%") with (String "%" (query ++ "%")).
  cbn [String.length]; rewrite length_append; simpl; lia.
Qed.

(** [search_cards] gets through its binding exactly when the limit fits
    64 bits. *)
Lemma search_cards_bound (t : tables) (query : string) (limit : Z) :
  (fits_int64 limit ->
   search_cards t query limit =
   if negb (limit =? 0)
      && match cards t with [] => false | _ :: _ => true end
      && (like_pattern_limit <? Z.of_nat (String.length ("%" ++ query ++ "%")))
   then Raise OperationalError
   else Ok (map hit_of (sql_limit limit (filter (matches_query query) (cards t)))))
  /\ (~ fits_int64 limit -> search_cards t query limit = Raise OverflowError).
Proof.
  unfold search_cards, fits_int64; cbn [bind_params bind_param rbind].
  destruct ((- 2 ^ 63 <=? limit) && (limit <? 2 ^ 63)) eqn:Hfit; cbn [rbind].
  - split; [reflexivity|].
    apply andb_true_iff in Hfit as [H1 H2]; apply Z.leb_le in H1; apply Z.ltb_lt in H2.
    intros Hno; elim Hno; now split.
  - split; [|reflexivity].
    intros [H1 H2]; apply Z.leb_le in H1; apply Z.ltb_lt in H2.
    rewrite H1, H2 in Hfit; discriminate.
Qed.

(** X8.  [search_cards] binds its limit as a 64-bit integer: a limit
    outside that range raises OverflowError before a row is read; with a
    limit inside it and a pattern the engine takes, the call returns.
    When it returns, it returns the matching rows in table order and stops
    at the limit: with a limit that is not negative at most that many
    hits, always a leading part of the matches; every match when the
    matches are no more than the limit, or when the limit is negative. *)
Theorem search_cards_limit (t : tables) (query : string) (limit : Z) :
  (~ fits_int64 limit -> search_cards t query limit = Raise OverflowError)
  /\ (fits_int64 limit ->
      Z.of_nat (String.length query) + 2 <= like_pattern_limit ->
      exists hits, search_cards t query limit = Ok hits)
  /\ (forall hits,
         search_cards t query limit = Ok hits ->
         fits_int64 limit
         /\ (0 <= limit -> Z.of_nat (List.length hits) <= limit)
         /\ (exists rest,
                map hit_of (filter (matches_query query) (cards t)) = (hits ++ rest)%list)
         /\ (limit < 0
             \/ Z.of_nat (List.length (filter (matches_query query) (cards t))) <= limit ->
             hits = map hit_of (filter (matches_query query) (cards t)))).
Proof.
  destruct (search_cards_bound t query limit) as [Hin Hout].
  split; [exact Hout|].
  split.
  - intros Hfit Hshort; rewrite (Hin Hfit), pattern_length.
    replace (like_pattern_limit <? Z.of_nat (String.length query) + 2) with false
      by (symmetry; apply Z.ltb_ge; exact Hshort).
    rewrite andb_false_r; eauto.
  - intros hits Hok.
    assert (Hfit : fits_int64 limit).
    { destruct (Z_le_dec (- 2 ^ 63) limit) as [H1|H1];
        [destruct (Z_lt_dec limit (2 ^ 63)) as [H2|H2]; [now split|]|];
        rewrite Hout in Hok; try discriminate; unfold fits_int64; lia. }
    split; [exact Hfit|].
    rewrite (search_cards_ok t query limit hits Hok).
    unfold sql_limit.
    set (ms := filter (matches_query query) (cards t)).
    destruct (limit <? 0) eqn:Hneg.
    + apply Z.ltb_lt in Hneg.
      split; [lia|].
      split; [exists []; now rewrite app_nil_r | reflexivity].
    + apply Z.ltb_ge in Hneg.
      split; [|split].
      * intros _; rewrite length_map.
        pose proof (firstn_le_length (Z.to_nat limit) ms); lia.
      * destruct (firstn_prefix (Z.to_nat limit) ms) as [rest Hrest].
        exists (map hit_of rest); now rewrite <- map_app, <- Hrest.
      * intros [Hlt|Hle]; [lia|].
        rewrite firstn_all2; [reflexivity | lia].
Qed.

(** ** [get_stats]: the distributions *)

Lemma counts_total_perm (d d' : list (string * Z)) :
  Permutation d d' -> counts_total d = counts_total d'.
Proof.
  unfold counts_total; induction 1; simpl; lia.
Qed.

Section CountsTotal.

Variable f : card_row -> string.

Lemma count_group_cons (r : card_row) (rows : list card_row) (g : string) :
  count_group f (r :: rows) g
  = (if (f r =? g)%string then 1 else 0) + count_group f rows g.
Proof.
  unfold count_group; simpl; destruct (f r =? g)%string; cbn [Datatypes.length]; lia.
Qed.

(** One of pairwise different groups is the group of [r]. *)
Lemma indicator_total (x : string) (gs : list string) :
  NoDup gs -> In x gs ->
  fold_right Z.add 0 (map (fun g => if (x =? g)%string then 1 else 0) gs) = 1.
Proof.
  induction 1 as [|g gs Hg Hnd IH]; simpl; [contradiction|].
  intros [->|Hin].
  - rewrite String.eqb_refl.
    assert (Hz : fold_right Z.add 0
                   (map (fun g' => if (x =? g')%string then 1 else 0) gs) = 0).
    { clear IH Hnd; induction gs as [|g' gs IH']; simpl; [reflexivity|].
      destruct (String.eqb_spec x g') as [->|_]; [exfalso; apply Hg; now left|].
      rewrite IH'; [reflexivity | intros H; apply Hg; now right]. }
    lia.
  - destruct (String.eqb_spec x g) as [->|_]; [contradiction|].
    now rewrite (IH Hin).
Qed.

Lemma counts_over_groups (gs : list string) (rows : list card_row) :
  NoDup gs -> (forall r, In r rows -> In (f r) gs) ->
  counts_total (map (fun g => (g, count_group f rows g)) gs)
  = Z.of_nat (List.length rows).
Proof.
  intros Hnd; unfold counts_total; rewrite map_map; simpl.
  induction rows as [|r rows IH]; intros Hall.
  - unfold count_group; simpl.
    clear Hnd; induction gs as [|g gs IHg]; simpl; [reflexivity | now rewrite IHg].
  - assert (Hsplit : forall l : list string,
               fold_right Z.add 0 (map (fun g => count_group f (r :: rows) g) l)
               = fold_right Z.add 0 (map (fun g => if (f r =? g)%string then 1 else 0) l)
                 + fold_right Z.add 0 (map (fun g => count_group f rows g) l)).
    { induction l as [|g l IHl]; simpl; [reflexivity|].
      rewrite IHl, count_group_cons; lia. }
    rewrite Hsplit, IH, (indicator_total (f r) gs Hnd).
    + cbn [Datatypes.length]; lia.
    + apply Hall; now left.
    + intros r' Hr'; apply Hall; now right.
Qed.

Lemma group_counts_total (rows : list card_row) :
  counts_total (group_counts f rows) = Z.of_nat (List.length rows).
Proof.
  unfold group_counts.
  rewrite <- (counts_total_perm _ _ (order_by_count_desc_perm _)).
  apply counts_over_groups; [apply groups_of_NoDup | apply groups_of_In].
Qed.

Lemma groups_of_range (rows : list card_row) (g : string) :
  In g (groups_of f rows) -> exists r, In r rows /\ f r = g.
Proof.
  induction rows as [|r rows IH]; simpl; [contradiction|].
  intros [<-|Hin]; [exists r; split; [now left | reflexivity]|].
  apply filter_In in Hin as [Hin _].
  destruct (IH Hin) as (r' & Hr' & Hg); exists r'; split; [now right | exact Hg].
Qed.

Lemma group_counts_entries (rows : list card_row) (g : string) (n : Z) :
  In (g, n) (group_counts f rows) ->
  n = count_group f rows g /\ exists r, In r rows /\ f r = g.
Proof.
  unfold group_counts; intros Hin.
  apply (Permutation_in _ (Permutation_sym (order_by_count_desc_perm _))) in Hin.
  apply in_map_iff in Hin as (g' & [= <- <-] & Hg).
  split; [reflexivity | now apply groups_of_range].
Qed.

End CountsTotal.

Lemma color_group_range (r : card_row) : In (color_group r) color_groups.
Proof.
  unfold color_group, color_groups.
  repeat match goal with
         | |- context [if ?c then _ else _] => destruct c; [simpl; tauto|]
         end.
  simpl; tauto.
Qed.

Lemma type_group_range (r : card_row) : In (type_group r) type_groups.
Proof.
  unfold type_group, type_groups.
  repeat match goal with
         | |- context [if ?c then _ else _] => destruct c; [simpl; tauto|]
         end.
  simpl; tauto.
Qed.

(** X9.  The two distributions of [get_stats] are partitions of the
    table: the counts by color group add up to [total_cards], and so do
    the counts by type group; every entry is one of the seven color groups
    (of the eight type groups) with the number of rows of that group, and
    that number is positive. *)
Theorem get_stats_partitions (t : tables) :
  counts_total (stats_colors (get_stats t)) = total_cards (get_stats t)
  /\ counts_total (stats_types (get_stats t)) = total_cards (get_stats t)
  /\ (forall g n, In (g, n) (stats_colors (get_stats t)) ->
                  In g color_groups /\ 0 < n
                  /\ n = count_group color_group (cards t) g)
  /\ (forall g n, In (g, n) (stats_types (get_stats t)) ->
                  In g type_groups /\ 0 < n
                  /\ n = count_group type_group (cards t) g).
Proof.
  unfold get_stats; simpl.
  split; [apply group_counts_total|].
  split; [apply group_counts_total|].
  split; intros g n Hin.
  - apply group_counts_entries in Hin as (-> & r & Hr & <-).
    split; [apply color_group_range|].
    split; [exact (proj2 (group_counts_lookup color_group (cards t) r Hr)) | reflexivity].
  - apply group_counts_entries in Hin as (-> & r & Hr & <-).
    split; [apply type_group_range|].
    split; [exact (proj2 (group_counts_lookup type_group (cards t) r Hr)) | reflexivity].
Qed.

(** X10.  [last_updated] in the result of [get_stats] is the latest
    ingestion stamp in the table: a stamp some row carries, with no row
    carrying a later one; it is [None] exactly when no row carries a
    stamp, as in the empty table. *)
Theorem get_stats_last_updated (t : tables) :
  match stats_last_updated (get_stats t) with
  | None => forall r, In r (cards t) -> last_updated r = None
  | Some m =>
      In (Some m) (map last_updated (cards t))
      /\ forall x, In (Some x) (map last_updated (cards t)) -> String.ltb m x = false
  end.
Proof.
  unfold get_stats; simpl.
  destruct (fold_sql_max (map last_updated (cards t)) None) as (_ & Hall & Hor).
  simpl in Hall, Hor.
  destruct (fold_left sql_max (map last_updated (cards t)) None) as [m|].
  - destruct Hor as [Hor|Hor]; [discriminate|].
    split; [exact Hor | intros x Hx; exact (Hall _ Hx)].
  - intros r Hr.
    pose proof (Hall (last_updated r) (in_map _ _ _ Hr)) as Hle.
    destruct (last_updated r); [contradiction | reflexivity].
Qed.

(** ** Normalisation: the defaults *)

(** X11.  A record without [card_faces], [image_uris] and [prices] always
    normalises, whatever it holds under its other keys: each of the
    thirteen plain text fields is the record's value or the empty string
    when the key is missing, [cmc] defaults to 0.0, the two color lists go
    through [json.dumps] with the empty list as default, and the image and
    the three prices are [None]. *)
Theorem normalize_flat_record (E : env) (d : list (string * pyval)) (card_id : pyval)
  (Hfaces : assoc "card_faces" d = None)
  (Himage : assoc "image_uris" d = None)
  (Hprices : assoc "prices" d = None) :
  normalize E (PDict d) card_id =
  Ok [card_id;
      dict_get "name" (PStr "") d;
      dict_get "oracle_text" (PStr "") d;
      dict_get "mana_cost" (PStr "") d;
      dict_get "cmc" (PFloat 0%float) d;
      dict_get "type_line" (PStr "") d;
      dict_get "power" (PStr "") d;
      dict_get "toughness" (PStr "") d;
      dict_get "loyalty" (PStr "") d;
      PStr (json_dumps E (dict_get "colors" (PList []) d));
      PStr (json_dumps E (dict_get "color_identity" (PList []) d));
      dict_get "set" (PStr "") d;
      dict_get "set_name" (PStr "") d;
      dict_get "rarity" (PStr "") d;
      dict_get "artist" (PStr "") d;
      dict_get "released_at" (PStr "") d;
      PNone;
      dict_get "scryfall_uri" (PStr "") d;
      PNone; PNone; PNone].
Proof.
  unfold normalize, oracle_text_of, image_uri_of, price_of, get, contains, getitem,
    has_key.
  rewrite Hfaces, Himage; simpl.
  unfold dict_get; rewrite Hprices; reflexivity.
Qed.

Lemma normalize_flat_record_witness :
  normalize (serve []) (PDict [("id", PStr "m"); ("power", PStr "*")]) (PStr "m")
  = Ok [PStr "m"; PStr ""; PStr ""; PStr ""; PFloat 0%float; PStr ""; PStr "*"; PStr "";
        PStr ""; PStr "[]"; PStr "[]"; PStr ""; PStr ""; PStr ""; PStr ""; PStr "";
        PNone; PStr ""; PNone; PNone; PNone].
Proof.
  exact (normalize_flat_record (serve []) [("id", PStr "m"); ("power", PStr "*")]
           (PStr "m") eq_refl eq_refl eq_refl).
Defined.

(** ** [search_cards] on a query without pattern characters *)



(** ** Reading a card back *)

Lemma same_key_eq (a b : option string) : same_key a b = true <-> a = b.
Proof.
  destruct a as [x|], b as [y|]; simpl; split; try congruence; try reflexivity.
  - intros H; apply String.eqb_eq in H; now subst.
  - intros [= ->]; apply String.eqb_refl.
Qed.

Lemma dict_store_fresh (k v : option string) (d : list (option string * option string)) :
  ~ In k (map fst d) -> dict_store k v d = (d ++ [(k, v)])%list.
Proof.
  induction d as [|[k' v'] d IH]; simpl; intros Hn; [reflexivity|].
  destruct (same_key k k') eqn:Hk.
  - apply same_key_eq in Hk; subst; exfalso; apply Hn; now left.
  - rewrite IH; [reflexivity | intros Hin; apply Hn; now right].
Qed.

(** Rows with distinct formats become a dict with one entry per row, in
    the order of the rows. *)
Lemma dict_of_rows (rows : list legality) (acc : list (option string * option string)) :
  NoDup (map fst acc ++ map (fun l => snd (fst l)) rows) ->
  fold_left (fun d l => dict_store (snd (fst l)) (snd l) d) rows acc
  = (acc ++ map (fun l => (snd (fst l), snd l)) rows)%list.
Proof.
  revert acc; induction rows as [|l rows IH]; simpl; intros acc Hnd.
  - now rewrite app_nil_r.
  - rewrite dict_store_fresh.
    + rewrite IH.
      * now rewrite <- app_assoc.
      * rewrite map_app; simpl; rewrite <- app_assoc; exact Hnd.
    + apply NoDup_remove_2 in Hnd; intros Hin; apply Hnd, in_or_app; now left.
Qed.

Lemma legalities_run_ok (E : env) (card_id : pyval) (its : list (string * pyval))
  (seen : list legality) (u : unit) :
  fst (legalities_run E card_id its seen) = Ok u ->
  snd (legalities_run E card_id its seen) = map (legality_row E card_id) its.
Proof.
  revert seen; induction its as [|[f status] its IH]; simpl; intros seen H; [reflexivity|].
  destruct (bind_param card_id); [|discriminate].
  destruct (bind_param status); [|discriminate].
  match type of H with context [if ?c then _ else _] => destruct c end; [discriminate|].
  specialize (IH (seen ++ [legality_row E card_id (f, status)])%list).
  destruct (legalities_run E card_id its _) as [r rows]; simpl in *.
  now rewrite IH.
Qed.

Lemma keywords_run_ok (E : env) (card_id : pyval) (kws : list pyval)
  (seen : list keyword_row) (u : unit) :
  fst (keywords_run E card_id kws seen) = Ok u ->
  snd (keywords_run E card_id kws seen) = map (keyword_row_of E card_id) kws.
Proof.
  revert seen; induction kws as [|kw kws IH]; simpl; intros seen H; [reflexivity|].
  destruct (bind_param card_id); [|discriminate].
  destruct (bind_param kw); [|discriminate].
  match type of H with context [if ?c then _ else _] => destruct c end; [discriminate|].
  specialize (IH (seen ++ [keyword_row_of E card_id kw])%list).
  destruct (keywords_run E card_id kws _) as [r rows]; simpl in *.
  now rewrite IH.
Qed.

Lemma legalities_outcome_ok (E : env) (d : list (string * pyval)) (card_id : pyval)
  (u : unit) :
  fst (legalities_outcome E d card_id) = Ok u ->
  snd (legalities_outcome E d card_id) = map (legality_row E card_id) (legalities_of d).
Proof.
  unfold legalities_outcome, legalities_of.
  destruct (assoc "legalities" d) as [v|]; [|reflexivity].
  destruct v; simpl; try discriminate.
  apply legalities_run_ok.
Qed.

Lemma keywords_outcome_ok (E : env) (d : list (string * pyval)) (card_id : pyval)
  (u : unit) :
  fst (keywords_outcome E d card_id) = Ok u ->
  snd (keywords_outcome E d card_id) = map (keyword_row_of E card_id) (keywords_of d).
Proof.
  unfold keywords_outcome, keywords_of.
  destruct (assoc "keywords" d) as [v|]; [|reflexivity].
  destruct (truthy v); [|reflexivity].
  destruct (iter v); simpl; [|discriminate].
  apply keywords_run_ok.
Qed.

(** After the upsert of a row, a lookup by its id finds that row. *)
Lemma find_upsert_row (r : card_row) (cs : list card_row) (s : string) :
  id r = Some s ->
  find (fun r' => sql_eq (id r') (Some s)) (upsert_row r cs) = Some r.
Proof.
  intros Hid; unfold upsert_row; rewrite Hid.
  destruct (existsb (fun r' => sql_eq (id r') (Some s)) cs) eqn:Hex.
  - induction cs as [|c cs IH]; simpl in *; [discriminate|].
    destruct (sql_eq (id c) (Some s)) eqn:Hc.
    + apply sql_eq_true in Hc as [Hc _].
      rewrite set_columns_same_id by congruence.
      now rewrite Hid, sql_eq_some.
    + rewrite Hc; apply IH; exact Hex.
  - induction cs as [|c cs IH]; simpl in *.
    + now rewrite Hid, sql_eq_some.
    + apply orb_false_iff in Hex as [Hc Hex]; rewrite Hc; now apply IH.
Qed.

Lemma bind_params_cons_ok (v : pyval) (vs : list pyval) (xs : list sqlval) :
  bind_params (v :: vs) = Ok xs ->
  exists y ys, bind_param v = Ok y /\ bind_params vs = Ok ys /\ xs = y :: ys.
Proof.
  simpl; destruct (bind_param v) as [y|]; [|discriminate]; simpl.
  destruct (bind_params vs) as [ys|]; [|discriminate]; simpl.
  intros [= <-]; now exists y, ys.
Qed.

(** The two color columns of the row of a record hold what [json.dumps]
    made of the record's lists. *)
Lemma row_of_colors (E : env) (d : list (string * pyval)) (card_id : pyval)
  (rest : list pyval) (x stamp : sqlval) (xs : list sqlval) (r : card_row) :
  normalize E (PDict d) card_id = Ok (card_id :: rest) ->
  bind_params rest = Ok xs ->
  row_of E (x :: xs ++ [stamp]) = Some r ->
  colors r = Some (json_dumps E (dict_get "colors" (PList []) d))
  /\ color_identity r = Some (json_dumps E (dict_get "color_identity" (PList []) d)).
Proof.
  unfold normalize; intros H Hb Hr.
  unfold get in H.
  repeat match type of H with
         | rbind (Ok _) _ = Ok _ => cbn [rbind] in H
         | rbind ?m _ = Ok _ => destruct m; [|discriminate]
         end.
  injection H as <-.
  repeat (let y := fresh "y" in let ys := fresh "ys" in let Hy := fresh "Hy" in
          apply bind_params_cons_ok in Hb as (y & ys & Hy & Hb & ->)).
  injection Hb as <-.
  repeat match goal with
         | Hy : bind_param (PStr _) = Ok _ |- _ => injection Hy as <-
         end.
  unfold row_of in Hr; cbn [app] in Hr.
  injection Hr as <-; cbn [colors color_identity text_affinity]; split; reflexivity.
Qed.

Lemma formats_distinct (rows : list legality) (s : string) :
  (forall l, In l rows -> fst (fst l) = Some s) ->
  NoDup (map fst rows) -> NoDup (map (fun l => snd (fst l)) rows).
Proof.
  induction rows as [|l rows IH]; simpl; intros Hs Hnd; [constructor|].
  inversion Hnd as [|? ? Hout Hrest]; subst; constructor.
  - intros Hin; apply in_map_iff in Hin as (l' & Heq & Hin').
    apply Hout, in_map_iff; exists l'; split; [|exact Hin'].
    pose proof (Hs l (or_introl eq_refl)) as H1.
    pose proof (Hs l' (or_intror Hin')) as H2.
    destruct l as [[a b] c], l' as [[a' b'] c']; simpl in *; congruence.
  - apply IH; [intros l' Hin'; apply Hs; now right | exact Hrest].
Qed.

(** X13.  A card read back right after its upsert is the card that was
    written: when [process_card_page] in overwrite mode returns on a page
    of one keyed record, in a sound store, [get_card_details] on the
    record's id finds a row of [cards] with that id, hands back the two
    color lists of the record (as far as [json.loads] undoes
    [json.dumps] on them), a legalities dict with exactly one entry per
    format of the record, and exactly the record's keywords, in whatever
    order the engine hands out the rows. *)
Theorem get_card_details_after_upsert (R : reader) (E : env)
  (d : list (string * pyval)) (card_id : pyval) (w w' : world)
  (Hfair : fair R)
  (Hkeyed : keyed (PDict d)) (Hok : store_ok (db w))
  (Hid : assoc "id" d = Some card_id)
  (Hcolors : json_loads R (json_dumps E (dict_get "colors" (PList []) d))
             = Ok (dict_get "colors" (PList []) d))
  (Hidentity : json_loads R (json_dumps E (dict_get "color_identity" (PList []) d))
               = Ok (dict_get "color_identity" (PList []) d))
  (Hrun : process_card_page E (PList [PDict d]) true w = (Ok tt, w')) :
  exists det,
    get_card_details R E (db w') card_id = Ok (Some det)
    /\ In (details_row det) (cards (db w'))
    /\ id (details_row det) = text_cell E card_id
    /\ details_colors det = dict_get "colors" (PList []) d
    /\ details_color_identity det = dict_get "color_identity" (PList []) d
    /\ Permutation (details_legalities det) (legalities_read E d)
    /\ NoDup (map fst (details_legalities det))
    /\ Permutation (details_keywords det) (keywords_read E d).
Proof.
  destruct Hfair as [Hl Hk].
  apply page_of_one in Hrun as (w1 & Hcard & ->); cbn [db].
  rewrite (process_card_eq E d w Hkeyed Hok), Hid in Hcard.
  destruct (bind_param card_id) as [x|] eqn:Hx; [|discriminate].
  destruct (normalize E (PDict d) card_id) as [fields|] eqn:Hn; [|discriminate].
  destruct (normalize_head E _ _ _ Hn) as [rest ->]; cbn [tl] in Hcard.
  destruct (bind_params rest) as [xs|] eqn:Hb; [|discriminate].
  destruct (row_of E _) as [r|] eqn:Hr; [|discriminate].
  destruct (negb (is_some (name r))); [discriminate|].
  cbv zeta in Hcard.
  destruct (fst (legalities_outcome E d card_id)) as [u|] eqn:Hlo; [|discriminate].
  injection Hcard as Hko <-.
  destruct (keyed_id E d card_id x Hkeyed Hid Hx) as [s Hs].
  assert (Hcell : text_cell E card_id = Some s) by (unfold text_cell; now rewrite Hx).
  pose proof (row_of_id E x _ r Hr) as Hrid; rewrite Hs in Hrid.
  destruct (row_of_colors E d card_id rest x _ xs r Hn Hb Hr) as [Hc Hci].
  destruct (legalities_outcome_rows E d card_id s Hcell) as [Hls Hlnd].
  destruct (keywords_outcome_rows E d card_id s Hcell) as [Hks _].
  { intros kw Hkw; destruct Hkeyed as [_ Hkws]; now apply (Hkws d). }
  rewrite (legalities_outcome_ok E d card_id u Hlo) in Hls, Hlnd.
  destruct (fst (keywords_outcome E d card_id)) as [u'|] eqn:Hko'; [|discriminate].
  rewrite (keywords_outcome_ok E d card_id u' Hko') in Hks.
  unfold get_card_details; rewrite Hx; cbn [rbind]; rewrite Hs.
  unfold add_keyword_rows, add_legality_rows, with_db, tick;
    cbn [db cards legalities keywords].
  rewrite (find_upsert_row r _ s Hrid).
  unfold loads_cell; rewrite Hc, Hci, Hcolors, Hidentity; cbn [rbind].
  eexists; split; [reflexivity|].
  cbn [details_row details_colors details_color_identity details_legalities
       details_keywords].
  rewrite (legalities_outcome_ok E d card_id u Hlo),
          (keywords_outcome_ok E d card_id u' Hko').
  rewrite !filter_app.
  rewrite !filter_filter_negb; cbn [app].
  rewrite (filter_all _ (map (legality_row E card_id) (legalities_of d))).
  2:{ intros l Hin; rewrite (Hls l Hin); now apply sql_eq_some. }
  rewrite (filter_all _ (map (keyword_row_of E card_id) (keywords_of d))).
  2:{ intros k Hin; rewrite (Hks k Hin); now apply sql_eq_some. }
  set (rows := map (legality_row E card_id) (legalities_of d)) in *.
  assert (Hkeys : NoDup (map (fun l : legality => snd (fst l)) (legalities_order R rows))).
  { apply (Permutation_NoDup (l := map (fun l : legality => snd (fst l)) rows)).
    - apply Permutation_map, Permutation_sym, Hl.
    - now apply (formats_distinct rows s). }
  rewrite (dict_of_rows (legalities_order R rows) []) by exact Hkeys; cbn [app].
  split; [| split; [| split; [| split; [| split; [| split]]]]].
  - exact (proj1 (find_some _ _ (find_upsert_row r (cards (db w)) s Hrid))).
  - now rewrite Hcell.
  - reflexivity.
  - reflexivity.
  - unfold legalities_read.
    replace (map (fun item => (Some (fst item), text_cell E (snd item))) (legalities_of d))
      with (map (fun l : legality => (snd (fst l), snd l)) rows)
      by (unfold rows; now rewrite map_map).
    apply Permutation_map, Hl.
  - now rewrite map_map.
  - unfold keywords_read.
    replace (map (text_cell E) (keywords_of d))
      with (map snd (map (keyword_row_of E card_id) (keywords_of d)))
      by now rewrite map_map.
    apply Permutation_map, Hk.
Qed.

Lemma get_card_details_after_upsert_witness :
  exists det,
    get_card_details example_reader (serve []) (db world_before) (PStr "x") = Ok (Some det)
    /\ In (details_row det) (cards (db world_before))
    /\ id (details_row det) = text_cell (serve []) (PStr "x")
    /\ details_colors det = dict_get "colors" (PList []) bolt_before
    /\ details_color_identity det = dict_get "color_identity" (PList []) bolt_before
    /\ Permutation (details_legalities det) (legalities_read (serve []) bolt_before)
    /\ NoDup (map fst (details_legalities det))
    /\ Permutation (details_keywords det) (keywords_read (serve []) bolt_before).
Proof.
  apply (get_card_details_after_upsert example_reader (serve []) bolt_before (PStr "x")
           empty_world world_before).
  - split; intros l; apply Permutation_refl.
  - split.
    + intros card_id H; vm_compute in H; injection H as <-; unfold not_null; discriminate.
    + intros d kw Hd Hin; injection Hd as <-; vm_compute in Hin.
      destruct Hin as [<-|[]]; unfold not_null; discriminate.
  - exact no_tables_ok.
  - reflexivity.
  - reflexivity.
  - reflexivity.
  - vm_compute; reflexivity.
Defined.

(** X14.  [get_card_details] answers [None] exactly when the id can be
    bound and no row of [cards] carries it.  A failure is raised, never
    turned into [None]: the failure of the binding; for the row that is
    found, TypeError when its [colors] or its [color_identity] is NULL,
    and whatever [json.loads] raises on them.  When both decode, the
    answer is the found row with the two decoded values.  [None] as id
    finds nothing, whatever is stored: NULL equals no id. *)
Theorem get_card_details_none_iff (R : reader) (E : env) (t : tables) (card_id : pyval) :
  (get_card_details R E t card_id = Ok None
   <-> exists k, bind_param card_id = Ok k
                 /\ forall r, In r (cards t) -> sql_eq (id r) (text_affinity E k) = false)
  /\ (forall e, bind_param card_id = Raise e -> get_card_details R E t card_id = Raise e)
  /\ (forall k r,
         bind_param card_id = Ok k ->
         find (fun r => sql_eq (id r) (text_affinity E k)) (cards t) = Some r ->
         (colors r = None -> get_card_details R E t card_id = Raise TypeError)
         /\ (forall c e, colors r = Some c -> json_loads R c = Raise e ->
                         get_card_details R E t card_id = Raise e)
         /\ (forall c v, colors r = Some c -> json_loads R c = Ok v ->
                         color_identity r = None ->
                         get_card_details R E t card_id = Raise TypeError)
         /\ (forall c v c' e, colors r = Some c -> json_loads R c = Ok v ->
                              color_identity r = Some c' -> json_loads R c' = Raise e ->
                              get_card_details R E t card_id = Raise e)
         /\ (forall c v c' v', colors r = Some c -> json_loads R c = Ok v ->
                               color_identity r = Some c' -> json_loads R c' = Ok v' ->
                               exists det,
                                 get_card_details R E t card_id = Ok (Some det)
                                 /\ details_row det = r
                                 /\ details_colors det = v
                                 /\ details_color_identity det = v'))
  /\ get_card_details R E t PNone = Ok None.
Proof.
  assert (Hnone : forall k,
            find (fun r => sql_eq (id r) (text_affinity E k)) (cards t) = None
            <-> forall r, In r (cards t) -> sql_eq (id r) (text_affinity E k) = false).
  { intros k; split; [intros H r Hr; exact (find_none _ _ H r Hr)|].
    intros H; induction (cards t) as [|c cs IH]; simpl; [reflexivity|].
    rewrite (H c (or_introl eq_refl)); apply IH; intros r Hr; apply H; now right. }
  split; [|split; [|split]].
  - unfold get_card_details.
    destruct (bind_param card_id) as [k|e]; cbn [rbind].
    + destruct (find _ (cards t)) as [r|] eqn:Hf.
      * split.
        -- destruct (loads_cell R (colors r)); cbn [rbind]; [|discriminate].
           destruct (loads_cell R (color_identity r)); cbn [rbind]; discriminate.
        -- intros (k' & [= <-] & Hall); apply Hnone in Hall; congruence.
      * split; [intros _; exists k; split; [reflexivity | now apply Hnone] | reflexivity].
    + split; [discriminate | intros (k & Hk & _); discriminate].
  - intros e He; unfold get_card_details; now rewrite He.
  - intros k r Hk Hf; unfold get_card_details; rewrite Hk; cbn [rbind]; rewrite Hf.
    unfold loads_cell.
    split; [intros ->; reflexivity|].
    split; [intros c e -> ->; reflexivity|].
    split; [intros c v -> -> ->; reflexivity|].
    split; [intros c v c' e -> -> -> ->; reflexivity|].
    intros c v c' v' -> -> -> ->; cbn [rbind].
    eexists; repeat split.
  - unfold get_card_details; cbn [bind_param rbind text_affinity].
    replace (find _ (cards t)) with (@None card_row); [reflexivity|].
    symmetry; apply (Hnone SNull); intros r _; now destruct (id r).
Qed.
(** ** A sync of one page *)

Lemma more_pages_last (fuel : nat) (E : env) (update_existing : bool)
  (report : Z -> pyval -> msg) (dd : list (string * pyval)) (total : pyval) (n : Z)
  (w : world) :
  truthy (dict_get "has_more" (PBool false) dd) = false ->
  more_pages fuel E update_existing report (PDict dd) total n w = (Ok true, w).
Proof.
  intros H; destruct fuel; simpl; unfold bind, lift, get; simpl; now rewrite H.
Qed.

Lemma ingest_page_eq (E : env) (update_existing : bool) (report : Z -> pyval -> msg)
  (dd : list (string * pyval)) (page total : pyval) (n0 : Z) (w : world) :
  assoc "data" dd = Some page ->
  ingest_page E update_existing report (PDict dd) total n0 w =
  match process_card_page E page update_existing w with
  | (Ok _, w1) =>
      match len page with
      | Ok n => (Ok (n0 + n), with_line w1 (report (n0 + n) total))
      | Raise e => (Raise e, w1)
      end
  | (Raise e, w1) => (Raise e, w1)
  end.
Proof.
  intros H; unfold ingest_page, bind, lift, getitem; rewrite H; cbn [fst snd].
  destruct (process_card_page E page update_existing w) as [[[]|e] w1]; [|reflexivity].
  destruct (len page); reflexivity.
Qed.

(** X15.  When the remote answers the date-bounded query with 200 and a
    single page (no [has_more]), [update_database] returns, having sent
    that one request, and the store and what is committed are what
    [process_card_page] in overwrite mode leaves on the page: committed
    rows when it returns, the rows written so far and nothing committed
    when it raises. *)
Theorem update_database_single_page (fuel : nat) (E : env) (w : world)
  (dd : list (string * pyval)) (page : pyval)
  (Hget : http_get E (search_url (last_update_date (db w))) = Response 200 (Ok (PDict dd)))
  (Hdata : assoc "data" dd = Some page)
  (Hlast : truthy (dict_get "has_more" (PBool false) dd) = false) :
  let url := search_url (last_update_date (db w)) in
  let w0 := with_line (at_first_page w url [UpdatingSince (last_update_date (db w))])
                      (FoundNew (dict_get "total_cards" (PInt 0) dd)) in
  let paged := process_card_page E page true w0 in
  fst (update_database fuel E w) = Ok true
  /\ db (snd (update_database fuel E w)) = db (snd paged)
  /\ committed (snd (update_database fuel E w)) = committed (snd paged)
  /\ requested (snd (update_database fuel E w)) = (requested w ++ [url])%list.
Proof.
  intros url w0 paged.
  assert (Hreq : requested (snd paged) = requested w0).
  { apply (preserves_process_card_page same_requests); unfold same_requests.
    - reflexivity.
    - intros a b c H1 H2; now rewrite H2.
    - intros a b H _; exact H.
    - reflexivity. }
  unfold update_database.
  unfold bind, query, print, try_except, requests_get, lift, ret, get.
  cbn [fst snd db committed ticks requested stdout].
  unfold url; rewrite Hget; cbn [fst snd Z.eqb Pos.eqb negb].
  rewrite (ingest_page_eq E true ProcessedNew dd page _ 0 _ Hdata).
  change (process_card_page E page true _) with paged.
  destruct paged as [[[]|e] w1]; cbn [snd] in *.
  - destruct (len page) as [n|e]; cbn [fst snd].
    + rewrite (more_pages_last fuel E true ProcessedNew dd _ _ _ Hlast); cbn [fst snd].
      repeat split; exact Hreq.
    + repeat split; exact Hreq.
  - repeat split; exact Hreq.
Qed.

Lemma update_database_single_page_witness :
  fst (update_database 0 (serve [PDict bolt_before]) empty_world) = Ok true
  /\ db (snd (update_database 0 (serve [PDict bolt_before]) empty_world)) = db world_before
  /\ committed (snd (update_database 0 (serve [PDict bolt_before]) empty_world))
     = db world_before
  /\ requested (snd (update_database 0 (serve [PDict bolt_before]) empty_world))
     = [search_url "2000-01-01"].
Proof.
  destruct (update_database_single_page 0 (serve [PDict bolt_before]) empty_world
              [("data", PList [PDict bolt_before]); ("has_more", PBool false);
               ("total_cards", PInt 1)]
              (PList [PDict bolt_before]) eq_refl eq_refl eq_refl)
    as (H1 & H2 & H3 & H4).
  split; [exact H1|].
  split; [rewrite H2; vm_compute; reflexivity|].
  split; [rewrite H3; vm_compute; reflexivity|].
  exact H4.
Defined.
(** ** An update without a page *)

(** X16.  [update_database] touches the store only when the remote
    answers its query with 200 and a JSON body: on any other outcome (the
    transport fails, another status, a body that is no JSON) it returns
    after that one request with the tables and what is committed as they
    were. *)
Theorem update_database_without_page (fuel : nat) (E : env) (w : world)
  (Hno : forall data, http_get E (search_url (last_update_date (db w)))
                      <> Response 200 (Ok data)) :
  fst (update_database fuel E w) = Ok true
  /\ db (snd (update_database fuel E w)) = db w
  /\ committed (snd (update_database fuel E w)) = committed w
  /\ requested (snd (update_database fuel E w))
     = (requested w ++ [search_url (last_update_date (db w))])%list.
Proof.
  unfold update_database.
  unfold bind, query, print, try_except, requests_get, lift, ret, get.
  cbn [fst snd db committed ticks requested stdout].
  destruct (http_get E (search_url (last_update_date (db w)))) as [|code json] eqn:Hget;
    cbn [fst snd]; [repeat split|].
  destruct (code =? 404) eqn:H404; cbn [fst snd]; [repeat split|].
  destruct (code =? 200) eqn:H200; cbn [fst snd negb]; [|repeat split].
  apply Z.eqb_eq in H200; subst code.
  destruct json as [data|e]; [now elim (Hno data) | repeat split].
Qed.

Lemma update_database_without_page_witness :
  fst (update_database 0 cut_short world_before) = Ok true
  /\ db (snd (update_database 0 cut_short world_before)) = db world_before
  /\ committed (snd (update_database 0 cut_short world_before)) = committed world_before
  /\ requested (snd (update_database 0 cut_short world_before))
     = (requested world_before ++ [search_url (last_update_date (db world_before))])%list.
Proof.
  apply (update_database_without_page 0 cut_short world_before).
  intros data H; vm_compute in H; discriminate H.
Defined.

(** ** The dependent rows of a card that is upserted *)

(** The UPDATE branch of lines 256-271, for a card that is there. *)
Lemma write_card_update_effect (E : env) (card_id : pyval) (x : sqlval) (s stamp : string)
  (rest : list pyval) (w : world) :
  bind_param card_id = Ok x -> text_affinity E x = Some s ->
  existsb (fun r => sql_eq (id r) (Some s)) (cards (db w)) = true ->
  write_card E true card_id (card_id :: rest ++ [PStr stamp]) w =
  match bind_params rest with
  | Raise e => (Raise e, w)
  | Ok xs =>
      match row_of E (x :: xs ++ [SText stamp]) with
      | None => (Raise InterfaceError, w)
      | Some r =>
          if negb (is_some (name r)) then (Raise IntegrityError, w)
          else (Ok tt,
                with_db w
                  {| cards := upsert_row r (cards (db w));
                     legalities := filter (fun l => negb (legality_of (Some s) l))
                                          (legalities (db w));
                     keywords := filter (fun k => negb (keyword_of (Some s) k))
                                        (keywords (db w)) |})
      end
  end.
Proof.
  intros Hx Hs Hex; unfold write_card.
  unfold bind at 1, execute at 1, update_card.
  simpl tl; rewrite !bind_params_app; simpl bind_params; rewrite Hx.
  destruct (bind_params rest) as [xs|e]; simpl; [|reflexivity].
  rewrite last_snoc, removelast_snoc.
  destruct (row_of E (x :: xs ++ [SText stamp])) as [r|] eqn:Hr; [|reflexivity].
  pose proof (row_of_id E x _ r Hr) as Hid; rewrite Hs in Hid.
  rewrite Hid, Hex; simpl andb.
  destruct (negb (is_some (name r))); [reflexivity|].
  unfold bind, execute, delete_legalities, delete_keywords; simpl.
  rewrite Hx; simpl; rewrite Hs.
  unfold upsert_row; rewrite Hid, Hex; reflexivity.
Qed.

(** One turn of the loop in overwrite mode on a record whose card is
    there, written out: where it can raise, and what it has written by
    then. *)
Lemma process_card_update_eq (E : env) (d : list (string * pyval)) (card_id : pyval)
  (x : sqlval) (s : string) (w : world) :
  assoc "id" d = Some card_id ->
  bind_param card_id = Ok x -> text_affinity E x = Some s ->
  existsb (fun r => sql_eq (id r) (Some s)) (cards (db w)) = true ->
  process_card E true (PDict d) w =
  match normalize E (PDict d) card_id with
  | Raise e => (Raise e, w)
  | Ok fields =>
      match bind_params (tl fields) with
      | Raise e => (Raise e, tick w)
      | Ok xs =>
          match row_of E (x :: xs ++ [SText (now E (ticks w))]) with
          | None => (Raise InterfaceError, tick w)
          | Some r =>
              if negb (is_some (name r)) then (Raise IntegrityError, tick w)
              else
                let w1 :=
                  with_db (tick w)
                    {| cards := upsert_row r (cards (db w));
                       legalities :=
                         filter (fun l => negb (legality_of (Some s) l))
                                (legalities (db w));
                       keywords :=
                         filter (fun k => negb (keyword_of (Some s) k))
                                (keywords (db w)) |} in
                let w2 :=
                  add_legality_rows w1 (snd (legalities_outcome E d card_id)) in
                match fst (legalities_outcome E d card_id) with
                | Raise e => (Raise e, w2)
                | Ok _ =>
                    (fst (keywords_outcome E d card_id),
                     add_keyword_rows w2 (snd (keywords_outcome E d card_id)))
                end
          end
      end
  end.
Proof.
  intros Hid Hx Hs Hex.
  unfold process_card.
  unfold bind at 1, lift at 1, getitem; rewrite Hid.
  unfold bind at 1, query at 1, select_id; rewrite Hx.
  cbn [rbind fst snd negb]; rewrite andb_false_r, Hs, Hex.
  unfold bind at 1, lift at 1.
  destruct (normalize E (PDict d) card_id) as [fields|e] eqn:Hn; [|reflexivity].
  destruct (normalize_head E _ _ _ Hn) as [rest ->]; cbn [tl].
  assert (Hcell : text_cell E card_id = Some s) by (unfold text_cell; now rewrite Hx).
  unfold bind at 1, datetime_now at 1.
  unfold bind at 1.
  match goal with
  | |- context [write_card E true card_id ?cd ?w1] =>
      change (write_card E true card_id cd w1)
        with (write_card E true
                card_id (card_id :: rest ++ [PStr (now E (ticks w))]) (tick w))
  end.
  rewrite (write_card_update_effect E card_id x s (now E (ticks w)) rest (tick w) Hx Hs Hex).
  destruct (bind_params rest) as [xs|e]; [|reflexivity].
  destruct (row_of E (x :: xs ++ [SText (now E (ticks w))])) as [r|]; [|reflexivity].
  destruct (negb (is_some (name r))); [reflexivity|].
  unfold bind at 1.
  rewrite (add_legalities_cleared E d card_id s _ Hcell)
    by apply (filter_filter_negb (legality_of (Some s))).
  cbv zeta.
  destruct (fst (legalities_outcome E d card_id)) as [[]|e]; [|reflexivity].
  rewrite (add_keywords_cleared E d card_id s _ Hcell)
    by apply (filter_filter_negb (keyword_of (Some s))).
  reflexivity.
Qed.

Lemma legalities_run_prefix (E : env) (card_id : pyval) (its : list (string * pyval))
  (seen : list legality) :
  exists rest, map (legality_row E card_id) its
               = (snd (legalities_run E card_id its seen) ++ rest)%list.
Proof.
  revert seen; induction its as [|[f st] its IH]; intros seen; simpl; [now exists []|].
  destruct (bind_param card_id); [|eexists; reflexivity].
  destruct (bind_param st); [|eexists; reflexivity].
  match goal with |- context [if ?c then _ else _] => destruct c end;
    [eexists; reflexivity|].
  destruct (IH (seen ++ [legality_row E card_id (f, st)])%list) as [rest Hrest].
  destruct (legalities_run E card_id its _) as [r rows]; simpl in *.
  exists rest; now rewrite Hrest.
Qed.

Lemma keywords_run_prefix (E : env) (card_id : pyval) (kws : list pyval)
  (seen : list keyword_row) :
  exists rest, map (keyword_row_of E card_id) kws
               = (snd (keywords_run E card_id kws seen) ++ rest)%list.
Proof.
  revert seen; induction kws as [|kw kws IH]; intros seen; simpl; [now exists []|].
  destruct (bind_param card_id); [|eexists; reflexivity].
  destruct (bind_param kw); [|eexists; reflexivity].
  match goal with |- context [if ?c then _ else _] => destruct c end;
    [eexists; reflexivity|].
  destruct (IH (seen ++ [keyword_row_of E card_id kw])%list) as [rest Hrest].
  destruct (keywords_run E card_id kws _) as [r rows]; simpl in *.
  exists rest; now rewrite Hrest.
Qed.

(** Whether the loops got through or not, the rows they wrote are a
    leading part of the rows of the record. *)
Lemma legalities_outcome_prefix (E : env) (d : list (string * pyval)) (card_id : pyval) :
  exists rest, map (legality_row E card_id) (legalities_of d)
               = (snd (legalities_outcome E d card_id) ++ rest)%list.
Proof.
  unfold legalities_outcome, legalities_of.
  destruct (assoc "legalities" d) as [v|]; [|now exists []].
  destruct v; simpl; try (eexists; reflexivity).
  apply legalities_run_prefix.
Qed.

Lemma keywords_outcome_prefix (E : env) (d : list (string * pyval)) (card_id : pyval) :
  exists rest, map (keyword_row_of E card_id) (keywords_of d)
               = (snd (keywords_outcome E d card_id) ++ rest)%list.
Proof.
  unfold keywords_outcome, keywords_of.
  destruct (assoc "keywords" d) as [v|]; [|now exists []].
  destruct (truthy v); [|now exists []].
  destruct (iter v); simpl; [|now exists []].
  apply keywords_run_prefix.
Qed.

Lemma sql_eq_differ (a b : option string) : a <> b -> sql_eq a b = false.
Proof.
  destruct a as [x|], b as [y|]; simpl; try reflexivity.
  intros Hne; apply String.eqb_neq; congruence.
Qed.

Lemma legalities_run_returns (E : env) (card_id : pyval) (x : sqlval)
  (its : list (string * pyval)) (seen : list legality) :
  bind_param card_id = Ok x ->
  Forall (fun it => exists y, bind_param (snd it) = Ok y) its ->
  NoDup (map fst its) ->
  (forall l it, In l seen -> In it its -> snd (fst l) <> Some (fst it)) ->
  fst (legalities_run E card_id its seen) = Ok tt.
Proof.
  intros Hx; revert seen; induction its as [|[f st] its IH]; intros seen Hb Hnd Hseen;
    simpl; [reflexivity|].
  rewrite Hx.
  inversion Hb as [|? ? [y Hy] Hb']; subst; simpl in Hy; rewrite Hy.
  inversion Hnd as [|? ? Hout Hnd']; subst.
  replace (existsb _ seen) with false.
  2:{ symmetry; apply not_true_is_false; intros Hex.
      apply existsb_exists in Hex as (l & Hl & Hm).
      apply andb_prop in Hm as [_ Hm]; apply sql_eq_true in Hm as [Hm _].
      exact (Hseen l (f, st) Hl (or_introl eq_refl) Hm). }
  specialize (IH (seen ++ [legality_row E card_id (f, st)])%list Hb' Hnd').
  destruct (legalities_run E card_id its _) as [r rows]; simpl in *.
  apply IH; intros l it Hl Hit.
  apply in_app_or in Hl as [Hl|[<-|[]]].
  - apply (Hseen l it Hl); now right.
  - simpl; intros [= Heq]; apply Hout; rewrite Heq; now apply in_map.
Qed.

Lemma keywords_run_returns (E : env) (card_id : pyval) (x : sqlval)
  (kws : list pyval) (seen : list keyword_row) :
  bind_param card_id = Ok x ->
  Forall (fun kw => exists y, bind_param kw = Ok y) kws ->
  NoDup (filter is_some (map (text_cell E) kws)) ->
  (forall r kw, In r seen -> In kw kws -> sql_eq (snd r) (text_cell E kw) = false) ->
  fst (keywords_run E card_id kws seen) = Ok tt.
Proof.
  intros Hx; revert seen; induction kws as [|kw kws IH]; intros seen Hb Hnd Hseen;
    simpl; [reflexivity|].
  rewrite Hx.
  inversion Hb as [|? ? [y Hy] Hb']; subst; rewrite Hy.
  replace (existsb _ seen) with false.
  2:{ symmetry; apply not_true_is_false; intros Hex.
      apply existsb_exists in Hex as (r & Hr & Hm).
      apply andb_prop in Hm as [_ Hm].
      rewrite (Hseen r kw Hr (or_introl eq_refl)) in Hm; discriminate. }
  assert (Hnd' : NoDup (filter is_some (map (text_cell E) kws))).
  { simpl in Hnd; destruct (is_some (text_cell E kw)); [now inversion Hnd | exact Hnd]. }
  specialize (IH (seen ++ [keyword_row_of E card_id kw])%list Hb' Hnd').
  destruct (keywords_run E card_id kws _) as [r rows]; simpl in *.
  apply IH; intros r' kw' Hr' Hkw'.
  apply in_app_or in Hr' as [Hr'|[<-|[]]].
  - apply (Hseen r' kw' Hr'); now right.
  - simpl; destruct (text_cell E kw) as [c|] eqn:Hc; [|reflexivity].
    apply sql_eq_differ; intros Heq.
    simpl in Hnd; inversion Hnd as [|? ? Hout _]; subst.
    apply Hout, filter_In; split; [rewrite Heq; now apply in_map | reflexivity].
Qed.

Lemma page_of_one_eq (E : env) (card : pyval) (update_existing : bool) (w : world) :
  process_card_page E (PList [card]) update_existing w =
  match process_card E update_existing card w with
  | (Ok _, w1) => (Ok tt, committed_now w1)
  | (Raise e, w1) => (Raise e, w1)
  end.
Proof.
  unfold process_card_page, bind, lift; simpl; unfold bind.
  destruct (process_card E update_existing card w) as [[[]|e] w1]; reflexivity.
Qed.

Lemma replaced_rows {A} (p : A -> bool) (old new : list A) :
  (forall x, In x new -> p x = true) ->
  filter p (filter (fun x => negb (p x)) old ++ new) = new
  /\ filter (fun x => negb (p x)) (filter (fun x => negb (p x)) old ++ new)
     = filter (fun x => negb (p x)) old.
Proof.
  intros Hnew; rewrite !filter_app.
  rewrite (filter_filter_negb p), (filter_all p new Hnew).
  rewrite (filter_negb_filter_negb p).
  rewrite (filter_none (fun x => negb (p x)) new)
    by (intros x Hx; now rewrite (Hnew x Hx)).
  now rewrite app_nil_r.
Qed.

Lemma own_legalities (E : env) (d : list (string * pyval)) (card_id : pyval) (s : string) :
  text_cell E card_id = Some s ->
  forall l, In l (snd (legalities_outcome E d card_id)) -> legality_of (Some s) l = true.
Proof.
  intros Hs l Hl.
  destruct (legalities_outcome_prefix E d card_id) as [rest Hrest].
  assert (Hin : In l (map (legality_row E card_id) (legalities_of d)))
    by (rewrite Hrest; apply in_or_app; now left).
  apply in_map_iff in Hin as (it & <- & _).
  unfold legality_of, legality_row; simpl; rewrite Hs; apply sql_eq_refl.
Qed.

Lemma own_keywords (E : env) (d : list (string * pyval)) (card_id : pyval) (s : string) :
  text_cell E card_id = Some s ->
  forall x, In x (snd (keywords_outcome E d card_id)) -> keyword_of (Some s) x = true.
Proof.
  intros Hs x Hx.
  destruct (keywords_outcome_prefix E d card_id) as [rest Hrest].
  assert (Hin : In x (map (keyword_row_of E card_id) (keywords_of d)))
    by (rewrite Hrest; apply in_or_app; now left).
  apply in_map_iff in Hin as (kw & <- & _).
  unfold keyword_of, keyword_row_of; simpl; rewrite Hs; apply sql_eq_refl.
Qed.

Lemma legalities_outcome_returns (E : env) (d : list (string * pyval)) (card_id : pyval)
  (x : sqlval) :
  bind_param card_id = Ok x -> sound_legalities d ->
  fst (legalities_outcome E d card_id) = Ok tt.
Proof.
  intros Hx; unfold sound_legalities, legalities_outcome.
  destruct (assoc "legalities" d) as [v|]; [|reflexivity].
  intros (its & -> & Hnd & Hb); simpl.
  apply (legalities_run_returns E card_id x its [] Hx Hb Hnd).
  intros l it [].
Qed.

Lemma keywords_outcome_returns (E : env) (d : list (string * pyval)) (card_id : pyval)
  (x : sqlval) :
  bind_param card_id = Ok x -> sound_keywords E d ->
  fst (keywords_outcome E d card_id) = Ok tt.
Proof.
  intros Hx; unfold sound_keywords, keywords_outcome.
  destruct (assoc "keywords" d) as [v|]; [|reflexivity].
  intros [-> | (kws & Hit & Hb & Hnd)]; [reflexivity|].
  destruct (truthy v); [|reflexivity].
  rewrite Hit.
  apply (keywords_run_returns E card_id x kws [] Hx Hb Hnd).
  intros r kw [].
Qed.

Lemma bind_params_length (vs : list pyval) (xs : list sqlval) :
  bind_params vs = Ok xs -> List.length xs = List.length vs.
Proof.
  revert xs; induction vs as [|v vs IH]; simpl; intros xs.
  - now intros [= <-].
  - destruct (bind_param v); simpl; [|discriminate].
    destruct (bind_params vs) as [ys|]; simpl; [|discriminate].
    intros [= <-]; simpl; now rewrite (IH ys).
Qed.

Lemma normalize_length (E : env) (card card_id : pyval) (fields : list pyval) :
  normalize E card card_id = Ok fields -> List.length fields = 21%nat.
Proof.
  unfold normalize; intros H.
  repeat match type of H with
         | rbind ?m _ = Ok _ => destruct m; simpl in H; [|discriminate]
         end.
  now injection H as <-.
Qed.

Lemma row_of_name (E : env) (vals : list sqlval) :
  List.length vals = 22%nat ->
  exists r, row_of E vals = Some r /\ name r = text_affinity E (nth 1 vals SNull).
Proof.
  intros Hlen; unfold row_of.
  do 22 (destruct vals as [|? vals]; [discriminate|]).
  destruct vals; [|discriminate].
  eexists; split; reflexivity.
Qed.

(** A writable record gets through the UPDATE. *)
Lemma writable_row (E : env) (d : list (string * pyval)) (card_id : pyval) (x : sqlval)
  (stamp : string) :
  writable E d card_id -> bind_param card_id = Ok x ->
  exists fields xs r,
    normalize E (PDict d) card_id = Ok fields
    /\ bind_params (tl fields) = Ok xs
    /\ row_of E (x :: xs ++ [SText stamp]) = Some r
    /\ is_some (name r) = true.
Proof.
  intros (fields & vals & Hn & Hb & Hname) Hx.
  pose proof (normalize_length E _ _ _ Hn) as Hlen.
  destruct (normalize_head E _ _ _ Hn) as [rest ->].
  simpl in Hb; rewrite Hx in Hb; simpl in Hb.
  destruct (bind_params rest) as [xs|] eqn:Hrest; [|discriminate].
  injection Hb as <-.
  pose proof (bind_params_length rest xs Hrest) as Hxs.
  destruct (row_of_name E (x :: xs ++ [SText stamp])) as (r & Hr & Hnm).
  { simpl in *; rewrite length_app; simpl; lia. }
  exists (card_id :: rest), xs, r; repeat split; try assumption.
  rewrite Hnm.
  assert (Hnth : nth 1 (x :: xs ++ [SText stamp]) SNull = nth 1 (x :: xs) SNull).
  { destruct xs; [simpl in *; lia | reflexivity]. }
  rewrite Hnth; destruct (nth 1 (x :: xs) SNull); try reflexivity.
  now elim Hname.
Qed.

(** A failure before the UPDATE went through leaves every row where it
    was. *)
Ltac untouched :=
  cbn [fst snd tick db committed];
  split; [reflexivity|];
  split; [reflexivity|];
  split; [discriminate|];
  split; [intros ? _; split; [reflexivity | left; split; reflexivity]|].

(** C2, as the code has it.  In update mode, on a page of one record
    whose id is in the store, old and new dependent rows never mix, and
    the rows of every other card stay as they were.  When the call
    returns, the rows of [legalities] under that id are the items of the
    record's [legalities], one row each and in their order, the rows of
    [keywords] under that id are the record's keywords, and the page is
    committed.  When it raises, nothing is committed, and the connection
    holds under that id either the rows from before the call, all of
    them, or a leading part of the record's rows and no other.  It
    returns when the record normalises with values that can be bound and
    a name that is not NULL, its legalities are an object of pairwise
    different formats with statuses that can be bound, and its keywords
    can be bound and are pairwise different. *)
Theorem upsert_replaces_legalities_and_keywords (E : env) (w : world)
  (d : list (string * pyval)) (card_id : pyval) (s : string)
  (Hid : assoc "id" d = Some card_id)
  (Hkey : text_cell E card_id = Some s)
  (Hpresent : existsb (fun r => sql_eq (id r) (Some s)) (cards (db w)) = true) :
  let run := process_card_page E (PList [PDict d]) true w in
  filter (fun l => negb (legality_of (Some s) l)) (legalities (db (snd run)))
  = filter (fun l => negb (legality_of (Some s) l)) (legalities (db w))
  /\ filter (fun x => negb (keyword_of (Some s) x)) (keywords (db (snd run)))
     = filter (fun x => negb (keyword_of (Some s) x)) (keywords (db w))
  /\ (fst run = Ok tt ->
      filter (legality_of (Some s)) (legalities (db (snd run)))
      = map (legality_row E card_id) (legalities_of d)
      /\ filter (keyword_of (Some s)) (keywords (db (snd run)))
         = map (keyword_row_of E card_id) (keywords_of d)
      /\ committed (snd run) = db (snd run))
  /\ (forall e, fst run = Raise e ->
      committed (snd run) = committed w
      /\ ((filter (legality_of (Some s)) (legalities (db (snd run)))
           = filter (legality_of (Some s)) (legalities (db w))
           /\ filter (keyword_of (Some s)) (keywords (db (snd run)))
              = filter (keyword_of (Some s)) (keywords (db w)))
          \/ ((exists rest,
                  map (legality_row E card_id) (legalities_of d)
                  = (filter (legality_of (Some s)) (legalities (db (snd run))) ++ rest)%list)
              /\ exists rest,
                  map (keyword_row_of E card_id) (keywords_of d)
                  = (filter (keyword_of (Some s)) (keywords (db (snd run))) ++ rest)%list)))
  /\ (writable E d card_id -> sound_legalities d -> sound_keywords E d ->
      fst run = Ok tt).
Proof.
  intros run; subst run.
  assert (Hx : exists x, bind_param card_id = Ok x /\ text_affinity E x = Some s).
  { unfold text_cell in Hkey; destruct (bind_param card_id) as [x|]; [|discriminate].
    now exists x. }
  destruct Hx as (x & Hx & Hs).
  rewrite page_of_one_eq, (process_card_update_eq E d card_id x s w Hid Hx Hs Hpresent).
  pose proof (writable_row E d card_id x (now E (ticks w))) as Hwr.
  pose proof (legalities_outcome_returns E d card_id x Hx) as Hlr.
  pose proof (keywords_outcome_returns E d card_id x Hx) as Hkr.
  pose proof (own_legalities E d card_id s Hkey) as Hol.
  pose proof (own_keywords E d card_id s Hkey) as Hok.
  destruct (legalities_outcome_prefix E d card_id) as [restl Hpl].
  destruct (keywords_outcome_prefix E d card_id) as [restk Hpk].
  destruct (normalize E (PDict d) card_id) as [fields|e0] eqn:Hn.
  2:{ untouched.
      intros Hw _ _; destruct (Hwr Hw Hx) as (? & ? & ? & ? & _); discriminate. }
  destruct (bind_params (tl fields)) as [xs|e0] eqn:Hb.
  2:{ untouched.
      intros Hw _ _; destruct (Hwr Hw Hx) as (f' & xs' & r' & Hn' & Hb' & _).
      injection Hn' as <-; rewrite Hb in Hb'; discriminate. }
  destruct (row_of E (x :: xs ++ [SText (now E (ticks w))])) as [r|] eqn:Hr.
  2:{ untouched.
      intros Hw _ _; destruct (Hwr Hw Hx) as (f' & xs' & r' & Hn' & Hb' & Hr' & _).
      injection Hn' as <-; rewrite Hb in Hb'; injection Hb' as <-.
      rewrite Hr in Hr'; discriminate. }
  destruct (negb (is_some (name r))) eqn:Hname.
  { untouched.
    intros Hw _ _; destruct (Hwr Hw Hx) as (f' & xs' & r' & Hn' & Hb' & Hr' & Hnm).
    injection Hn' as <-; rewrite Hb in Hb'; injection Hb' as <-.
    rewrite Hr in Hr'; injection Hr' as <-.
    rewrite Hnm in Hname; discriminate. }
  cbv zeta.
  destruct (replaced_rows (legality_of (Some s)) (legalities (db w))
              (snd (legalities_outcome E d card_id)) Hol) as [Hl1 Hl2].
  destruct (fst (legalities_outcome E d card_id)) as [[]|e0] eqn:Hlo.
  2:{ cbn [fst snd add_legality_rows with_db tick db committed legalities keywords].
      split; [exact Hl2|].
      split; [apply (filter_negb_filter_negb (keyword_of (Some s)))|].
      split; [discriminate|].
      split.
      - intros e _; split; [reflexivity|right].
        rewrite Hl1, (filter_filter_negb (keyword_of (Some s))).
        split; [now exists restl | now eexists].
      - intros _ Hsl _; discriminate (Hlr Hsl). }
  destruct (replaced_rows (keyword_of (Some s)) (keywords (db w))
              (snd (keywords_outcome E d card_id)) Hok) as [Hk1 Hk2].
  destruct (fst (keywords_outcome E d card_id)) as [[]|e0] eqn:Hko;
    cbn [fst snd add_keyword_rows add_legality_rows with_db tick committed_now
         db committed legalities keywords].
  - split; [exact Hl2|].
    split; [exact Hk2|].
    split.
    + intros _; rewrite Hl1, Hk1.
      rewrite (legalities_outcome_ok E d card_id tt Hlo),
              (keywords_outcome_ok E d card_id tt Hko).
      repeat split; reflexivity.
    + split; [discriminate | reflexivity].
  - split; [exact Hl2|].
    split; [exact Hk2|].
    split; [discriminate|].
    split.
    + intros e _; split; [reflexivity|right].
      rewrite Hl1, Hk1; split; [now exists restl | now exists restk].
    + intros _ _ Hsk; discriminate (Hkr Hsk).
Qed.


Lemma upsert_replaces_legalities_and_keywords_witness :
  let run := process_card_page (serve []) (PList [PDict bolt_shrunk]) true world_before in
  legalities (db world_before)
  = [(Some "x", Some "standard", Some "legal"); (Some "x", Some "modern", Some "legal")]
  /\ keywords (db world_before) = [(Some "x", Some "Flash")]
  /\ fst run = Ok tt
  /\ filter (legality_of (Some "x")) (legalities (db (snd run)))
     = [(Some "x", Some "modern", Some "legal")]
  /\ filter (keyword_of (Some "x")) (keywords (db (snd run))) = [(Some "x", Some "Haste")].
Proof.
  cbv zeta.
  pose proof (upsert_replaces_legalities_and_keywords
                (serve []) world_before bolt_shrunk (PStr "x") "x"
                eq_refl eq_refl eq_refl) as (_ & _ & Hexact & _ & Hreturns).
  assert (Hrun : fst (process_card_page (serve []) (PList [PDict bolt_shrunk]) true
                        world_before) = Ok tt).
  { apply Hreturns.
    - eexists; eexists; split; [vm_compute; reflexivity|].
      split; [vm_compute; reflexivity | vm_compute; discriminate].
    - exists [("modern", PStr "legal")]; split; [reflexivity|].
      split; [repeat constructor; intros [] | repeat constructor; now eexists].
    - right; exists [PStr "Haste"]; split; [reflexivity|].
      split; [repeat constructor; now eexists | repeat constructor; intros []]. }
  destruct (Hexact Hrun) as (Hl & Hk & _).
  split; [reflexivity|].
  split; [reflexivity|].
  split; [exact Hrun|].
  split; [rewrite Hl; reflexivity | rewrite Hk; reflexivity].
Defined.

(** C2 as it is worded fails on a record that SQLite refuses half way:
    with the keyword Flying twice, the second INSERT violates the primary
    key of [keywords] and the call raises; the connection then holds for
    the card the new legality row and the one keyword row written so far,
    not the keywords of the record, and nothing of it is committed. *)
Lemma repeated_keyword_leaves_card_half_replaced :
  let run := process_card_page (serve []) (PList [PDict bolt_repeated]) true world_before in
  existsb (fun r => sql_eq (id r) (Some "x")) (cards (db world_before)) = true
  /\ fst run = Raise IntegrityError
  /\ filter (legality_of (Some "x")) (legalities (db (snd run)))
     = [(Some "x", Some "modern", Some "legal")]
  /\ filter (keyword_of (Some "x")) (keywords (db (snd run))) = [(Some "x", Some "Flying")]
  /\ map (keyword_row_of (serve []) (PStr "x")) (keywords_of bolt_repeated)
     = [(Some "x", Some "Flying"); (Some "x", Some "Flying"); (Some "x", Some "Haste")]
  /\ committed (snd run) = committed world_before
  /\ keywords (committed (snd run)) = [(Some "x", Some "Flash")].
Proof.
  vm_compute; repeat split.
Qed.

(** ** Storage failures on any page, and on the reads *)

(** A failure on a page the loop comes to leaves the loop. *)
Lemma more_pages_raises (E : env) (update_existing : bool) (report : Z -> pyval -> msg)
  (total data : pyval) (n : Z) (w : world) (k : nat) (e : exn) (w2 : world) :
  page_fails E update_existing report total data n w k e w2 ->
  forall fuel, (k <= fuel)%nat ->
  more_pages fuel E update_existing report data total n w = (Raise e, w2).
Proof.
  induction 1 as [data n w flag url data' page w1 w2 e Hflag Htrue Hnext Hreq Hdata Hpage
                 |data n w flag url data' w1 w1' w2 n' k e Hflag Htrue Hnext Hreq Hing _ IH];
    intros fuel Hfuel; (destruct fuel as [|fuel]; [lia|]); cbn [more_pages].
  - unfold bind at 1, lift at 1; rewrite Hflag; cbn [fst snd]; rewrite Htrue.
    unfold bind at 1, lift at 1; rewrite Hnext; cbn [fst snd].
    unfold bind at 1; rewrite Hreq; cbn [fst snd Z.eqb Pos.eqb negb].
    unfold bind at 1, lift at 1; cbn [fst snd].
    unfold bind at 1, ingest_page.
    unfold bind at 1, lift at 1; rewrite Hdata; cbn [fst snd].
    unfold bind at 1; now rewrite Hpage.
  - unfold bind at 1, lift at 1; rewrite Hflag; cbn [fst snd]; rewrite Htrue.
    unfold bind at 1, lift at 1; rewrite Hnext; cbn [fst snd].
    unfold bind at 1; rewrite Hreq; cbn [fst snd Z.eqb Pos.eqb negb].
    unfold bind at 1, lift at 1; cbn [fst snd].
    unfold bind at 1; rewrite Hing.
    apply IH; lia.
Qed.

Lemma fetch_all_cards_first_page_raises (fuel : nat) (E : env) (update_existing : bool)
  (w w2 : world) (data total page : pyval) (e : exn) :
  http_get E (api_base_url ++ "/cards") = Response 200 (Ok data) ->
  get data "total_cards" (PInt 0) = Ok total ->
  getitem data "data" = Ok page ->
  process_card_page E page update_existing
    (at_first_page w (api_base_url ++ "/cards") [StartingFetch; FoundTotal total])
  = (Raise e, w2) ->
  fetch_all_cards fuel E update_existing w = (Raise e, w2).
Proof.
  intros Hget Htotal Hdata Hpage.
  unfold fetch_all_cards, bind at 1, print at 1.
  unfold at_first_page in Hpage.
  unfold api_base_url in *; simpl append in *.
  unfold bind at 1, requests_get; rewrite Hget; simpl.
  unfold bind at 1, lift at 1.
  unfold bind at 1, lift at 1; rewrite Htotal.
  unfold bind at 1, print at 1; simpl.
  unfold bind at 1, ingest_page.
  unfold bind at 1, lift at 1; rewrite Hdata.
  unfold bind at 1.
  simpl in Hpage.
  rewrite <- (app_assoc (stdout w)); cbn [app].
  now rewrite Hpage.
Qed.

Lemma fetch_all_cards_later_page_raises (fuel : nat) (E : env) (update_existing : bool)
  (w w1 w2 : world) (data total : pyval) (n : Z) (k : nat) (e : exn) :
  http_get E (api_base_url ++ "/cards") = Response 200 (Ok data) ->
  get data "total_cards" (PInt 0) = Ok total ->
  ingest_page E update_existing Processed data total 0
    (at_first_page w (api_base_url ++ "/cards") [StartingFetch; FoundTotal total])
  = (Ok n, w1) ->
  page_fails E update_existing Processed total data n w1 k e w2 ->
  (k <= fuel)%nat ->
  fetch_all_cards fuel E update_existing w = (Raise e, w2).
Proof.
  intros Hget Htotal Hing Hfails Hfuel.
  unfold fetch_all_cards, bind at 1, print at 1.
  unfold at_first_page in Hing.
  unfold api_base_url in *; simpl append in *.
  unfold bind at 1, requests_get; rewrite Hget; simpl.
  unfold bind at 1, lift at 1.
  unfold bind at 1, lift at 1; rewrite Htotal.
  unfold bind at 1, print at 1; simpl.
  simpl in Hing.
  rewrite <- (app_assoc (stdout w)); cbn [app].
  unfold bind at 1; rewrite Hing.
  unfold bind at 1.
  now rewrite (more_pages_raises E update_existing Processed total data n w1 k e w2
                 Hfails fuel Hfuel).
Qed.

Lemma update_database_later_page_swallowed (fuel : nat) (E : env)
  (w w1 w2 : world) (data total : pyval) (n : Z) (k : nat) (e : exn) :
  http_get E (search_url (last_update_date (db w))) = Response 200 (Ok data) ->
  get data "total_cards" (PInt 0) = Ok total ->
  ingest_page E true ProcessedNew data total 0
    (at_first_page w (search_url (last_update_date (db w)))
       [UpdatingSince (last_update_date (db w)); FoundNew total])
  = (Ok n, w1) ->
  page_fails E true ProcessedNew total data n w1 k e w2 ->
  (k <= fuel)%nat ->
  update_database fuel E w = (Ok true, with_line w2 (ErrorDuringUpdate e)).
Proof.
  intros Hget Htotal Hing Hfails Hfuel.
  unfold update_database, bind at 1, query at 1.
  unfold bind at 1, print at 1.
  unfold try_except.
  unfold bind at 1, requests_get; simpl http_get; rewrite Hget; simpl.
  unfold bind at 1, lift at 1.
  unfold bind at 1, lift at 1; rewrite Htotal.
  unfold bind at 1, print at 1; simpl.
  unfold at_first_page in Hing.
  rewrite <- (app_assoc (stdout w)); cbn [app].
  unfold bind at 1; rewrite Hing.
  unfold bind at 1.
  now rewrite (more_pages_raises E true ProcessedNew total data n w1 k e w2
                 Hfails fuel Hfuel).
Qed.

(** The watermark query runs before the [try]: its failure is the
    caller's; once it is through, nothing is. *)
Lemma update_database_on_select (select : tables -> result string) (fuel : nat) (E : env)
  (w : world) :
  match select (db w) with
  | Raise e => update_database_on select fuel E w = (Raise e, w)
  | Ok _ => exists finished, fst (update_database_on select fuel E w) = Ok finished
  end.
Proof.
  destruct (select (db w)) as [date|e] eqn:Hsel;
    unfold update_database_on, bind at 1, query at 1; rewrite Hsel; [|reflexivity].
  cbn [fst snd].
  unfold bind at 1, print at 1.
  unfold try_except.
  match goal with
  | |- context [match ?body with _ => _ end] => destruct body as [[b|e] w1]
  end.
  - now exists b.
  - now exists true.
Qed.


(** The second page of the example is such a page. *)
Lemma second_page_is_reached :
  exists data n w1 w2,
    http_get second_page_fails (api_base_url ++ "/cards") = Response 200 (Ok data)
    /\ ingest_page second_page_fails false Processed data (PInt 2) 0
         (at_first_page empty_world (api_base_url ++ "/cards")
            [StartingFetch; FoundTotal (PInt 2)])
       = (Ok n, w1)
    /\ page_fails second_page_fails false Processed (PInt 2) data n w1 1 IntegrityError w2.
Proof.
  eexists; eexists; eexists; eexists.
  split; [reflexivity|].
  split; [vm_compute; reflexivity|].
  eapply fails_next with (flag := PBool true) (url := PStr "page2");
    reflexivity.
Qed.

(** C4, as the code has it.  An exception raised while a page is upserted
    leaves [process_card_page] as it is, and a full sync hands it on to
    its caller, from the first page or from any later page the loop comes
    to, in either mode.  The reads hand on their failures too, as
    exceptions, where "not found" is a value: [get_card_details] raises
    when its id cannot be bound, [search_cards] when its limit does not
    fit 64 bits.  An incremental sync is different: a failure of its
    watermark query, which runs before the [try], is the caller's; past
    that query it returns normally in every case, and when the upsert of
    its first page or of a later page raises [e] it prints "Error during
    update: e" and returns, with the world as the failing page left it.
    With a page whose first record repeats a keyword, SQLite's
    [IntegrityError] leaves [fetch_all_cards], from the first page and
    from the second, overwriting or not. *)
Theorem storage_failure_and_the_drivers :
  (forall E update_existing cs e w w1,
      process_cards E update_existing cs w = (Raise e, w1) ->
      process_card_page E (PList cs) update_existing w = (Raise e, w1))
  /\ (forall fuel E update_existing w w2 data total page e,
         http_get E (api_base_url ++ "/cards") = Response 200 (Ok data) ->
         get data "total_cards" (PInt 0) = Ok total ->
         getitem data "data" = Ok page ->
         process_card_page E page update_existing
           (at_first_page w (api_base_url ++ "/cards") [StartingFetch; FoundTotal total])
         = (Raise e, w2) ->
         fetch_all_cards fuel E update_existing w = (Raise e, w2))
  /\ (forall fuel E update_existing w w1 w2 data total n k e,
         http_get E (api_base_url ++ "/cards") = Response 200 (Ok data) ->
         get data "total_cards" (PInt 0) = Ok total ->
         ingest_page E update_existing Processed data total 0
           (at_first_page w (api_base_url ++ "/cards") [StartingFetch; FoundTotal total])
         = (Ok n, w1) ->
         page_fails E update_existing Processed total data n w1 k e w2 ->
         (k <= fuel)%nat ->
         fetch_all_cards fuel E update_existing w = (Raise e, w2))
  /\ (forall R E t card_id e,
         bind_param card_id = Raise e -> get_card_details R E t card_id = Raise e)
  /\ (forall t query limit,
         ~ fits_int64 limit -> search_cards t query limit = Raise OverflowError)
  /\ (forall fuel E,
         update_database fuel E
         = update_database_on (fun t => Ok (last_update_date t)) fuel E)
  /\ (forall select fuel E w e,
         select (db w) = Raise e ->
         update_database_on select fuel E w = (Raise e, w))
  /\ (forall select fuel E w date,
         select (db w) = Ok date ->
         exists finished, fst (update_database_on select fuel E w) = Ok finished)
  /\ (forall fuel E w w2 data total page e,
         http_get E (search_url (last_update_date (db w))) = Response 200 (Ok data) ->
         get data "total_cards" (PInt 0) = Ok total ->
         getitem data "data" = Ok page ->
         process_card_page E page true
           (at_first_page w (search_url (last_update_date (db w)))
              [UpdatingSince (last_update_date (db w)); FoundNew total])
         = (Raise e, w2) ->
         update_database fuel E w = (Ok true, with_line w2 (ErrorDuringUpdate e)))
  /\ (forall fuel E w w1 w2 data total n k e,
         http_get E (search_url (last_update_date (db w))) = Response 200 (Ok data) ->
         get data "total_cards" (PInt 0) = Ok total ->
         ingest_page E true ProcessedNew data total 0
           (at_first_page w (search_url (last_update_date (db w)))
              [UpdatingSince (last_update_date (db w)); FoundNew total])
         = (Ok n, w1) ->
         page_fails E true ProcessedNew total data n w1 k e w2 ->
         (k <= fuel)%nat ->
         update_database fuel E w = (Ok true, with_line w2 (ErrorDuringUpdate e)))
  /\ fst (fetch_all_cards 3 (serve [twice_flying; sound]) true empty_world)
     = Raise IntegrityError
  /\ fst (fetch_all_cards 3 second_page_fails true empty_world) = Raise IntegrityError
  /\ fst (fetch_all_cards 3 second_page_fails false empty_world) = Raise IntegrityError
  /\ get_card_details example_reader (serve []) store_abc (PList []) = Raise InterfaceError
  /\ get_card_details example_reader (serve []) store_abc (PStr "c2") = Ok None
  /\ search_cards store_abc "abc" (2 ^ 63) = Raise OverflowError
  /\ search_cards store_abc "xyz" 20 = Ok [].
Proof.
  split; [exact process_card_page_raises|].
  split; [exact fetch_all_cards_first_page_raises|].
  split; [exact fetch_all_cards_later_page_raises|].
  split.
  { intros R E t card_id e He; unfold get_card_details; now rewrite He. }
  split.
  { intros t query limit; exact (proj2 (search_cards_bound t query limit)). }
  split; [reflexivity|].
  split.
  { intros select fuel E w e He.
    pose proof (update_database_on_select select fuel E w) as H.
    now rewrite He in H. }
  split.
  { intros select fuel E w date Hd.
    pose proof (update_database_on_select select fuel E w) as H.
    now rewrite Hd in H. }
  split; [exact update_database_swallows|].
  split; [exact update_database_later_page_swallowed|].
  repeat split; vm_compute; reflexivity.
Qed.

(** C4 as it is worded fails on an incremental sync whose page starts with
    a record that repeats a keyword: the second INSERT into [keywords]
    violates the primary key, [process_card_page] raises SQLite's
    [IntegrityError], and [update_database] prints it and returns
    normally; so it does when the failing record is on the second page,
    the first page staying committed. *)
Lemma update_database_swallows_storage_failure :
  fst (process_card_page (serve []) (PList [twice_flying; sound]) true empty_world)
  = Raise IntegrityError
  /\ fst (update_database 3 (serve [twice_flying; sound]) empty_world) = Ok true
  /\ fst (update_database 3 (serve [twice_flying; sound]) empty_world)
     <> Raise IntegrityError
  /\ stdout (snd (update_database 3 (serve [twice_flying; sound]) empty_world))
     = [UpdatingSince "2000-01-01"; FoundNew (PInt 2); ErrorDuringUpdate IntegrityError]
  /\ fst (update_database 3 second_page_fails empty_world) = Ok true
  /\ stdout (snd (update_database 3 second_page_fails empty_world))
     = [UpdatingSince "2000-01-01"; FoundNew (PInt 2); ProcessedNew 1 (PInt 2);
        ErrorDuringUpdate IntegrityError]
  /\ map id (cards (committed (snd (update_database 3 second_page_fails empty_world))))
     = [Some "ok"].
Proof.
  repeat split; try reflexivity.
  vm_compute; discriminate.
Qed.

